(** * primitive_db: a shallow embedding of the CRUD core, the decorators,
      the token-form insert and the interactive loop.

    Python objects are modelled as follows.
    - [str] is [string]: the UTF-8 bytes of the text.  The builtins whose
      meaning depends on the Unicode tables ([str.isidentifier],
      [str.lower], [str.strip], [str.split], [int] applied to a string,
      the pattern [-?\d+], [str] applied to a clause) are the methods of the
      class [PyBuiltins]; the general theorems hold for any implementation
      of them, and [ascii_builtins] implements them on ASCII text so that
      the definitions evaluate.
    - a scalar ([Any] in the annotations) is a [value]: an [int], a [str]
      or a [bool], the three types the parser produces and the schema
      supports.
    - a row, the table map of the metadata and the cache are dictionaries
      used as maps: [gmap].  A set-clause or where-clause is a dictionary
      that the code iterates over: an association list in insertion order.
    - the dictionaries and lists that [core.py] mutates in place live in a
      [store], threaded through a state monad whose state survives a
      raised exception, as a Python object does.  The rows of a list are
      distinct objects, as they are when the list is read from a
      document. *)

From Stdlib Require Import Ascii.
From stdpp Require Import base strings gmap list sorting pretty.

Open Scope Z_scope.

(** ** Values *)

Inductive value :=
  | VInt (n : Z)
  | VStr (s : string)
  | VBool (b : bool).

#[global] Instance value_eq_dec : EqDecision value.
Proof. solve_decision. Defined.

Abbreviation row := (gmap string value).
(** A clause is a [dict[str, Any]] in insertion order. *)
Abbreviation clause := (list (string * value)).

(** ** Builtins of the host language *)

Class PyBuiltins := {
  (** [s.isidentifier()] *)
  isidentifier : string → bool;
  (** [s.lower()] *)
  lower : string → string;
  (** [s.strip()] *)
  strip : string → string;
  (** [int(s)] for a string [s]; [None] when it raises *)
  int_of_str : string → option Z;
  (** [re.fullmatch(r"-?\d+", s)] is a match *)
  fullmatch_int : string → bool;
  (** [str(d)] for a clause or [None] *)
  str_of_clause : option clause → string;
  (** [s.split(maxsplit=1)[0]], for [s] that holds a character other
      than white space *)
  first_word : string → string;
}.

(** ** Exceptions and results *)

(** The object an [InvalidValue] carries in its [value] attribute. *)
Inductive payload :=
  | PValue (v : value)
  | PText (s : string)
  | PValues (vs : list value)
  | PClause (c : clause).

(** The message an [InvalidValue] is built with (it is never printed). *)
Inductive reason :=
  | ExpectedColumnType      (* "Ожидалось столбец:тип" *)
  | BadColumnName           (* "Плохое имя столбца" *)
  | IdIsAutomatic           (* "Столбец ID задаётся автоматически" *)
  | UnsupportedType         (* "Неподдерживаемый тип" *)
  | ExpectedInt             (* "Ожидалось int" *)
  | ExpectedBool            (* "Ожидалось bool" *)
  | BadTableName            (* "Плохое имя таблицы" *)
  | WrongValueCount         (* "Неверное количество значений для insert" *)
  | SingleCondition         (* "where поддерживает одно условие col = value" *)
  | EmptySet                (* "set не может быть пустым" *)
  | CannotUpdateId          (* "Нельзя обновлять ID" *)
  | AllFieldsRequired       (* "Все поля обязательны" *)
  | UsageInsert             (* "Использование: insert <table> col=value ..." *)
  | ExpectedColEqValue      (* "Ожидалось col=value" *)
  | EmptyCommand            (* "Пустая команда" *)
  | UnknownVerb.            (* "Неизвестная команда" *)

Inductive db_error :=
  | TableExists (t : string)      (* 'Таблица "t" уже существует.' *)
  | TableMissing (t : string).    (* 'Таблица "t" не существует.' *)

Inductive exn :=
  | InvalidValue (p : payload) (r : reason)
  | KeyError (k : string)
  | DBError (e : db_error)
  | FileNotFoundError
  | ValueError
  | EOFError.

Inductive result (A : Type) :=
  | Ok (a : A)
  | Raise (e : exn).
Arguments Ok {A} a.
Arguments Raise {A} e.

#[global] Instance result_ret : MRet result := λ A a, Ok a.
#[global] Instance result_bind : MBind result := λ A B f r,
  match r with Ok a => f a | Raise e => Raise e end.

Definition is_InvalidValue (e : exn) : bool :=
  match e with InvalidValue _ _ => true | _ => false end.
Definition is_KeyError (e : exn) : bool :=
  match e with KeyError _ => true | _ => false end.

(** A list comprehension whose body can raise: left to right, the first
    exception ends it. *)
Fixpoint comprehension {A B} (f : A → result B) (l : list A) : result (list B) :=
  match l with
  | [] => Ok []
  | x :: l' => y ← f x; ys ← comprehension f l'; Ok (y :: ys)
  end.

(** ** State and exceptions

    A computation on a state [S] returns the state it leaves behind
    together with a value or the exception raised: raising does not undo
    the mutations made before. *)

Definition ST (S A : Type) : Type := S → S * result A.

#[global] Instance ST_ret {S} : MRet (ST S) := λ A a σ, (σ, Ok a).
#[global] Instance ST_bind {S} : MBind (ST S) := λ A B f m σ,
  match m σ with
  | (σ', Ok a) => f a σ'
  | (σ', Raise e) => (σ', Raise e)
  end.

Definition raise {S A} (e : exn) : ST S A := λ σ, (σ, Raise e).
Definition lift {S A} (r : result A) : ST S A := λ σ, (σ, r).

(** ** constants.py *)

Definition ID_COLUMN : string := "ID".
Definition SUPPORTED_TYPES : list string := ["int"; "str"; "bool"].
Definition YES_ANSWERS : list string := ["y"; "yes"; "д"; "да"].

(** ** Python's [==], [int()] and [str()] on scalars *)

Definition int_of_bool (b : bool) : Z := if b then 1 else 0.

(** [a == b]: [bool] is a subclass of [int], so [True == 1]. *)
Definition py_eq (a b : value) : bool :=
  match a, b with
  | VStr s, VStr t => bool_decide (s = t)
  | VStr _, _ | _, VStr _ => false
  | VInt n, VInt m => bool_decide (n = m)
  | VInt n, VBool c => bool_decide (n = int_of_bool c)
  | VBool b, VInt m => bool_decide (int_of_bool b = m)
  | VBool b, VBool c => bool_decide (b = c)
  end.

(** [r.get(col) == val]: a missing key gives [None], equal to no scalar. *)
Definition get_eq (r : row) (col : string) (val : value) : bool :=
  match r !! col with
  | Some x => py_eq x val
  | None => false
  end.

(** [str(raw)] *)
Definition py_str (raw : value) : string :=
  match raw with
  | VStr s => s
  | VInt n => pretty n
  | VBool true => "True"
  | VBool false => "False"
  end.

(** [int(raw)]; [None] when it raises. *)
Definition py_int `{PyBuiltins} (raw : value) : option Z :=
  match raw with
  | VInt n => Some n
  | VBool b => Some (int_of_bool b)
  | VStr s => int_of_str s
  end.

(** The double quote character. *)
Definition dquote : ascii := "034"%char.

(** [s.split(sep, 1)] when [sep in s], for a one-character [sep]. *)
Fixpoint split_once (sep : ascii) (s : string) : option (string * string) :=
  match s with
  | EmptyString => None
  | String c s' =>
      if bool_decide (c = sep) then Some (EmptyString, s')
      else match split_once sep s' with
           | Some (a, b) => Some (String c a, b)
           | None => None
           end
  end.

(** [d[k] = v] on a dictionary kept in insertion order. *)
Fixpoint dict_set (d : clause) (k : string) (v : value) : clause :=
  match d with
  | [] => [(k, v)]
  | (k', v') :: d' =>
      if bool_decide (k' = k) then (k, v) :: d' else (k', v') :: dict_set d' k v
  end.

(** [d.get(k)] on the same. *)
Fixpoint dict_get (d : clause) (k : string) : option value :=
  match d with
  | [] => None
  | (k', v) :: d' => if bool_decide (k' = k) then Some v else dict_get d' k
  end.

(** A column of a schema: the dataclass [Column] of [core.py], and the
    dictionary with the keys ["name"] and ["type_name"] that stands for it
    in the metadata. *)
Record Column := { name : string; type_name : string }.

#[global] Instance Column_eq_dec : EqDecision Column.
Proof. solve_decision. Defined.

(** ** utils.py: the documents on disk and the console *)

(** What the program prints. *)
Inductive output :=
  | OutHelp
  | OutNoFunction (token_of : string)  (* "Функции ... нет. Попробуйте снова." *)
  | OutFileNotFound                    (* "Ошибка: Файл данных не найден. ..." *)
  | OutNotFound (k : string)           (* "Ошибка: Таблица или столбец ... не найден." *)
  | OutInvalidValue (p : payload)      (* "Некорректное значение: ... Попробуйте снова." *)
  | OutValidation                      (* "Ошибка валидации: ..." *)
  | OutDBError (e : db_error)          (* "Ошибка: ..." *)
  | OutUnexpected (e : exn)            (* "Произошла непредвиденная ошибка: ..." *)
  | OutCancelled                       (* "Операция отменена." *)
  | OutTiming (func_name : string)     (* "Функция ... выполнилась за ... секунд." *)
  | OutCreated (t cols_str : string)
  | OutNoTables
  | OutTableName (t : string)
  | OutDropped (t : string)
  | OutInserted (new_id : Z) (t : string)
  | OutUpdatedOne (id : Z) (t : string)
  | OutUpdated (n : nat)
  | OutDeletedOne (id : Z) (t : string)
  | OutDeleted (n : nat)
  | OutInfo (t cols_str : string) (count : nat)
  | OutTable (columns : list string) (cells : list (list (option value)))
  | OutNoRecords.

Module utils.

(** A line typed at the console: its text, and what [parse_command]
    returns on it (the loop uses the second, a confirmation prompt the
    first).  Empty lines are not part of [stdin]: [prompt.string] asks
    again until the line is not empty. *)
Record line (Command : Type) := {
  text : string;
  parsed : result Command;
}.
Arguments text {Command} l.
Arguments parsed {Command} l.

(** [db_meta.json] ([None]: no such file; the document has a ["tables"]
    entry or not), the row documents under [data/] with their
    modification time, a logical clock that stamps every write, the
    console, and the number of calls of [core.select_records] made so far
    (a counter of the model, not of the program). *)
Record world (Command : Type) := {
  meta_file : option (option (gmap string (list Column)));
  data_files : gmap string (list row * Z);
  clock : Z;
  stdin : list (line Command);
  stdout : list output;
  select_calls : nat;
}.
Arguments meta_file {Command} w.
Arguments data_files {Command} w.
Arguments clock {Command} w.
Arguments stdin {Command} w.
Arguments stdout {Command} w.
Arguments select_calls {Command} w.

Section Utils.
Context {Command : Type}.
Abbreviation world := (world Command).

Definition print (o : output) : ST world unit := λ w,
  ({| meta_file := meta_file w; data_files := data_files w; clock := clock w;
      stdin := stdin w; stdout := stdout w ++ [o];
      select_calls := select_calls w |}, Ok ()).

(** [input()] raises [EOFError] at the end of the input. *)
Definition read_line : ST world (line Command) := λ w,
  match stdin w with
  | [] => (w, Raise EOFError)
  | l :: rest =>
      ({| meta_file := meta_file w; data_files := data_files w;
          clock := clock w; stdin := rest; stdout := stdout w;
          select_calls := select_calls w |}, Ok l)
  end.

Definition ask_string : ST world string := l ← read_line; mret (text l).

Definition load_metadata
    : ST world (option (gmap string (list Column))) := λ w,
  (w, Ok (default None (meta_file w))).

Definition save_metadata (data : option (gmap string (list Column)))
    : ST world unit := λ w,
  ({| meta_file := Some data; data_files := data_files w; clock := clock w;
      stdin := stdin w; stdout := stdout w;
      select_calls := select_calls w |}, Ok ()).

Definition load_table_data (table_name : string) : ST world (list row) := λ w,
  (w, Ok (default [] (fst <$> data_files w !! table_name))).

Definition save_table_data (table_name : string) (data : list row)
    : ST world unit := λ w,
  ({| meta_file := meta_file w;
      data_files := <[table_name := (data, clock w)]> (data_files w);
      clock := clock w + 1; stdin := stdin w; stdout := stdout w;
      select_calls := select_calls w |}, Ok ()).

Definition delete_table_file (table_name : string) : ST world unit := λ w,
  ({| meta_file := meta_file w;
      data_files := delete table_name (data_files w);
      clock := clock w; stdin := stdin w; stdout := stdout w;
      select_calls := select_calls w |}, Ok ()).

(** [os.path.getmtime(path) if path.exists() else 0.0] *)
Definition getmtime (table_name : string) : ST world Z := λ w,
  (w, Ok (default 0 (snd <$> data_files w !! table_name))).

Definition count_select : ST world unit := λ w,
  ({| meta_file := meta_file w; data_files := data_files w; clock := clock w;
      stdin := stdin w; stdout := stdout w;
      select_calls := S (select_calls w) |}, Ok ()).

End Utils.
End utils.

(** ** decorators.py *)

Module decorators.
Import utils.

Section Decorators.
Context `{PyBuiltins} {Command : Type}.

(** The message of [handle_db_errors] for an exception, by the first
    [except] clause that matches its class ([InvalidValue] is a
    [ValueError], and comes before it). *)
Definition error_message (e : exn) : output :=
  match e with
  | FileNotFoundError => OutFileNotFound
  | KeyError k => OutNotFound k
  | InvalidValue p _ => OutInvalidValue p
  | ValueError => OutValidation
  | DBError d => OutDBError d
  | EOFError => OutUnexpected e
  end.

Definition handle_db_errors {A} (func : ST (world Command) A)
    : ST (world Command) (option A) := λ w,
  match func w with
  | (w', Ok a) => (w', Ok (Some a))
  | (w', Raise e) => ((print (error_message e) w').1, Ok None)
  end.

(** [confirm_action(action_name)(func)].  The line read by [ask_string]
    is the argument [answer], and the cancellation notice is printed by
    the caller on [None]: both are console effects, which the callers in
    [engine] perform on the [world]. *)
Definition confirmed (answer : string) : bool :=
  bool_decide (lower (strip answer) ∈ YES_ANSWERS).

Definition confirm_action {S A} (answer : string) (func : ST S A)
    : ST S (option A) :=
  if confirmed answer then a ← func; mret (Some a) else mret None.

Definition log_time {A} (func_name : string) (func : ST (world Command) A)
    : ST (world Command) A :=
  result ← func;
  _ ← print (OutTiming func_name);
  mret result.

(** [cache_result(key, value_func)] of [create_cacher]: the dictionary of
    the closure is the first component of the state, [value_func] acts on
    the second. *)
Definition cache_result `{Countable K} {S V} (key : K) (value_func : ST S V)
    : ST (gmap K V * S) V := λ '(cache, σ),
  match cache !! key with
  | Some v => ((cache, σ), Ok v)
  | None =>
      match value_func σ with
      | (σ', Ok value) => ((<[key := value]> cache, σ'), Ok value)
      | (σ', Raise e) => ((cache, σ'), Raise e)
      end
  end.

End Decorators.
End decorators.

(** ** core.py *)

Module core.
Import decorators.

(** The objects a function of [core.py] receives by reference: the
    metadata dictionary (its ["tables"] entry, when it has one, maps a
    table name to its column list) and the row list of one table. *)
Record store := {
  metadata : option (gmap string (list Column));
  table_data : list row;
}.

Abbreviation M := (ST store).

Definition get_rows : M (list row) := λ σ, (σ, Ok (table_data σ)).
Definition set_rows (rows : list row) : M unit := λ σ,
  ({| metadata := metadata σ; table_data := rows |}, Ok ()).
Definition set_tables (t : gmap string (list Column)) : M unit := λ σ,
  ({| metadata := Some t; table_data := table_data σ |}, Ok ()).

Section Core.
Context `{PyBuiltins}.

(** [int(row.get(ID_COLUMN))] under [try]: [int(None)] raises. *)
Definition row_id (r : row) : option Z := r !! ID_COLUMN ≫= py_int.

Definition TRUTHY : list string := ["true"; "1"; "yes"; "y"; "да"; "д"].
Definition FALSY : list string := ["false"; "0"; "no"; "n"; "нет"; "н"].

Definition _coerce_value (type_name : string) (raw : value) : result value :=
  if negb (bool_decide (type_name ∈ SUPPORTED_TYPES)) then
    Raise (InvalidValue (PText type_name) UnsupportedType)
  else if bool_decide (type_name = "str") then
    Ok (VStr (py_str raw))
  else if bool_decide (type_name = "int") then
    match raw with
    | VBool _ => Raise (InvalidValue (PValue raw) ExpectedInt)
    | _ => match py_int raw with
           | Some n => Ok (VInt n)
           | None => Raise (InvalidValue (PValue raw) ExpectedInt)
           end
    end
  else if bool_decide (type_name = "bool") then
    match raw with
    | VBool _ => Ok raw
    | VStr s =>
        let v := lower (strip s) in
        if bool_decide (v ∈ TRUTHY) then Ok (VBool true)
        else if bool_decide (v ∈ FALSY) then Ok (VBool false)
        else Raise (InvalidValue (PValue raw) ExpectedBool)
    | VInt _ => Raise (InvalidValue (PValue raw) ExpectedBool)
    end
  else Raise (InvalidValue (PValue raw) UnsupportedType).

(** [meta.setdefault("tables", {})]; the result is the table map that the
    returned alias of [meta] then holds. *)
Definition _normalize_meta : M (gmap string (list Column)) := λ σ,
  let t := default ∅ (metadata σ) in
  ({| metadata := Some t; table_data := table_data σ |}, Ok t).

Definition _parse_column_spec (spec : string) : result Column :=
  match split_once ":"%char spec with
  | None => Raise (InvalidValue (PText spec) ExpectedColumnType)
  | Some (name, type_name) =>
      if negb (isidentifier name) then
        Raise (InvalidValue (PText name) BadColumnName)
      else if bool_decide (name = ID_COLUMN) then
        Raise (InvalidValue (PText name) IdIsAutomatic)
      else if negb (bool_decide (type_name ∈ SUPPORTED_TYPES)) then
        Raise (InvalidValue (PText type_name) UnsupportedType)
      else Ok {| name := name; type_name := type_name |}
  end.

Definition _schema_columns (table_name : string) : M (list Column) :=
  tables ← _normalize_meta;
  match tables !! table_name with
  | None => raise (KeyError table_name)
  | Some cols => mret cols
  end.

(** [{c.name: c.type_name for c in cols}]: a later column of the same
    name overrides an earlier one. *)
Definition _schema_map (cols : list Column) : gmap string string :=
  foldl (λ m c, <[name c := type_name c]> m) ∅ cols.

Definition create_table (table_name : string) (columns : list string) : M unit :=
  tables ← _normalize_meta;
  if negb (isidentifier table_name) then
    raise (InvalidValue (PText table_name) BadTableName)
  else if bool_decide (is_Some (tables !! table_name)) then
    raise (DBError (TableExists table_name))
  else
    user_cols ← lift (comprehension _parse_column_spec columns);
    let full_cols := {| name := ID_COLUMN; type_name := "int" |} :: user_cols in
    set_tables (<[table_name := full_cols]> tables).

(** The body of [drop_table], under its [confirm_action] decorator. *)
Definition drop_table_body (table_name : string) : M unit :=
  tables ← _normalize_meta;
  if negb (bool_decide (is_Some (tables !! table_name))) then
    raise (DBError (TableMissing table_name))
  else set_tables (delete table_name tables).

Definition drop_table (answer : string) (table_name : string) : M (option unit) :=
  confirm_action answer (drop_table_body table_name).

Definition str_le (a b : string) : Prop := String.leb a b.

Definition list_tables : M (list string) :=
  tables ← _normalize_meta;
  mret (merge_sort str_le (map fst (map_to_list tables))).

(** The loop of [insert_record] that fills [record]. *)
Fixpoint insert_loop (schema : gmap string string)
    (pairs : list (Column * value)) (record : row) : result row :=
  match pairs with
  | [] => Ok record
  | (col, raw_val) :: rest =>
      match schema !! name col with
      | None => Raise (KeyError (name col))
      | Some ty =>
          v ← _coerce_value ty raw_val;
          insert_loop schema rest (<[name col := v]> record)
      end
  end.

(** The loop of [insert_record] that computes [max_id]:
    [max(max_id, int(row.get(ID_COLUMN, 0)))] under [try]. *)
Definition max_id_step (max_id : Z) (r : row) : Z :=
  match py_int (default (VInt 0) (r !! ID_COLUMN)) with
  | Some n => Z.max max_id n
  | None => max_id
  end.

Definition user_columns (cols : list Column) : list Column :=
  filter (λ c, name c ≠ ID_COLUMN) cols.

Definition insert_record (table_name : string) (values : list value) : M Z :=
  cols ← _schema_columns table_name;
  let schema := _schema_map cols in
  let user_cols := user_columns cols in
  if negb (bool_decide (length values = length user_cols)) then
    raise (InvalidValue (PValues values) WrongValueCount)
  else
    record ← lift (insert_loop schema (zip user_cols values) ∅);
    rows ← get_rows;
    let max_id := foldl max_id_step 0 rows in
    let new_id := max_id + 1 in
    let record := <[ID_COLUMN := VInt new_id]> record in
    rows ← get_rows;
    _ ← set_rows (rows ++ [record]);
    mret new_id.

Definition select_records (table_name : string)
    (where_clause : option clause) : M (list row) :=
  _ ← _schema_columns table_name;
  match where_clause with
  | None | Some [] => get_rows
  | Some wc =>
      cols ← _schema_columns table_name;
      let schema := _schema_map cols in
      match wc with
      | [(col_name, raw_val)] =>
          match schema !! col_name with
          | None => raise (KeyError col_name)
          | Some ty =>
              val ← lift (_coerce_value ty raw_val);
              rows ← get_rows;
              mret (filter (λ r, get_eq r col_name val) rows)
          end
      | _ => raise (InvalidValue (PClause wc) SingleCondition)
      end
  end.

(** The loop of [update_records] that fills [coerced_set]. *)
Fixpoint coerce_set (schema : gmap string string) (set_clause : clause)
    : result clause :=
  match set_clause with
  | [] => Ok []
  | (k, v) :: rest =>
      match schema !! k with
      | None => Raise (KeyError k)
      | Some ty =>
          v' ← _coerce_value ty v;
          rest' ← coerce_set schema rest;
          Ok ((k, v') :: rest')
      end
  end.

(** [row.update(coerced_set)] *)
Definition dict_update (r : row) (c : clause) : row :=
  foldl (λ r kv, <[kv.1 := kv.2]> r) r c.

(** The loop of [update_records] over [table_data]: the rows after it and
    [updated_ids]. *)
Fixpoint update_loop (w_col : string) (w_val : value) (coerced_set : clause)
    (rows : list row) : list row * list Z :=
  match rows with
  | [] => ([], [])
  | r :: rest =>
      let '(rest', ids) := update_loop w_col w_val coerced_set rest in
      if get_eq r w_col w_val then
        let r' := dict_update r coerced_set in
        (r' :: rest', match row_id r' with Some i => i :: ids | None => ids end)
      else (r :: rest', ids)
  end.

Definition update_records (table_name : string)
    (set_clause where_clause : clause) : M (list Z) :=
  cols ← _schema_columns table_name;
  let schema := _schema_map cols in
  if bool_decide (set_clause = []) then
    raise (InvalidValue (PClause set_clause) EmptySet)
  else if bool_decide (ID_COLUMN ∈ set_clause.*1) then
    raise (InvalidValue (PText ID_COLUMN) CannotUpdateId)
  else
    match where_clause with
    | [(w_col, w_raw)] =>
        match schema !! w_col with
        | None => raise (KeyError w_col)
        | Some ty =>
            w_val ← lift (_coerce_value ty w_raw);
            coerced_set ← lift (coerce_set schema set_clause);
            rows ← get_rows;
            let '(rows', updated_ids) := update_loop w_col w_val coerced_set rows in
            _ ← set_rows rows';
            mret updated_ids
        end
    | _ => raise (InvalidValue (PClause where_clause) SingleCondition)
    end.

(** The loop of [delete_records]: [kept] and [deleted_ids]. *)
Fixpoint delete_loop (w_col : string) (w_val : value) (rows : list row)
    : list row * list Z :=
  match rows with
  | [] => ([], [])
  | r :: rest =>
      let '(kept, ids) := delete_loop w_col w_val rest in
      if get_eq r w_col w_val then
        (kept, match row_id r with Some i => i :: ids | None => ids end)
      else (r :: kept, ids)
  end.

(** The body of [delete_records], under its [confirm_action] decorator. *)
Definition delete_records_body (table_name : string) (where_clause : clause)
    : M (list row * list Z) :=
  cols ← _schema_columns table_name;
  let schema := _schema_map cols in
  match where_clause with
  | [(w_col, w_raw)] =>
      match schema !! w_col with
      | None => raise (KeyError w_col)
      | Some ty =>
          w_val ← lift (_coerce_value ty w_raw);
          rows ← get_rows;
          mret (delete_loop w_col w_val rows)
      end
  | _ => raise (InvalidValue (PClause where_clause) SingleCondition)
  end.

Definition delete_records (answer : string) (table_name : string)
    (where_clause : clause) : M (option (list row * list Z)) :=
  confirm_action answer (delete_records_body table_name where_clause).

Record info := { info_table : string; info_columns : string; info_count : nat }.

Definition table_info (table_name : string) : M info :=
  cols ← _schema_columns table_name;
  let cols_str :=
    String.concat ", " (map (λ c, name c +:+ ":" +:+ type_name c) cols) in
  rows ← get_rows;
  mret {| info_table := table_name; info_columns := cols_str;
          info_count := length rows |}.

End Core.

End core.

(** ** parser.py: the command record, literals, and the token form of insert *)

Module parser.

Record Command := {
  name : string;
  table : option string;
  columns : option (list string);
  values : option (list value);
  set_clause : option clause;
  where_clause : option clause;
}.

Section Parser.
Context `{PyBuiltins}.

Definition _parse_literal (raw : string) : result value :=
  let raw := strip raw in
  let n := String.length raw in
  if bool_decide (2 ≤ n)%nat
     && bool_decide (String.get 0 raw = Some dquote)
     && bool_decide (String.get (n - 1) raw = Some dquote) then
    Ok (VStr (String.substring 1 (n - 2) raw))
  else
    let low := lower raw in
    if bool_decide (low ∈ ["true"; "false"]) then
      Ok (VBool (bool_decide (low = "true")))
    else if fullmatch_int raw then
      match int_of_str raw with
      | Some n => Ok (VInt n)
      | None => Raise ValueError
      end
    else Ok (VStr raw).

(** The loop over [pairs] in the branch [cmd == "insert"]. *)
Fixpoint insert_pairs (pairs : list string) (kv : clause) : result clause :=
  match pairs with
  | [] => Ok kv
  | p :: rest =>
      match split_once "="%char p with
      | None => Raise (InvalidValue (PText p) ExpectedColEqValue)
      | Some (k, v) =>
          x ← _parse_literal v;
          insert_pairs rest (dict_set kv k x)
      end
  end.

(** The branch [cmd == "insert"] of [parse_command], reached with
    [tokens = shlex.split(line)] when no sentence template matches [line]
    and [tokens[0].lower() == "insert"]. *)
Definition parse_command_insert (line : string) (tokens : list string)
    : result Command :=
  match tokens with
  | _ :: table :: (_ :: _) as pairs =>
      kv ← insert_pairs pairs [];
      Ok {| name := "insert_kv"; table := Some table; columns := None;
            values := None; set_clause := Some kv; where_clause := None |}
  | _ => Raise (InvalidValue (PText line) UsageInsert)
  end.

End Parser.
End parser.

(** ** engine.py *)

Module engine.
Import utils decorators.

Abbreviation world := (utils.world parser.Command).
(** The dictionary of the closure made by [create_cacher] in [run]: from
    (table, [str(where_clause)], modification time) to rows. *)
Abbreviation cache := (gmap (string * string * Z) (list row)).

(** Whether the loop goes on to the next line or returns. *)
Inductive next := Continue | Return.

(** A call of a function of [core.py] on the objects that the handler
    holds in local variables. *)
Definition call {A} (m : core.M A) (σ : core.store)
    : ST world (core.store * A) := λ w,
  match m σ with
  | (σ', Ok a) => (w, Ok (σ', a))
  | (σ', Raise e) => (w, Raise e)
  end.

Definition on_world {A} (m : ST world A) : ST (cache * world) A := λ '(c, w),
  let '(w', r) := m w in ((c, w'), r).

Section Engine.
Context `{PyBuiltins}.

Definition print_help : ST world unit := print OutHelp.

Definition _ensure_meta_shape (meta : option (gmap string (list Column)))
    : option (gmap string (list Column)) :=
  Some (default ∅ meta).

Definition _columns_for_table (meta : option (gmap string (list Column)))
    (table_name : string) : result (list string) :=
  match meta with
  | None => Raise (KeyError "tables")
  | Some tables =>
      match tables !! table_name with
      | None => Raise (KeyError table_name)
      | Some cols => Ok (map name cols)
      end
  end.

Definition _user_columns_for_table (meta : option (gmap string (list Column)))
    (table_name : string) : result (list string) :=
  cols ← _columns_for_table meta table_name;
  Ok (filter (λ c, c ≠ ID_COLUMN) cols).

(** [pt.field_names = columns] raises [ValueError] when a name is there
    twice; every row added has one cell per column. *)
Definition _make_table_view (columns : list string) (rows : list row)
    : result output :=
  if bool_decide (NoDup columns) then
    Ok (OutTable columns (map (λ r : row, map (λ c, r !! c) columns) rows))
  else Raise ValueError.

Definition columns_summary (cols : list Column) : string :=
  String.concat ", " (map (λ c, name c +:+ ":" +:+ type_name c) cols).

Definition _handle_create_table_body (cmd : parser.Command) : ST world unit :=
  loaded ← load_metadata;
  let meta := _ensure_meta_shape loaded in
  let t := default "" (parser.table cmd) in
  '(updated, _) ← call (core.create_table t (default [] (parser.columns cmd)))
                    {| core.metadata := meta; core.table_data := [] |};
  _ ← save_metadata (core.metadata updated);
  _ ← save_table_data t [];
  match core.metadata updated ≫= (.!! t) with
  | None => raise (KeyError t)
  | Some cols => print (OutCreated t (columns_summary cols))
  end.

Definition _handle_create_table (cmd : parser.Command)
    : ST world (option unit) :=
  handle_db_errors (_handle_create_table_body cmd).

Fixpoint print_tables (tables : list string) : ST world unit :=
  match tables with
  | [] => mret ()
  | t :: rest => _ ← print (OutTableName t); print_tables rest
  end.

Definition _handle_list_tables_body : ST world unit :=
  loaded ← load_metadata;
  let meta := _ensure_meta_shape loaded in
  '(_, tables) ← call core.list_tables
                   {| core.metadata := meta; core.table_data := [] |};
  match tables with
  | [] => print OutNoTables
  | _ => print_tables tables
  end.

Definition _handle_list_tables : ST world (option unit) :=
  handle_db_errors _handle_list_tables_body.

Definition _handle_drop_table_body (cmd : parser.Command) : ST world unit :=
  loaded ← load_metadata;
  let meta := _ensure_meta_shape loaded in
  let t := default "" (parser.table cmd) in
  answer ← ask_string;
  '(updated, r) ← call (core.drop_table answer t)
                    {| core.metadata := meta; core.table_data := [] |};
  match r with
  | None => print OutCancelled
  | Some _ =>
      _ ← save_metadata (core.metadata updated);
      _ ← delete_table_file t;
      print (OutDropped t)
  end.

Definition _handle_drop_table (cmd : parser.Command) : ST world (option unit) :=
  handle_db_errors (_handle_drop_table_body cmd).

(** The loop of [_handle_insert] over [user_cols] for the token form. *)
Fixpoint kv_values (user_cols : list string) (kv : clause) : result (list value) :=
  match user_cols with
  | [] => Ok []
  | col :: rest =>
      match dict_get kv col with
      | None => Raise (InvalidValue (PText col) AllFieldsRequired)
      | Some v => vs ← kv_values rest kv; Ok (v :: vs)
      end
  end.

Definition _handle_insert_body (cmd : parser.Command) : ST world unit :=
  loaded ← load_metadata;
  let meta := _ensure_meta_shape loaded in
  let t := default "" (parser.table cmd) in
  data ← load_table_data t;
  values ← lift (
    if bool_decide (parser.name cmd = "insert_kv") then
      user_cols ← _user_columns_for_table meta t;
      kv_values user_cols (default [] (parser.set_clause cmd))
    else Ok (default [] (parser.values cmd)));
  '(σ, new_id) ← call (core.insert_record t values)
                   {| core.metadata := meta; core.table_data := data |};
  _ ← save_table_data t (core.table_data σ);
  print (OutInserted new_id t).

Definition _handle_insert (cmd : parser.Command) : ST world (option unit) :=
  log_time "_handle_insert" (handle_db_errors (_handle_insert_body cmd)).

Definition _handle_update_body (cmd : parser.Command) : ST world unit :=
  loaded ← load_metadata;
  let meta := _ensure_meta_shape loaded in
  let t := default "" (parser.table cmd) in
  data ← load_table_data t;
  '(σ, updated_ids) ←
     call (core.update_records t (default [] (parser.set_clause cmd))
             (default [] (parser.where_clause cmd)))
       {| core.metadata := meta; core.table_data := data |};
  _ ← save_table_data t (core.table_data σ);
  match updated_ids with
  | [i] => print (OutUpdatedOne i t)
  | _ => print (OutUpdated (length updated_ids))
  end.

Definition _handle_update (cmd : parser.Command) : ST world (option unit) :=
  log_time "_handle_update" (handle_db_errors (_handle_update_body cmd)).

Definition _handle_delete_body (cmd : parser.Command) : ST world unit :=
  loaded ← load_metadata;
  let meta := _ensure_meta_shape loaded in
  let t := default "" (parser.table cmd) in
  data ← load_table_data t;
  answer ← ask_string;
  '(_, result) ←
     call (core.delete_records answer t (default [] (parser.where_clause cmd)))
       {| core.metadata := meta; core.table_data := data |};
  match result with
  | None => print OutCancelled
  | Some (data, deleted_ids) =>
      _ ← save_table_data t data;
      match deleted_ids with
      | [i] => print (OutDeletedOne i t)
      | _ => print (OutDeleted (length deleted_ids))
      end
  end.

Definition _handle_delete (cmd : parser.Command) : ST world (option unit) :=
  log_time "_handle_delete" (handle_db_errors (_handle_delete_body cmd)).

Definition _handle_info_body (cmd : parser.Command) : ST world unit :=
  loaded ← load_metadata;
  let meta := _ensure_meta_shape loaded in
  let t := default "" (parser.table cmd) in
  data ← load_table_data t;
  '(_, i) ← call (core.table_info t)
              {| core.metadata := meta; core.table_data := data |};
  print (OutInfo (core.info_table i) (core.info_columns i) (core.info_count i)).

Definition _handle_info (cmd : parser.Command) : ST world (option unit) :=
  handle_db_errors (_handle_info_body cmd).

(** The closure [compute] of the select branch of [run]. *)
Definition compute (cmd : parser.Command) (t : string) : ST world (list row) :=
  loaded ← load_metadata;
  let meta := _ensure_meta_shape loaded in
  data ← load_table_data t;
  _ ← count_select;
  '(_, rows) ← call (core.select_records t (parser.where_clause cmd))
                 {| core.metadata := meta; core.table_data := data |};
  mret rows.

(** The select branch of [run]: it is not under [handle_db_errors]. *)
Definition select_branch (cmd : parser.Command) : ST (cache * world) unit :=
  let t := default "" (parser.table cmd) in
  mtime ← on_world (getmtime t);
  let key := (t, str_of_clause (parser.where_clause cmd), mtime) in
  rows ← cache_result key (compute cmd t);
  loaded ← on_world load_metadata;
  let meta := _ensure_meta_shape loaded in
  columns ← lift (_columns_for_table meta t);
  match rows with
  | [] => on_world (print OutNoRecords)
  | _ => view ← lift (_make_table_view columns rows); on_world (print view)
  end.

(** The body of the loop of [run] once the line is parsed. *)
Definition dispatch (cmd : parser.Command) : ST (cache * world) next :=
  let n := parser.name cmd in
  if bool_decide (n = "help") then _ ← on_world print_help; mret Continue
  else if bool_decide (n = "exit") then mret Return
  else if bool_decide (n = "create_table") then
    _ ← on_world (_handle_create_table cmd); mret Continue
  else if bool_decide (n = "list_tables") then
    _ ← on_world _handle_list_tables; mret Continue
  else if bool_decide (n = "drop_table") then
    _ ← on_world (_handle_drop_table cmd); mret Continue
  else if bool_decide (n = "info") then
    _ ← on_world (_handle_info cmd); mret Continue
  else if bool_decide (n ∈ ["insert"; "insert_kv"]) then
    _ ← on_world (_handle_insert cmd); mret Continue
  else if bool_decide (n = "update") then
    _ ← on_world (_handle_update cmd); mret Continue
  else if bool_decide (n = "delete") then
    _ ← on_world (_handle_delete cmd); mret Continue
  else if bool_decide (n = "select") then
    _ ← select_branch cmd; mret Continue
  else _ ← on_world (print (OutNoFunction n)); mret Continue.

(** One turn of [while True]: read a line, strip it, parse, dispatch.  A
    parse failure is reported by the first token of the stripped line,
    and not at all when nothing is left of the line. *)
Definition turn : ST (cache * world) next :=
  l ← on_world read_line;
  let line := strip (text l) in
  match parsed l with
  | Raise _ =>
      if bool_decide (line = "") then mret Continue
      else _ ← on_world (print (OutNoFunction (first_word line))); mret Continue
  | Ok cmd => dispatch cmd
  end.

(** The loop: every turn reads at least one line, so [fuel] above the
    number of lines left never runs out before the input does. *)
Fixpoint loop (fuel : nat) : ST (cache * world) unit :=
  match fuel with
  | O => raise EOFError
  | S fuel' =>
      n ← turn;
      match n with
      | Return => mret ()
      | Continue => loop fuel'
      end
  end.

(** [run()]: a value when the loop returns (on [exit]), the exception
    that leaves it otherwise. *)
Definition run : ST world unit := λ w,
  let '(w1, _) := print_help w in
  let '((_, w'), r) := loop (S (length (stdin w1))) (∅, w1) in (w', r).

End Engine.
End engine.

(** ** The builtins on ASCII text

    An implementation of [PyBuiltins] that agrees with Python on strings
    of ASCII characters; the examples below evaluate the program with it. *)

Module ascii_text.

Definition code (c : ascii) : nat := nat_of_ascii c.
Definition between (lo hi : nat) (c : ascii) : bool :=
  bool_decide (lo ≤ code c ≤ hi)%nat.

(** [c.isspace()]: tab to carriage return, the four separators, space. *)
Definition is_space (c : ascii) : bool := between 9 13 c || between 28 32 c.
(** The white space that [int()] skips: the four separators are not. *)
Definition is_blank (c : ascii) : bool :=
  between 9 13 c || bool_decide (code c = 32%nat).
Definition is_digit (c : ascii) : bool := between 48 57 c.
Definition is_alpha (c : ascii) : bool := between 65 90 c || between 97 122 c.
Definition is_underscore (c : ascii) : bool := bool_decide (code c = 95%nat).

Fixpoint lstrip_of (p : ascii → bool) (s : string) : string :=
  match s with
  | String c s' => if p c then lstrip_of p s' else s
  | EmptyString => EmptyString
  end.

Definition strip_of (p : ascii → bool) (s : string) : string :=
  String.rev (lstrip_of p (String.rev (lstrip_of p s))).

Definition lstrip : string → string := lstrip_of is_space.
Definition strip : string → string := strip_of is_space.

(** The characters of [s] before its first white space, leading white
    space skipped. *)
Fixpoint word (s : string) : string :=
  match s with
  | String c s' => if is_space c then EmptyString else String c (word s')
  | EmptyString => EmptyString
  end.

Definition first_word (s : string) : string := word (lstrip s).

Definition lower_char (c : ascii) : ascii :=
  if between 65 90 c then ascii_of_nat (code c + 32) else c.

Fixpoint lower (s : string) : string :=
  match s with
  | String c s' => String (lower_char c) (lower s')
  | EmptyString => EmptyString
  end.

Fixpoint all_chars (p : ascii → bool) (s : string) : bool :=
  match s with
  | String c s' => p c && all_chars p s'
  | EmptyString => true
  end.

Definition isidentifier (s : string) : bool :=
  match s with
  | String c s' =>
      (is_alpha c || is_underscore c)
      && all_chars (λ d, is_alpha d || is_digit d || is_underscore d) s'
  | EmptyString => false
  end.

(** Digits with single underscores between them: the value and the number
    of digits. *)
Fixpoint digits (s : string) (acc : Z) (after_digit : bool) (count : nat)
    : option (Z * nat) :=
  match s with
  | EmptyString => if after_digit then Some (acc, count) else None
  | String c s' =>
      if is_digit c then
        digits s' (10 * acc + Z.of_nat (code c - 48)) true (S count)
      else if is_underscore c && after_digit then digits s' acc false count
      else None
  end.

(** [int(s)]: surrounding blanks, an optional sign, digits; more than
    4300 digits are refused. *)
Definition int_of_str (s : string) : option Z :=
  let s := strip_of is_blank s in
  let '(sign, body) :=
    match s with
    | String "-" s' => (-1, s')
    | String "+" s' => (1, s')
    | _ => (1, s)
    end in
  match digits body 0 false 0 with
  | Some (n, count) => if bool_decide (count ≤ 4300)%nat then Some (sign * n) else None
  | None => None
  end.

Definition fullmatch_int (s : string) : bool :=
  let body := match s with String "-" s' => s' | _ => s end in
  negb (bool_decide (body = EmptyString)) && all_chars is_digit body.

Definition hex_digit (n : nat) : ascii :=
  if bool_decide (n < 10)%nat then ascii_of_nat (48 + n) else ascii_of_nat (87 + n).

(** The body of [repr(s)] between the quotes, with [q] the quote chosen. *)
Fixpoint repr_body (q : ascii) (s : string) : string :=
  match s with
  | EmptyString => EmptyString
  | String c s' =>
      (if bool_decide (c = "\"%char) then "\\"
       else if bool_decide (c = q) then String "\" (String q EmptyString)
       else if bool_decide (code c = 9%nat) then "\t"
       else if bool_decide (code c = 10%nat) then "\n"
       else if bool_decide (code c = 13%nat) then "\r"
       else if bool_decide (code c < 32)%nat || bool_decide (code c = 127%nat) then
         String "\" (String "x" (String (hex_digit (code c / 16))
           (String (hex_digit (code c mod 16)) EmptyString)))
       else String c EmptyString) +:+ repr_body q s'
  end.

Definition has_char (c : ascii) (s : string) : bool :=
  negb (all_chars (λ d, negb (bool_decide (d = c))) s).

Definition repr_str (s : string) : string :=
  let q : ascii :=
    if has_char "'" s && negb (has_char dquote s) then dquote else "'"%char in
  String q (repr_body q s) +:+ String q EmptyString.

Definition repr_value (v : value) : string :=
  match v with
  | VStr s => repr_str s
  | _ => py_str v
  end.

Definition str_of_clause (c : option clause) : string :=
  match c with
  | None => "None"
  | Some d =>
      "{" +:+ String.concat ", "
                (map (λ kv, repr_str kv.1 +:+ ": " +:+ repr_value kv.2) d) +:+ "}"
  end.

End ascii_text.

Definition ascii_builtins : PyBuiltins := {|
  isidentifier := ascii_text.isidentifier;
  lower := ascii_text.lower;
  strip := ascii_text.strip;
  int_of_str := ascii_text.int_of_str;
  fullmatch_int := ascii_text.fullmatch_int;
  str_of_clause := ascii_text.str_of_clause;
  first_word := ascii_text.first_word;
|}.

(** ** Vocabulary of the statements *)

Section Vocabulary.
Context `{PyBuiltins}.

(** The IDs that the loop of [insert_record] sees: for every row,
    [int(row.get("ID", 0))] when it does not raise. *)
Definition stored_ids (rows : list row) : list Z :=
  omap (λ r : row, py_int (default (VInt 0) (r !! ID_COLUMN))) rows.

(** The maximum of a list of integers and 0. *)
Definition max0 (l : list Z) : Z := foldr Z.max 0 l.

(** [insert_record] called once per value list, on the same objects. *)
Fixpoint successive_inserts (t : string) (vals : list (list value))
    : core.M (list Z) :=
  match vals with
  | [] => mret []
  | values :: rest =>
      i ← core.insert_record t values;
      ids ← successive_inserts t rest;
      mret (i :: ids)
  end.

(** A value list that [insert_record] accepts for the columns [cols]:
    one value per non-ID column, each coercible to the type of its
    column. *)
Definition accepted (cols : list Column) (values : list value) : Prop :=
  length values = length (core.user_columns cols)
  ∧ ∃ record,
      core.insert_loop (core._schema_map cols)
        (zip (core.user_columns cols) values) ∅ = Ok record.

(** The store once [_normalize_meta] has run: a metadata dictionary
    without a ["tables"] entry has got an empty one. *)
Definition normalized (σ : core.store) : core.store :=
  {| core.metadata := Some (default ∅ (core.metadata σ));
     core.table_data := core.table_data σ |}.

End Vocabulary.

(** The command that [parse_command] makes of [insert <table> k=v ...],
    and the one it makes of [insert into <table> values (...)]. *)
Definition insert_kv_cmd (t : string) (kv : clause) : parser.Command :=
  {| parser.name := "insert_kv"; parser.table := Some t;
     parser.columns := None; parser.values := None;
     parser.set_clause := Some kv; parser.where_clause := None |}.

Definition insert_cmd (t : string) (values : list value) : parser.Command :=
  {| parser.name := "insert"; parser.table := Some t;
     parser.columns := None; parser.values := Some values;
     parser.set_clause := None; parser.where_clause := None |}.



(** A computation that never adds to what [size] measures of the state. *)
Definition keeps {S A} (size : S → nat) (m : ST S A) : Prop :=
  ∀ σ σ' r, m σ = (σ', r) → (size σ' ≤ size σ)%nat.

(** The number of lines still to be read. *)
Definition lines_left (w : engine.world) : nat := length (utils.stdin w).
Definition lines_left_of (st : engine.cache * engine.world) : nat :=
  lines_left st.2.

(** Calls of [cache_result] one after the other, whatever each returns. *)
Definition cache_calls `{Countable K} {S V} (calls : list (K * ST S V))
    (st : gmap K V * S) : gmap K V * S :=
  foldl (λ st call, (decorators.cache_result call.1 call.2 st).1) st calls.

(** ** Inputs of the examples *)

Module examples.

Definition command (n : string) (t : string) : parser.Command :=
  {| parser.name := n; parser.table := Some t; parser.columns := None;
     parser.values := None; parser.set_clause := None;
     parser.where_clause := None |}.

(** [create_table t a:int] *)
Definition create_t : parser.Command :=
  {| parser.name := "create_table"; parser.table := Some "t";
     parser.columns := Some ["a:int"]; parser.values := None;
     parser.set_clause := None; parser.where_clause := None |}.

Definition where_ (n t col : string) (v : value) : parser.Command :=
  {| parser.name := n; parser.table := Some t; parser.columns := None;
     parser.values := None; parser.set_clause := None;
     parser.where_clause := Some [(col, v)] |}.

Definition exit_ : parser.Command :=
  {| parser.name := "exit"; parser.table := None; parser.columns := None;
     parser.values := None; parser.set_clause := None;
     parser.where_clause := None |}.

Definition typed (text : string) (cmd : parser.Command)
    : utils.line parser.Command :=
  {| utils.text := text; utils.parsed := Ok cmd |}.

(** A fresh directory: no metadata document, no table document. *)
Definition session (lines : list (utils.line parser.Command)) : engine.world :=
  {| utils.meta_file := None; utils.data_files := ∅; utils.clock := 1;
     utils.stdin := lines; utils.stdout := []; utils.select_calls := 0 |}.

Definition select_undeclared : engine.world :=
  session [typed "create_table t a:int" create_t;
           typed "select from t where nope = 1" (where_ "select" "t" "nope" (VInt 1));
           typed "exit" exit_].

Definition select_uncoercible : engine.world :=
  session [typed "create_table t a:int" create_t;
           typed "select from t where a = abc" (where_ "select" "t" "a" (VStr "abc"));
           typed "exit" exit_].

Definition delete_undeclared : engine.world :=
  session [typed "create_table t a:int" create_t;
           typed "delete from t where nope = 1" (where_ "delete" "t" "nope" (VInt 1));
           typed "y" exit_;
           typed "exit" exit_].

Definition id_int : Column := {| name := "ID"; type_name := "int" |}.
Definition a_int : Column := {| name := "a"; type_name := "int" |}.
Definition active_bool : Column := {| name := "active"; type_name := "bool" |}.

(** The table map after [create_table t a:int active:bool]. *)
Definition tables_t : gmap string (list Column) :=
  {["t" := [id_int; a_int; active_bool]]}.

Definition row_of (id a : Z) (active : bool) : row :=
  <["ID" := VInt id]> (<["a" := VInt a]> (<["active" := VBool active]> ∅)).

Definition rows_t : list row :=
  [row_of 1 10 true; row_of 2 20 false; row_of 3 10 true].

Definition store_t (rows : list row) : core.store :=
  {| core.metadata := Some tables_t; core.table_data := rows |}.

(** A directory that holds the table [t] and its three rows. *)
Definition world_t : engine.world :=
  {| utils.meta_file := Some (Some tables_t);
     utils.data_files := {["t" := (rows_t, 5)]}; utils.clock := 6;
     utils.stdin := []; utils.stdout := []; utils.select_calls := 0 |}.

End examples.

(** ** parser.py: conditions and the token grammar *)

(** The regular-expression engine of the host language. *)
Class PyRegex := {
  (** [_COND_RE.match(s)], for [^(?P<col>\w+)\s*=\s*(?P<val>.+)$]: the
      groups [col] and [val] of the match, [None] when there is none *)
  match_condition : string → option (string * string);
}.

Module token_grammar.

(** The messages of the [InvalidValue] that the token grammar and
    [_parse_condition] raise; each carries a text. *)
Inductive usage :=
  | ExpectedCondition       (* "Ожидалось условие вида col = value" *)
  | UsageInfo               (* "Использование: info <таблица>" *)
  | UsageCreateTable        (* "Использование: create_table <name> <col:type> ..." *)
  | UsageDropTable          (* "Использование: drop_table <name>" *)
  | UsageSelect             (* "Использование: select <table> [where col = value]" *)
  | UsageUpdate             (* "Использование: update <table> set col=value ... where col = value" *)
  | UpdateNeedsWhere        (* "update требует where" *)
  | UsageDelete             (* "Использование: delete <table> where col = value" *)
  | UnknownCommand.         (* "Неизвестная команда" *)

(** What leaves the token grammar instead of a command: an
    [InvalidValue] with one of the messages above, or the exception of
    [_parse_literal] or of the insert branch. *)
Inductive failure :=
  | Invalid (text : string) (u : usage)
  | Raised (e : exn).

Inductive outcome (A : Type) :=
  | Parsed (a : A)
  | Failed (f : failure).
Arguments Parsed {A} a.
Arguments Failed {A} f.

Definition of_result {A} (r : result A) : outcome A :=
  match r with
  | Ok a => Parsed a
  | Raise e => Failed (Raised e)
  end.

(** [Command(name=n, table=t, ...)] with the other fields at their
    default [None]. *)
Definition command (n : string) (t : option string)
    (cols : option (list string)) (set_clause where_clause : option clause)
    : parser.Command :=
  {| parser.name := n; parser.table := t; parser.columns := cols;
     parser.values := None; parser.set_clause := set_clause;
     parser.where_clause := where_clause |}.

(** [l.index(x)] when [x in l]. *)
Fixpoint index_of (x : string) (l : list string) : option nat :=
  match l with
  | [] => None
  | y :: l' => if bool_decide (y = x) then Some O else S <$> index_of x l'
  end.

Section TokenGrammar.
Context `{PyBuiltins} `{PyRegex}.

Definition _parse_condition (text : string) : outcome clause :=
  match match_condition (strip text) with
  | None => Failed (Invalid text ExpectedCondition)
  | Some (col, val) =>
      match parser._parse_literal val with
      | Ok v => Parsed [(col, v)]
      | Raise e => Failed (Raised e)
      end
  end.

(** [Command(name=n, table=t, where_clause=_parse_condition(cond))] *)
Definition with_condition (n t : string) (set_clause : option clause)
    (cond : string) : outcome parser.Command :=
  match _parse_condition cond with
  | Parsed w => Parsed (command n (Some t) None set_clause (Some w))
  | Failed f => Failed f
  end.

(** [parse_command] from [tokens = shlex.split(line)] on, reached when no
    sentence template matches [line]; [tokens] is [head :: args]. *)
Definition parse_tokens (line : string) (head : string) (args : list string)
    : outcome parser.Command :=
  let tokens := head :: args in
  let cmd := lower head in
  if bool_decide (cmd ∈ ["exit"; "help"; "list_tables"]) then
    Parsed (command cmd None None None None)
  else if bool_decide (cmd = "info") then
    match args with
    | [t] => Parsed (command "info" (Some t) None None None)
    | _ => Failed (Invalid line UsageInfo)
    end
  else if bool_decide (cmd = "create_table") then
    match args with
    | t :: (_ :: _) as cols =>
        Parsed (command "create_table" (Some t) (Some cols) None None)
    | _ => Failed (Invalid line UsageCreateTable)
    end
  else if bool_decide (cmd = "drop_table") then
    match args with
    | [t] => Parsed (command "drop_table" (Some t) None None None)
    | _ => Failed (Invalid line UsageDropTable)
    end
  else if bool_decide (cmd = "insert") then
    of_result (parser.parse_command_insert line tokens)
  else if bool_decide (cmd = "select") then
    match args with
    | [] => Failed (Invalid line UsageSelect)
    | [t] => Parsed (command "select" (Some t) None None None)
    | t :: kw :: rest =>
        if bool_decide (lower kw = "where") then
          with_condition "select" t None (String.concat " " rest)
        else Failed (Invalid line UsageSelect)
    end
  else if bool_decide (cmd = "update") then
    match args with
    | t :: kw :: _ :: _ =>
        if negb (bool_decide (lower kw = "set")) then
          Failed (Invalid line UsageUpdate)
        else
          match index_of "where" (lower <$> tokens) with
          | None => Failed (Invalid line UpdateNeedsWhere)
          | Some idx =>
              let set_pairs := take (idx - 3) (drop 3 tokens) in
              let where_text := String.concat " " (drop (idx + 1) tokens) in
              match parser.insert_pairs set_pairs [] with
              | Raise e => Failed (Raised e)
              | Ok set_clause =>
                  with_condition "update" t (Some set_clause) where_text
              end
          end
    | _ => Failed (Invalid line UsageUpdate)
    end
  else if bool_decide (cmd = "delete") then
    match args with
    | t :: kw :: (_ :: _) as rest =>
        if negb (bool_decide (lower kw = "where")) then
          Failed (Invalid line UsageDelete)
        else with_condition "delete" t None (String.concat " " rest)
    | _ => Failed (Invalid line UsageDelete)
    end
  else Failed (Invalid head UnknownCommand).

End TokenGrammar.
End token_grammar.

(** The pattern of conditions on ASCII text. *)
Module ascii_regex.
Import ascii_text.

Definition is_word (c : ascii) : bool :=
  is_alpha c || is_digit c || is_underscore c.
Definition is_newline (c : ascii) : bool := bool_decide (code c = 10%nat).

(** The longest prefix of characters in a class, and what follows it. *)
Fixpoint span (p : ascii → bool) (s : string) : string * string :=
  match s with
  | String c s' =>
      if p c then let '(a, b) := span p s' in (String c a, b)
      else (EmptyString, s)
  | EmptyString => (EmptyString, EmptyString)
  end.

Fixpoint last_char (s : string) : option ascii :=
  match s with
  | EmptyString => None
  | String c EmptyString => Some c
  | String _ s' => last_char s'
  end.

Definition chop (s : string) : string :=
  String.substring 0 (String.length s - 1) s.

(** [\s*(.+)$] on what follows the equals sign: [$] is the end of the
    text, or the place before a newline that ends it; [\s*] takes as much
    whitespace as leaves [.+] one character at least, and no newline. *)
Definition match_value (rest : string) : option string :=
  let body :=
    match last_char rest with
    | Some c => if is_newline c then chop rest else rest
    | None => rest
    end in
  let '(_, val) := span is_space body in
  match val with
  | EmptyString =>
      match last_char body with
      | Some c => if is_newline c then None else Some (String c EmptyString)
      | None => None
      end
  | _ => if has_char "010"%char val then None else Some val
  end.

Definition match_condition (s : string) : option (string * string) :=
  let '(col, after_col) := span is_word s in
  if bool_decide (col = EmptyString) then None
  else
    match (span is_space after_col).2 with
    | String "=" rest =>
        match match_value rest with
        | Some val => Some (col, val)
        | None => None
        end
    | _ => None
    end.

End ascii_regex.

Definition ascii_regex_engine : PyRegex := {|
  match_condition := ascii_regex.match_condition;
|}.

(** ** Vocabulary of the further statements *)

(** The verbs that [run] dispatches on. *)
Definition KNOWN_VERBS : list string :=
  ["help"; "exit"; "create_table"; "list_tables"; "drop_table"; "info";
   "insert"; "insert_kv"; "update"; "delete"; "select"].

(** The type name of the Python class of a scalar. *)
Definition type_of (v : value) : string :=
  match v with
  | VInt _ => "int"
  | VStr _ => "str"
  | VBool _ => "bool"
  end.

(** A row of a table with the columns [cols]: its keys are the column
    names, and every value has the type that the schema gives its key. *)
Definition conforms `{PyBuiltins} (cols : list Column) (r : row) : Prop :=
  dom r = dom (core._schema_map cols)
  ∧ ∀ k v, r !! k = Some v → core._schema_map cols !! k = Some (type_of v).

(** The schema that [create_table] stores for the parsed columns. *)
Definition schema_of (user_cols : list Column) : list Column :=
  {| name := ID_COLUMN; type_name := "int" |} :: user_cols.

(** A computation that only takes lines off the front of the input, the
    input being what [input] shows of the state. *)
Definition trims {S A} (input : S → list (utils.line parser.Command))
    (m : ST S A) : Prop :=
  ∀ σ σ' r, m σ = (σ', r) → input σ' `suffix_of` input σ.

Definition input_of (st : engine.cache * engine.world)
    : list (utils.line parser.Command) :=
  utils.stdin st.2.

(** A line whose command, if it parses, is not a select. *)
Definition not_select (l : utils.line parser.Command) : Prop :=
  match utils.parsed l with
  | Ok cmd => parser.name cmd ≠ "select"
  | Raise _ => True
  end.

(** The documents on disk. *)
Definition documents (w : engine.world)
    : option (option (gmap string (list Column))) * gmap string (list row * Z) :=
  (utils.meta_file w, utils.data_files w).

(** The table map that the handlers read from the metadata document, and
    the table that a command names ([cmd.table or ""]). *)
Definition tables_of (w : engine.world) : gmap string (list Column) :=
  default ∅ (default None (utils.meta_file w)).

Definition table_of (cmd : parser.Command) : string :=
  default "" (parser.table cmd).

(** What a handler may have done to the documents of the table [t]:
    declared it with an empty table document, removed its declaration
    and its document, or written its rows. *)
Definition creates (t : string) (w w' : engine.world) : Prop :=
  tables_of w !! t = None
  ∧ ∃ user_cols,
      documents w'
      = (Some (Some (<[t := schema_of user_cols]> (tables_of w))),
         <[t := ([], utils.clock w)]> (utils.data_files w)).

Definition drops (t : string) (w w' : engine.world) : Prop :=
  is_Some (tables_of w !! t)
  ∧ documents w'
    = (Some (Some (delete t (tables_of w))), delete t (utils.data_files w)).

Definition stores (t : string) (w w' : engine.world) : Prop :=
  is_Some (tables_of w !! t)
  ∧ ∃ rows,
      documents w'
      = (utils.meta_file w, <[t := (rows, utils.clock w)]> (utils.data_files w)).

Definition effect (t : string) (w w' : engine.world) : Prop :=
  documents w' = documents w ∨ creates t w w' ∨ drops t w w' ∨ stores t w w'.

(** Every table document belongs to a declared table, and every declared
    table has a document. *)
Definition no_orphans (w : engine.world) : Prop :=
  dom (utils.data_files w) ⊆ dom (tables_of w).

Definition all_stored (w : engine.world) : Prop :=
  dom (tables_of w) ⊆ dom (utils.data_files w).

(** The key under which the select branch of [run] asks the cacher for
    the rows of a command, the objects that its [compute] passes to
    [select_records], and what it prints for the rows it gets. *)
Definition select_key `{PyBuiltins} (cmd : parser.Command) (w : engine.world)
    : string * string * Z :=
  (table_of cmd, str_of_clause (parser.where_clause cmd),
   default 0 (snd <$> utils.data_files w !! table_of cmd)).

Definition store_of (t : string) (w : engine.world) : core.store :=
  {| core.metadata := Some (tables_of w);
     core.table_data := default [] (fst <$> utils.data_files w !! t) |}.

Definition shown (columns : list string) (rows : list row) : output :=
  match rows with
  | [] => OutNoRecords
  | _ => OutTable columns (map (λ r : row, map (λ c, r !! c) columns) rows)
  end.

(** * Properties *)

(** ** Type coercion *)

Section CoercionFacts.
Context `{PyBuiltins}.

Lemma coerce_int_bool (b : bool) :
  core._coerce_value "int" (VBool b)
  = Raise (InvalidValue (PValue (VBool b)) ExpectedInt).
Proof. reflexivity. Qed.

Lemma coerce_int_other (raw : value) :
  (∀ b, raw ≠ VBool b) →
  core._coerce_value "int" raw
  = match py_int raw with
    | Some n => Ok (VInt n)
    | None => Raise (InvalidValue (PValue raw) ExpectedInt)
    end.
Proof. intros Hb. destruct raw as [n|s|b]; try reflexivity. by destruct (Hb b). Qed.

Lemma coerce_bool_str (s : string) :
  core._coerce_value "bool" (VStr s)
  = if bool_decide (lower (strip s) ∈ core.TRUTHY) then Ok (VBool true)
    else if bool_decide (lower (strip s) ∈ core.FALSY) then Ok (VBool false)
    else Raise (InvalidValue (PValue (VStr s)) ExpectedBool).
Proof. reflexivity. Qed.

Lemma coerce_unsupported (ty : string) (raw : value) :
  ty ∉ SUPPORTED_TYPES →
  core._coerce_value ty raw = Raise (InvalidValue (PText ty) UnsupportedType).
Proof.
  intros Hty. unfold core._coerce_value.
  by rewrite bool_decide_eq_false_2.
Qed.

End CoercionFacts.

(** C7 (amended): coercion to int fails with InvalidValue on every boolean
    and on every other input that [int] does not parse, and returns the
    parsed integer otherwise; coercion to bool returns a boolean
    unchanged, maps a string, after stripping surrounding whitespace and
    lower-casing, to true when it is a truthy token and to false when it
    is a falsy token (the sets hold the localized words), and fails with
    InvalidValue on every other input; coercion to str returns the
    textual form; an unsupported type name always fails. *)
Theorem coerce_value_spec `{PyBuiltins} :
  (∀ b, core._coerce_value "int" (VBool b)
        = Raise (InvalidValue (PValue (VBool b)) ExpectedInt))
  ∧ (∀ raw, (∀ b, raw ≠ VBool b) →
        core._coerce_value "int" raw
        = match py_int raw with
          | Some n => Ok (VInt n)
          | None => Raise (InvalidValue (PValue raw) ExpectedInt)
          end)
  ∧ (∀ b, core._coerce_value "bool" (VBool b) = Ok (VBool b))
  ∧ (∀ s, core._coerce_value "bool" (VStr s)
        = if bool_decide (lower (strip s) ∈ core.TRUTHY) then Ok (VBool true)
          else if bool_decide (lower (strip s) ∈ core.FALSY) then Ok (VBool false)
          else Raise (InvalidValue (PValue (VStr s)) ExpectedBool))
  ∧ (∀ n, core._coerce_value "bool" (VInt n)
        = Raise (InvalidValue (PValue (VInt n)) ExpectedBool))
  ∧ (∀ raw, core._coerce_value "str" raw = Ok (VStr (py_str raw)))
  ∧ (∀ ty raw, ty ∉ SUPPORTED_TYPES →
        core._coerce_value ty raw = Raise (InvalidValue (PText ty) UnsupportedType))
  ∧ "да" ∈ core.TRUTHY ∧ "нет" ∈ core.FALSY.
Proof.
  split_and!; try done.
  - apply coerce_int_other.
  - apply coerce_unsupported.
  - unfold core.TRUTHY. set_solver.
  - unfold core.FALSY. set_solver.
Qed.

(** ** Schemas *)

Section SchemaFacts.
Context `{PyBuiltins}.

Lemma split_once_app (sep : ascii) (s a b : string) :
  split_once sep s = Some (a, b) → s = a +:+ String sep b.
Proof.
  revert a. induction s as [|c s IH]; intros a; simpl; [done|].
  case_bool_decide as Hc.
  - intros [= <- <-]. by subst.
  - destruct (split_once sep s) as [[a' b']|]; [|done].
    intros [= <- <-]. by rewrite (IH a' eq_refl) at 1.
Qed.

Lemma parse_column_spec_ok (spec : string) (c : Column) :
  core._parse_column_spec spec = Ok c →
  spec = name c +:+ ":" +:+ type_name c
  ∧ isidentifier (name c) = true
  ∧ name c ≠ ID_COLUMN
  ∧ type_name c ∈ SUPPORTED_TYPES.
Proof.
  unfold core._parse_column_spec.
  destruct (split_once ":" spec) as [[n ty]|] eqn:Hsplit; [|done].
  destruct (isidentifier n) eqn:Hid; simpl; [|done].
  case_bool_decide as Hn; [done|].
  case_bool_decide as Hty; simpl; [|done].
  intros [= <-]. simpl. split_and!; try done.
  by apply split_once_app.
Qed.

Lemma comprehension_Forall2 {A B} (f : A → result B) (l : list A) (ys : list B) :
  comprehension f l = Ok ys → Forall2 (λ x y, f x = Ok y) l ys.
Proof.
  revert ys. induction l as [|x l IH]; intros ys; simpl.
  - intros [= <-]. constructor.
  - destruct (f x) as [y|e] eqn:Hx; simpl; [|done].
    destruct (comprehension f l) as [ys'|e]; simpl; [|done].
    intros [= <-]. constructor; [done|]. by apply IH.
Qed.

Lemma create_table_ok (t : string) (specs : list string) (σ σ' : core.store) :
  core.create_table t specs σ = (σ', Ok ()) →
  isidentifier t = true
  ∧ default ∅ (core.metadata σ) !! t = None
  ∧ ∃ user_cols,
      comprehension core._parse_column_spec specs = Ok user_cols
      ∧ σ' = {| core.metadata :=
                  Some (<[t := {| name := ID_COLUMN; type_name := "int" |} :: user_cols]>
                          (default ∅ (core.metadata σ)));
                core.table_data := core.table_data σ |}.
Proof.
  unfold core.create_table, mbind, ST_bind, core._normalize_meta. simpl.
  destruct (isidentifier t); simpl; [|done].
  case_bool_decide as Hin; simpl; [done|].
  unfold lift.
  destruct (comprehension _ specs) as [user_cols|e]; [|done].
  unfold core.set_tables. simpl. intros [= <-].
  split_and!; [done| |by eexists].
  by apply eq_None_not_Some.
Qed.

End SchemaFacts.

(** C2 (amended): the schema that create_table stores is the
    auto-prepended ID:int followed by one column per spec, in order; the
    table name and every spec column name is a valid identifier, every
    spec column name differs from the reserved ID name and has a
    supported type; the column names of the schema are pairwise distinct
    exactly when the names given in the specs are. *)
Theorem create_table_schema `{PyBuiltins} (t : string) (specs : list string)
    (σ σ' : core.store) :
  core.create_table t specs σ = (σ', Ok ()) →
  isidentifier t = true ∧
  ∃ user_cols,
    core.metadata σ'
    = Some (<[t := {| name := ID_COLUMN; type_name := "int" |} :: user_cols]>
              (default ∅ (core.metadata σ)))
    ∧ Forall2 (λ spec c, spec = name c +:+ ":" +:+ type_name c) specs user_cols
    ∧ Forall (λ c, isidentifier (name c) = true ∧ name c ≠ ID_COLUMN
                   ∧ type_name c ∈ SUPPORTED_TYPES) user_cols
    ∧ (NoDup (map name ({| name := ID_COLUMN; type_name := "int" |} :: user_cols))
       ↔ NoDup (map name user_cols)).
Proof.
  intros Hc. apply create_table_ok in Hc as (Hid & _ & user_cols & Hcols & ->).
  split; [done|]. exists user_cols.
  apply comprehension_Forall2 in Hcols.
  assert (Forall2 (λ spec c, spec = name c +:+ ":" +:+ type_name c
                    ∧ isidentifier (name c) = true ∧ name c ≠ ID_COLUMN
                    ∧ type_name c ∈ SUPPORTED_TYPES) specs user_cols) as Hall.
  { eapply Forall2_impl; [exact Hcols|]. intros spec c. apply parse_column_spec_ok. }
  assert (Forall (λ c, isidentifier (name c) = true ∧ name c ≠ ID_COLUMN
                   ∧ type_name c ∈ SUPPORTED_TYPES) user_cols) as Hcs.
  { clear -Hall. induction Hall as [|spec c specs cs (_ & Hc) _ IH]; by constructor. }
  split_and!; [done| |done|].
  - eapply Forall2_impl; [exact Hall|]. by intros spec c [Hspec _].
  - simpl. rewrite NoDup_cons. split; [by intros [_ Hnd]|]. intros Hnd. split; [|done].
    rewrite list_elem_of_fmap. intros (c & Hc & Hin).
    rewrite Forall_forall in Hcs. by destruct (Hcs c Hin) as (_ & Hne & _).
Qed.

(** ** Insertion and identifiers *)

Section InsertFacts.
Context `{PyBuiltins}.

Lemma schema_columns_known (tables : gmap string (list Column)) (t : string)
    (cols : list Column) (rows : list row) :
  tables !! t = Some cols →
  core._schema_columns t {| core.metadata := Some tables; core.table_data := rows |}
  = ({| core.metadata := Some tables; core.table_data := rows |}, Ok cols).
Proof.
  intros Ht. unfold core._schema_columns, mbind, ST_bind, core._normalize_meta.
  simpl. by rewrite Ht.
Qed.

Lemma schema_columns_unknown (t : string) (σ : core.store) :
  default ∅ (core.metadata σ) !! t = None →
  core._schema_columns t σ
  = ({| core.metadata := Some (default ∅ (core.metadata σ));
        core.table_data := core.table_data σ |}, Raise (KeyError t)).
Proof.
  intros Ht. unfold core._schema_columns, mbind, ST_bind, core._normalize_meta.
  simpl. by rewrite Ht.
Qed.

Lemma foldl_max_id_step (rows : list row) (m : Z) :
  0 ≤ m →
  foldl core.max_id_step m rows = Z.max m (max0 (stored_ids rows)).
Proof.
  revert m. induction rows as [|r rows IH]; intros m Hm; simpl.
  - unfold max0, stored_ids. simpl. lia.
  - unfold core.max_id_step at 2, max0, stored_ids. simpl.
    destruct (py_int (default (VInt 0) (r !! ID_COLUMN))) as [n|]; simpl;
      rewrite IH by lia; unfold max0, stored_ids; lia.
Qed.

Lemma max0_nonneg (l : list Z) : 0 ≤ max0 l.
Proof. induction l; unfold max0 in *; simpl; lia. Qed.

Lemma max0_ge (l : list Z) (i : Z) : i ∈ l → i ≤ max0 l.
Proof.
  induction l as [|x l IH]; [by intros ?%elem_of_nil|].
  intros [->|Hin]%elem_of_cons; unfold max0 in *; simpl; [lia|].
  specialize (IH Hin). lia.
Qed.

Lemma max0_snoc (l : list Z) (k : Z) : max0 (l ++ [k]) = Z.max (max0 l) k.
Proof.
  induction l as [|x l IH]; unfold max0 in *; simpl; [lia|]. rewrite IH. lia.
Qed.

Lemma stored_ids_snoc (rows : list row) (record : row) (k : Z) :
  stored_ids (rows ++ [<[ID_COLUMN := VInt k]> record]) = stored_ids rows ++ [k].
Proof.
  unfold stored_ids. rewrite omap_app. simpl. by rewrite lookup_insert_eq.
Qed.

Lemma insert_record_known (tables : gmap string (list Column)) (t : string)
    (cols : list Column) (values : list value) (rows : list row) (record : row) :
  tables !! t = Some cols →
  length values = length (core.user_columns cols) →
  core.insert_loop (core._schema_map cols)
    (zip (core.user_columns cols) values) ∅ = Ok record →
  core.insert_record t values
    {| core.metadata := Some tables; core.table_data := rows |}
  = ({| core.metadata := Some tables;
        core.table_data :=
          rows ++ [<[ID_COLUMN := VInt (1 + max0 (stored_ids rows))]> record] |},
     Ok (1 + max0 (stored_ids rows))).
Proof.
  intros Ht Hlen Hloop. unfold core.insert_record, mbind at 1, ST_bind.
  rewrite (schema_columns_known _ _ _ _ Ht).
  rewrite bool_decide_eq_true_2 by done. simpl.
  unfold mbind, ST_bind, lift. rewrite Hloop. simpl.
  rewrite foldl_max_id_step by done.
  pose proof (max0_nonneg (stored_ids rows)).
  replace (Z.max 0 (max0 (stored_ids rows)) + 1) with (1 + max0 (stored_ids rows)) by lia.
  done.
Qed.

Lemma successive_inserts_from (tables : gmap string (list Column)) (t : string)
    (cols : list Column) (vals : list (list value)) (rows : list row) :
  tables !! t = Some cols →
  Forall (accepted cols) vals →
  ∃ rows',
    successive_inserts t vals
      {| core.metadata := Some tables; core.table_data := rows |}
    = ({| core.metadata := Some tables; core.table_data := rows' |},
       Ok (seqZ (1 + max0 (stored_ids rows)) (Z.of_nat (length vals))))
    ∧ length rows' = (length rows + length vals)%nat.
Proof.
  intros Ht Hvals. revert rows.
  induction Hvals as [|values vals [Hlen [record Hrec]] _ IH]; intros rows.
  - exists rows. split; [done|]. simpl. lia.
  - simpl. unfold mbind at 1, ST_bind.
    rewrite (insert_record_known _ _ _ _ _ _ Ht Hlen Hrec).
    set (k := 1 + max0 (stored_ids rows)).
    destruct (IH (rows ++ [<[ID_COLUMN := VInt k]> record])) as (rows' & Heq & Hl).
    exists rows'. unfold mbind, ST_bind. rewrite Heq. simpl. split.
    + rewrite stored_ids_snoc, max0_snoc.
      pose proof (max0_nonneg (stored_ids rows)).
      replace (Z.max (max0 (stored_ids rows)) k) with k by lia.
      rewrite (seqZ_cons k) by (simpl; lia).
      unfold mret, ST_ret. do 4 f_equal; lia.
    + rewrite Hl, length_app. simpl. lia.
Qed.

End InsertFacts.

(** ** Selection and deletion *)

Section PredicateFacts.
Context `{PyBuiltins}.

Lemma delete_loop_filter (w_col : string) (w_val : value) (rows : list row) :
  core.delete_loop w_col w_val rows
  = (filter (λ r, ¬ get_eq r w_col w_val) rows,
     omap core.row_id (filter (λ r, get_eq r w_col w_val) rows)).
Proof.
  induction rows as [|r rows IH]; [done|].
  simpl. rewrite IH. destruct (get_eq r w_col w_val) eqn:Hr.
  - rewrite filter_cons_False, filter_cons_True by (rewrite Hr; auto).
    simpl. by destruct (core.row_id r).
  - rewrite filter_cons_True, filter_cons_False by (rewrite Hr; auto). done.
Qed.

Lemma select_records_all (tables : gmap string (list Column)) (t : string)
    (cols : list Column) (rows : list row) :
  tables !! t = Some cols →
  core.select_records t None
    {| core.metadata := Some tables; core.table_data := rows |}
  = ({| core.metadata := Some tables; core.table_data := rows |}, Ok rows).
Proof.
  intros Ht. unfold core.select_records, mbind, ST_bind.
  by rewrite (schema_columns_known _ _ _ _ Ht).
Qed.

Lemma select_records_where (tables : gmap string (list Column)) (t : string)
    (cols : list Column) (rows : list row) (col ty : string) (raw : value) :
  tables !! t = Some cols →
  core._schema_map cols !! col = Some ty →
  core.select_records t (Some [(col, raw)])
    {| core.metadata := Some tables; core.table_data := rows |}
  = ({| core.metadata := Some tables; core.table_data := rows |},
     val ← core._coerce_value ty raw;
     Ok (filter (λ r, get_eq r col val) rows)).
Proof.
  intros Ht Hcol. unfold core.select_records, mbind at 1, ST_bind.
  rewrite (schema_columns_known _ _ _ _ Ht).
  unfold mbind at 1, ST_bind. rewrite (schema_columns_known _ _ _ _ Ht).
  rewrite Hcol. unfold mbind, ST_bind, lift, result_bind.
  by destruct (core._coerce_value ty raw).
Qed.

Lemma delete_records_where (tables : gmap string (list Column)) (t : string)
    (cols : list Column) (rows : list row) (col ty answer : string) (raw : value) :
  tables !! t = Some cols →
  core._schema_map cols !! col = Some ty →
  core.delete_records answer t [(col, raw)]
    {| core.metadata := Some tables; core.table_data := rows |}
  = ({| core.metadata := Some tables; core.table_data := rows |},
     if decorators.confirmed answer then
       val ← core._coerce_value ty raw;
       Ok (Some (filter (λ r, ¬ get_eq r col val) rows,
                 omap core.row_id (filter (λ r, get_eq r col val) rows)))
     else Ok None).
Proof.
  intros Ht Hcol. unfold core.delete_records, decorators.confirm_action.
  destruct (decorators.confirmed answer); [|done].
  unfold core.delete_records_body, mbind at 1 2, ST_bind.
  rewrite (schema_columns_known _ _ _ _ Ht). rewrite Hcol.
  unfold mbind, ST_bind, lift, result_bind.
  destruct (core._coerce_value ty raw); [|done].
  simpl. by rewrite delete_loop_filter.
Qed.

End PredicateFacts.

(** C3 (amended): for a known table and a value list with one value per
    non-ID column, each coercible to its column's type, insert_record
    gives the new row the ID 1 + the maximum of 0 and the IDs of the
    existing rows that parse as integers (a row without ID counts as 0),
    appends the row and returns the rows with that ID; the new ID is
    larger than every parsable ID present; successive inserts into an
    empty table yield 1, 2, 3, ...; after deleting the row with ID 2 out
    of IDs 1..3 the next insert yields 4. *)
Theorem insert_record_ids `{PyBuiltins} (tables : gmap string (list Column))
    (t : string) (cols : list Column) :
  tables !! t = Some cols →
  (∀ values rows record,
     length values = length (core.user_columns cols) →
     core.insert_loop (core._schema_map cols)
       (zip (core.user_columns cols) values) ∅ = Ok record →
     core.insert_record t values
       {| core.metadata := Some tables; core.table_data := rows |}
     = ({| core.metadata := Some tables;
           core.table_data :=
             rows ++ [<[ID_COLUMN := VInt (1 + max0 (stored_ids rows))]> record] |},
        Ok (1 + max0 (stored_ids rows)))
     ∧ ∀ i, i ∈ stored_ids rows → i < 1 + max0 (stored_ids rows))
  ∧ (∀ vals, Forall (accepted cols) vals →
       ∃ rows',
         successive_inserts t vals
           {| core.metadata := Some tables; core.table_data := [] |}
         = ({| core.metadata := Some tables; core.table_data := rows' |},
            Ok (seqZ 1 (Z.of_nat (length vals)))))
  ∧ (∀ (r1 r2 r3 : row) answer values,
       r1 !! ID_COLUMN = Some (VInt 1) →
       r2 !! ID_COLUMN = Some (VInt 2) →
       r3 !! ID_COLUMN = Some (VInt 3) →
       core._schema_map cols !! ID_COLUMN = Some "int" →
       decorators.confirmed answer = true →
       accepted cols values →
       ∃ σ1 σ2,
         core.delete_records answer t [(ID_COLUMN, VInt 2)]
           {| core.metadata := Some tables; core.table_data := [r1; r2; r3] |}
         = (σ1, Ok (Some ([r1; r3], [2])))
         ∧ core.insert_record t values
             {| core.metadata := Some tables; core.table_data := [r1; r3] |}
           = (σ2, Ok 4)).
Proof.
  intros Ht. split_and!.
  - intros values rows record Hlen Hrec. split.
    + exact (insert_record_known tables t cols values rows record Ht Hlen Hrec).
    + intros i Hi. apply max0_ge in Hi. lia.
  - intros vals Hvals.
    destruct (successive_inserts_from tables t cols vals [] Ht Hvals)
      as (rows' & Heq & _).
    by exists rows'.
  - intros r1 r2 r3 answer values H1 H2 H3 Hid Hyes [Hlen [record Hrec]].
    eexists _, _. split.
    + rewrite (delete_records_where _ _ _ _ _ _ _ _ Ht Hid), Hyes.
      unfold mbind, result_bind. simpl. do 3 f_equal.
      rewrite <- delete_loop_filter. simpl. unfold core.row_id, get_eq.
      rewrite H1, H2, H3. reflexivity.
    + rewrite (insert_record_known _ _ _ _ _ _ Ht Hlen Hrec).
      unfold stored_ids. simpl. rewrite H1, H3. reflexivity.
Qed.

(** C4: for a known table, select_records with no predicate returns all
    rows in their original order; with one equality condition over a
    declared column it coerces the value to the column's declared type
    and returns exactly the rows whose value at that column equals the
    coerced value, in original order; so the text "1" matches the stored
    integer 1 on an int column and the text "yes" matches true on a bool
    column. *)
Theorem select_records_spec :
  (∀ (B : PyBuiltins) (tables : gmap string (list Column)) t cols rows,
     tables !! t = Some cols →
     core.select_records t None
       {| core.metadata := Some tables; core.table_data := rows |}
     = ({| core.metadata := Some tables; core.table_data := rows |}, Ok rows)
     ∧ ∀ col ty raw,
         core._schema_map cols !! col = Some ty →
         core.select_records t (Some [(col, raw)])
           {| core.metadata := Some tables; core.table_data := rows |}
         = ({| core.metadata := Some tables; core.table_data := rows |},
            val ← core._coerce_value ty raw;
            Ok (filter (λ r, get_eq r col val) rows)))
  ∧ (∀ (tables : gmap string (list Column)) t cols rows col,
       tables !! t = Some cols →
       core._schema_map cols !! col = Some "int" →
       ∃ found,
         @core.select_records ascii_builtins t (Some [(col, VStr "1")])
           {| core.metadata := Some tables; core.table_data := rows |}
         = ({| core.metadata := Some tables; core.table_data := rows |}, Ok found)
         ∧ ∀ r : row, r ∈ rows → r !! col = Some (VInt 1) → r ∈ found)
  ∧ (∀ (tables : gmap string (list Column)) t cols rows col,
       tables !! t = Some cols →
       core._schema_map cols !! col = Some "bool" →
       ∃ found,
         @core.select_records ascii_builtins t (Some [(col, VStr "yes")])
           {| core.metadata := Some tables; core.table_data := rows |}
         = ({| core.metadata := Some tables; core.table_data := rows |}, Ok found)
         ∧ ∀ r : row, r ∈ rows → r !! col = Some (VBool true) → r ∈ found).
Proof.
  split_and!.
  - intros B tables t cols rows Ht. split.
    + exact (select_records_all tables t cols rows Ht).
    + intros col ty raw Hcol.
      exact (select_records_where tables t cols rows col ty raw Ht Hcol).
  - intros tables t cols rows col Ht Hcol. eexists. split.
    + by rewrite (select_records_where _ _ _ _ _ _ _ Ht Hcol).
    + intros r Hr Hv. apply list_elem_of_filter. split; [|done].
      unfold get_eq. by rewrite Hv.
  - intros tables t cols rows col Ht Hcol. eexists. split.
    + by rewrite (select_records_where _ _ _ _ _ _ _ Ht Hcol).
    + intros r Hr Hv. apply list_elem_of_filter. split; [|done].
      unfold get_eq. by rewrite Hv.
Qed.

(** C5: for a known table and one equality condition over a declared
    column, delete_records (once confirmed) splits the rows by equality
    with the coerced value: it returns the rows that do not match,
    unchanged and in their original order, and the IDs of the rows that
    match, in row order, without the IDs that do not parse as integers. *)
Theorem delete_records_spec `{PyBuiltins} (tables : gmap string (list Column))
    (t : string) (cols : list Column) (rows : list row) (col ty answer : string)
    (raw : value) :
  tables !! t = Some cols →
  core._schema_map cols !! col = Some ty →
  core.delete_records answer t [(col, raw)]
    {| core.metadata := Some tables; core.table_data := rows |}
  = ({| core.metadata := Some tables; core.table_data := rows |},
     if decorators.confirmed answer then
       val ← core._coerce_value ty raw;
       Ok (Some (filter (λ r, ¬ get_eq r col val) rows,
                 omap core.row_id (filter (λ r, get_eq r col val) rows)))
     else Ok None).
Proof. apply delete_records_where. Qed.

(** ** Update *)

Section UpdateFacts.
Context `{PyBuiltins}.

Lemma dict_update_lookup_ne (r : row) (c : clause) (k : string) :
  k ∉ c.*1 → core.dict_update r c !! k = r !! k.
Proof.
  unfold core.dict_update. revert r. induction c as [|[k' v] c IH]; intros r Hk; [done|].
  simpl. rewrite IH.
  - apply lookup_insert_ne. intros ->. apply Hk, elem_of_cons. by left.
  - intros Hin. apply Hk, elem_of_cons. by right.
Qed.

Lemma row_id_dict_update (r : row) (c : clause) :
  ID_COLUMN ∉ c.*1 → core.row_id (core.dict_update r c) = core.row_id r.
Proof.
  intros Hid. unfold core.row_id.
  by rewrite (dict_update_lookup_ne r c ID_COLUMN Hid).
Qed.

Lemma coerce_set_keys (schema : gmap string string) (set_clause cs : clause) :
  core.coerce_set schema set_clause = Ok cs → cs.*1 = set_clause.*1.
Proof.
  revert cs. induction set_clause as [|[k v] rest IH]; intros cs; simpl.
  - by intros [= <-].
  - destruct (schema !! k) as [ty|]; [|done].
    destruct (core._coerce_value ty v) as [v'|]; simpl; [|done].
    destruct (core.coerce_set schema rest) as [rest'|]; simpl; [|done].
    intros [= <-]. simpl. f_equal. by apply IH.
Qed.

Lemma coerce_set_undeclared (schema : gmap string string)
    (pre post : clause) (k : string) (v : value) (cs : clause) :
  core.coerce_set schema pre = Ok cs →
  schema !! k = None →
  core.coerce_set schema (pre ++ (k, v) :: post) = Raise (KeyError k).
Proof.
  revert cs. induction pre as [|[k' v'] pre IH]; intros cs; simpl.
  - intros _ ->. done.
  - destruct (schema !! k') as [ty|]; [|done].
    destruct (core._coerce_value ty v') as [v''|]; simpl; [|done].
    destruct (core.coerce_set schema pre) as [pre'|] eqn:Hpre; simpl; [|done].
    intros _ Hk. by rewrite (IH pre' eq_refl Hk).
Qed.

Lemma omap_agree {A B} (f g : A → option B) (l : list A) :
  (∀ x, f x = g x) → omap f l = omap g l.
Proof.
  intros Hfg. induction l as [|x l IH]; [done|].
  change (omap f (x :: l))
    with (match f x with Some y => y :: omap f l | None => omap f l end).
  change (omap g (x :: l))
    with (match g x with Some y => y :: omap g l | None => omap g l end).
  by rewrite Hfg, IH.
Qed.

Lemma update_loop_map (w_col : string) (w_val : value) (cs : clause)
    (rows : list row) :
  core.update_loop w_col w_val cs rows
  = (map (λ r, if get_eq r w_col w_val then core.dict_update r cs else r) rows,
     omap (λ r, core.row_id (core.dict_update r cs))
       (filter (λ r, get_eq r w_col w_val) rows)).
Proof.
  induction rows as [|r rows IH]; [done|].
  simpl. rewrite IH. destruct (get_eq r w_col w_val) eqn:Hr.
  - rewrite filter_cons_True by (rewrite Hr; auto).
    simpl. by destruct (core.row_id _).
  - rewrite filter_cons_False by (rewrite Hr; auto). done.
Qed.

Lemma update_records_known (tables : gmap string (list Column)) (t : string)
    (cols : list Column) (rows : list row) (set_clause where_clause : clause) :
  tables !! t = Some cols →
  core.update_records t set_clause where_clause
    {| core.metadata := Some tables; core.table_data := rows |}
  = if bool_decide (set_clause = []) then
      ({| core.metadata := Some tables; core.table_data := rows |},
       Raise (InvalidValue (PClause set_clause) EmptySet))
    else if bool_decide (ID_COLUMN ∈ set_clause.*1) then
      ({| core.metadata := Some tables; core.table_data := rows |},
       Raise (InvalidValue (PText ID_COLUMN) CannotUpdateId))
    else
      match where_clause with
      | [(w_col, w_raw)] =>
          match core._schema_map cols !! w_col with
          | None =>
              ({| core.metadata := Some tables; core.table_data := rows |},
               Raise (KeyError w_col))
          | Some ty =>
              match core._coerce_value ty w_raw with
              | Raise e =>
                  ({| core.metadata := Some tables; core.table_data := rows |},
                   Raise e)
              | Ok w_val =>
                  match core.coerce_set (core._schema_map cols) set_clause with
                  | Raise e =>
                      ({| core.metadata := Some tables; core.table_data := rows |},
                       Raise e)
                  | Ok cs =>
                      ({| core.metadata := Some tables;
                          core.table_data :=
                            map (λ r, if get_eq r w_col w_val
                                      then core.dict_update r cs else r) rows |},
                       Ok (omap core.row_id
                             (filter (λ r, get_eq r w_col w_val) rows)))
                  end
              end
          end
      | _ =>
          ({| core.metadata := Some tables; core.table_data := rows |},
           Raise (InvalidValue (PClause where_clause) SingleCondition))
      end.
Proof.
  intros Ht. unfold core.update_records, mbind at 1, ST_bind.
  rewrite (schema_columns_known _ _ _ _ Ht).
  case_bool_decide as Hset; [done|].
  case_bool_decide as Hid; [done|].
  destruct where_clause as [|[w_col w_raw] [|]]; try done.
  destruct (core._schema_map cols !! w_col) as [ty|]; [|done].
  unfold mbind, ST_bind, lift.
  destruct (core._coerce_value ty w_raw) as [w_val|]; [|done].
  destruct (core.coerce_set _ set_clause) as [cs|] eqn:Hcs; [|done].
  simpl. rewrite update_loop_map. simpl. unfold mret, ST_ret. do 2 f_equal.
  apply omap_agree. intros r. apply row_id_dict_update.
  by rewrite (coerce_set_keys _ _ _ Hcs).
Qed.

End UpdateFacts.

(** C6 (amended): update_records on an unknown table fails with KeyError;
    on a known table it fails with InvalidValue whenever the set-clause is
    empty or contains the reserved ID column, whatever the rows and the
    where-clause; otherwise it fails with InvalidValue when the
    where-clause is not a single condition, with NotFound (KeyError) when
    the where column is undeclared, with the coercion error when the where
    value or a set value does not coerce, and with NotFound at the first
    set-clause entry that names an undeclared column when the where value
    and the entries before it coerce; when every column is declared and
    every value coerces it applies the coerced set-clause to every row
    matching the predicate and returns the IDs of those rows in row order,
    without the IDs that do not parse as integers. *)
Theorem update_records_spec `{PyBuiltins} (tables : gmap string (list Column))
    (t : string) (rows : list row) (set_clause where_clause : clause) :
  let σ := {| core.metadata := Some tables; core.table_data := rows |} in
  (tables !! t = None →
   core.update_records t set_clause where_clause σ = (σ, Raise (KeyError t)))
  ∧ ∀ cols, tables !! t = Some cols →
      (set_clause = [] ∨ ID_COLUMN ∈ set_clause.*1 →
       ∃ p r, core.update_records t set_clause where_clause σ
              = (σ, Raise (InvalidValue p r)))
      ∧ (set_clause ≠ [] → ID_COLUMN ∉ set_clause.*1 →
         (length where_clause ≠ 1%nat →
          core.update_records t set_clause where_clause σ
          = (σ, Raise (InvalidValue (PClause where_clause) SingleCondition)))
         ∧ ∀ w_col w_raw, where_clause = [(w_col, w_raw)] →
             (core._schema_map cols !! w_col = None →
              core.update_records t set_clause where_clause σ
              = (σ, Raise (KeyError w_col)))
             ∧ ∀ ty, core._schema_map cols !! w_col = Some ty →
                 (∀ e, core._coerce_value ty w_raw = Raise e →
                       core.update_records t set_clause where_clause σ
                       = (σ, Raise e))
                 ∧ ∀ w_val, core._coerce_value ty w_raw = Ok w_val →
                     (∀ e, core.coerce_set (core._schema_map cols) set_clause = Raise e →
                           core.update_records t set_clause where_clause σ
                           = (σ, Raise e))
                     ∧ (∀ pre k v post cs,
                          set_clause = pre ++ (k, v) :: post →
                          core.coerce_set (core._schema_map cols) pre = Ok cs →
                          core._schema_map cols !! k = None →
                          core.update_records t set_clause where_clause σ
                          = (σ, Raise (KeyError k)))
                     ∧ (∀ cs,
                          core.coerce_set (core._schema_map cols) set_clause = Ok cs →
                          core.update_records t set_clause where_clause σ
                          = ({| core.metadata := Some tables;
                                core.table_data :=
                                  map (λ r, if get_eq r w_col w_val
                                            then core.dict_update r cs else r) rows |},
                             Ok (omap core.row_id
                                   (filter (λ r, get_eq r w_col w_val) rows))))).
Proof.
  intros σ. split.
  - intros Ht. unfold core.update_records, mbind at 1, ST_bind.
    by rewrite (schema_columns_unknown t σ Ht).
  - intros cols Ht. subst σ.
    rewrite (update_records_known tables t cols rows set_clause where_clause Ht).
    split.
    + intros [->|Hid].
      * by eexists _, _.
      * case_bool_decide; [by eexists _, _|].
        rewrite bool_decide_eq_true_2 by done. by eexists _, _.
    + intros Hset Hid.
      rewrite (bool_decide_eq_false_2 _ Hset), (bool_decide_eq_false_2 _ Hid).
      split.
      * intros Hlen. by destruct where_clause as [|[w_col w_raw] [|]].
      * intros w_col w_raw ->. split; [by intros ->|].
        intros ty ->. split; [by intros e ->|].
        intros w_val ->. split_and!.
        -- by intros e ->.
        -- intros pre k v post cs -> Hpre Hk.
           by rewrite (coerce_set_undeclared _ pre post k v cs Hpre Hk).
        -- by intros cs ->.
Qed.

(** ** Failing calls *)

Section FailureFacts.
Context `{PyBuiltins}.

Lemma normalized_known (σ : core.store) :
  is_Some (core.metadata σ) → normalized σ = σ.
Proof. destruct σ as [[tables|] rows]; [done|]. by intros [? [=]]. Qed.

Lemma schema_columns_state (t : string) (σ σ' : core.store)
    (r : result (list Column)) :
  core._schema_columns t σ = (σ', r) → σ' = normalized σ.
Proof.
  unfold core._schema_columns, mbind, ST_bind, core._normalize_meta, raise. simpl.
  destruct (default ∅ (core.metadata σ) !! t); by intros [= <- _].
Qed.

Lemma insert_record_fail (t : string) (values : list value)
    (σ σ' : core.store) (e : exn) :
  core.insert_record t values σ = (σ', Raise e) → σ' = normalized σ.
Proof.
  unfold core.insert_record, mbind at 1, ST_bind.
  destruct (core._schema_columns t σ) as [σ1 [cols|e1]] eqn:Hcols;
    apply schema_columns_state in Hcols as ->; [|by intros [= <- _]].
  case_bool_decide; simpl; [|by intros [= <- _]].
  unfold mbind, ST_bind, lift.
  destruct (core.insert_loop _ _ _); simpl; [done|by intros [= <- _]].
Qed.

Lemma update_records_fail (t : string) (set_clause where_clause : clause)
    (σ σ' : core.store) (e : exn) :
  core.update_records t set_clause where_clause σ = (σ', Raise e) →
  σ' = normalized σ.
Proof.
  unfold core.update_records, mbind at 1, ST_bind.
  destruct (core._schema_columns t σ) as [σ1 [cols|e1]] eqn:Hcols;
    apply schema_columns_state in Hcols as ->; [|by intros [= <- _]].
  case_bool_decide; [by intros [= <- _]|].
  case_bool_decide; [by intros [= <- _]|].
  destruct where_clause as [|[w_col w_raw] [|]]; try by intros [= <- _].
  destruct (core._schema_map cols !! w_col) as [ty|]; [|by intros [= <- _]].
  unfold mbind, ST_bind, lift.
  destruct (core._coerce_value ty w_raw); [|by intros [= <- _]].
  destruct (core.coerce_set _ set_clause); [|by intros [= <- _]].
  simpl. by destruct (core.update_loop _ _ _ _).
Qed.

Lemma delete_records_fail (answer t : string) (where_clause : clause)
    (σ σ' : core.store) (e : exn) :
  core.delete_records answer t where_clause σ = (σ', Raise e) →
  σ' = normalized σ.
Proof.
  unfold core.delete_records, decorators.confirm_action.
  destruct (decorators.confirmed answer); [|done].
  unfold core.delete_records_body, mbind at 1 2, ST_bind.
  destruct (core._schema_columns t σ) as [σ1 [cols|e1]] eqn:Hcols;
    apply schema_columns_state in Hcols as ->; [|by intros [= <- _]].
  destruct where_clause as [|[w_col w_raw] [|]]; try by intros [= <- _].
  destruct (core._schema_map cols !! w_col) as [ty|]; [|by intros [= <- _]].
  unfold mbind, ST_bind, lift.
  by destruct (core._coerce_value ty w_raw); [|intros [= <- _]].
Qed.

Lemma create_table_fail (t : string) (specs : list string)
    (σ σ' : core.store) (e : exn) :
  core.create_table t specs σ = (σ', Raise e) → σ' = normalized σ.
Proof.
  unfold core.create_table, mbind, ST_bind, core._normalize_meta, raise, lift.
  simpl. destruct (isidentifier t); simpl; [|by intros [= <- _]].
  case_bool_decide; simpl; [by intros [= <- _]|].
  by destruct (comprehension _ specs); [|intros [= <- _]].
Qed.

Lemma drop_table_fail (answer t : string) (σ σ' : core.store) (e : exn) :
  core.drop_table answer t σ = (σ', Raise e) → σ' = normalized σ.
Proof.
  unfold core.drop_table, decorators.confirm_action.
  destruct (decorators.confirmed answer); [|done].
  unfold core.drop_table_body, mbind, ST_bind, core._normalize_meta, raise.
  simpl. case_bool_decide; simpl; [done|by intros [= <- _]].
Qed.

Lemma insert_record_arity (tables : gmap string (list Column)) (t : string)
    (cols : list Column) (values : list value) (rows : list row) :
  tables !! t = Some cols →
  length values ≠ length (core.user_columns cols) →
  core.insert_record t values
    {| core.metadata := Some tables; core.table_data := rows |}
  = ({| core.metadata := Some tables; core.table_data := rows |},
     Raise (InvalidValue (PValues values) WrongValueCount)).
Proof.
  intros Ht Hlen. unfold core.insert_record, mbind at 1, ST_bind.
  rewrite (schema_columns_known _ _ _ _ Ht).
  by rewrite bool_decide_eq_false_2.
Qed.

End FailureFacts.

(** C8 (amended): when insert_record, update_records, delete_records,
    create_table or drop_table raises, the row list it received is exactly
    as before the call and so is the table map of the metadata; the only
    change is that a metadata dictionary that had no "tables" entry has
    got an empty one, so metadata that has the entry is exactly as before.
    In particular insert_record with a value count different from the
    number of non-ID columns raises InvalidValue without appending a row,
    and an update_records that raises has mutated no row. *)
Theorem failing_call_keeps_state `{PyBuiltins} (σ σ' : core.store) (e : exn) :
  (∀ t values, core.insert_record t values σ = (σ', Raise e) → σ' = normalized σ)
  ∧ (∀ t set_clause where_clause,
       core.update_records t set_clause where_clause σ = (σ', Raise e) →
       σ' = normalized σ)
  ∧ (∀ answer t where_clause,
       core.delete_records answer t where_clause σ = (σ', Raise e) →
       σ' = normalized σ)
  ∧ (∀ t specs, core.create_table t specs σ = (σ', Raise e) → σ' = normalized σ)
  ∧ (∀ answer t, core.drop_table answer t σ = (σ', Raise e) → σ' = normalized σ)
  ∧ core.table_data (normalized σ) = core.table_data σ
  ∧ (is_Some (core.metadata σ) → normalized σ = σ)
  ∧ (∀ tables t cols values,
       core.metadata σ = Some tables →
       tables !! t = Some cols →
       length values ≠ length (core.user_columns cols) →
       core.insert_record t values σ
       = (σ, Raise (InvalidValue (PValues values) WrongValueCount))).
Proof.
  split_and!.
  - intros t values. apply insert_record_fail.
  - intros t set_clause where_clause. apply update_records_fail.
  - intros answer t where_clause. apply delete_records_fail.
  - intros t specs. apply create_table_fail.
  - intros answer t. apply drop_table_fail.
  - done.
  - apply normalized_known.
  - intros tables t cols values Hm Ht Hlen. destruct σ as [m rows].
    simpl in Hm. subst m. by apply insert_record_arity with cols.
Qed.

(** ** The select cache *)

Section CacheFacts.
Context `{Countable K} {S V : Type}.

Lemma cache_result_miss (key : K) (f : ST S V) (cache : gmap K V)
    (σ σ' : S) (v : V) :
  cache !! key = None →
  f σ = (σ', Ok v) →
  decorators.cache_result key f (cache, σ) = ((<[key := v]> cache, σ'), Ok v).
Proof. intros Hc Hf. unfold decorators.cache_result. by rewrite Hc, Hf. Qed.

Lemma cache_result_hit (key : K) (g : ST S V) (cache : gmap K V) (σ : S) (v : V) :
  cache !! key = Some v →
  decorators.cache_result key g (cache, σ) = ((cache, σ), Ok v).
Proof. intros Hc. unfold decorators.cache_result. by rewrite Hc. Qed.

Lemma cache_result_keeps (key key' : K) (f : ST S V) (st : gmap K V * S) (v : V) :
  st.1 !! key = Some v →
  (decorators.cache_result key' f st).1.1 !! key = Some v.
Proof.
  destruct st as [cache σ]. simpl. intros Hc. unfold decorators.cache_result.
  destruct (cache !! key') as [v'|] eqn:Hk'; [done|].
  destruct (f σ) as [σ' [value|e]]; simpl; [|done].
  rewrite lookup_insert_ne; [done|]. intros ->. by rewrite Hc in Hk'.
Qed.

Lemma cache_calls_keeps (key : K) (calls : list (K * ST S V))
    (st : gmap K V * S) (v : V) :
  st.1 !! key = Some v → (cache_calls calls st).1 !! key = Some v.
Proof.
  revert st. induction calls as [|[k f] calls IH]; intros st Hst; [done|].
  simpl. apply IH. by apply cache_result_keeps.
Qed.

End CacheFacts.

Section SelectTwice.
Context `{PyBuiltins}.
Import utils.

Lemma compute_world (cmd : parser.Command) (t : string) (w : engine.world) :
  (engine.compute cmd t w).1 = (count_select w).1.
Proof.
  unfold engine.compute, mbind, ST_bind, load_metadata, load_table_data. simpl.
  unfold engine.call. by destruct (core.select_records _ _ _) as [σ' [rows|e]].
Qed.

Lemma compute_result (cmd : parser.Command) (w : engine.world) :
  engine.compute cmd (table_of cmd) w
  = ((count_select w).1,
     (core.select_records (table_of cmd) (parser.where_clause cmd)
        (store_of (table_of cmd) w)).2).
Proof.
  unfold engine.compute, mbind, ST_bind, load_metadata, load_table_data. simpl.
  unfold engine.call, store_of, tables_of, engine._ensure_meta_shape.
  by destruct (core.select_records _ _ _) as [σ' [rows|e]].
Qed.

(** The select branch is the cacher, under the key of the command, and
    then the printing of the rows the cacher returned. *)
Lemma select_branch_cached (cmd : parser.Command) (c : engine.cache)
    (w : engine.world) :
  engine.select_branch cmd (c, w)
  = match decorators.cache_result (select_key cmd w)
            (engine.compute cmd (table_of cmd)) (c, w) with
    | ((c', w'), Ok rows) =>
        match engine._columns_for_table (Some (tables_of w')) (table_of cmd) with
        | Ok columns =>
            match rows with
            | [] => ((c', (print OutNoRecords w').1), Ok ())
            | _ :: _ =>
                if bool_decide (NoDup columns)
                then ((c', (print (shown columns rows) w').1), Ok ())
                else ((c', w'), Raise ValueError)
            end
        | Raise e => ((c', w'), Raise e)
        end
    | (st', Raise e) => (st', Raise e)
    end.
Proof.
  unfold engine.select_branch, select_key, table_of.
  unfold mbind at 1, ST_bind, engine.on_world at 1, getmtime.
  cbv beta iota zeta. unfold mbind at 1, ST_bind.
  destruct (decorators.cache_result _ _ _) as [[c' w'] [rows|e]]; [|done].
  unfold mbind at 1, ST_bind, engine.on_world at 1, load_metadata.
  cbv beta iota zeta. unfold mbind at 1, ST_bind, lift.
  change (engine._ensure_meta_shape (default None (meta_file w')))
    with (Some (tables_of w')).
  destruct (engine._columns_for_table _ _) as [columns|e]; [|done].
  destruct rows as [|r rows]; [done|].
  unfold mbind, ST_bind, lift, engine._make_table_view.
  by case_bool_decide.
Qed.

Lemma select_branch_miss (cmd : parser.Command) (c c1 : engine.cache)
    (w w1 : engine.world) :
  c !! select_key cmd w = None →
  engine.select_branch cmd (c, w) = ((c1, w1), Ok ()) →
  ∃ σ rows columns,
    core.select_records (table_of cmd) (parser.where_clause cmd)
      (store_of (table_of cmd) w) = (σ, Ok rows)
    ∧ c1 = <[select_key cmd w := rows]> c
    ∧ select_calls w1 = S (select_calls w)
    ∧ engine._columns_for_table (Some (tables_of w)) (table_of cmd) = Ok columns
    ∧ stdout w1 = stdout w ++ [shown columns rows].
Proof.
  intros Hmiss. rewrite select_branch_cached.
  unfold decorators.cache_result. rewrite Hmiss, compute_result.
  destruct (core.select_records _ _ _) as [σ [rows|e]]; cbn [fst snd]; [|done].
  change (tables_of (count_select w).1) with (tables_of w).
  destruct (engine._columns_for_table _ _) as [columns|e]; [|done].
  intros Hrun. exists σ, rows, columns.
  destruct rows as [|r rows]; [by injection Hrun as <- <-|].
  case_bool_decide; [|done]. by injection Hrun as <- <-.
Qed.

Lemma select_branch_hit (cmd : parser.Command) (c c1 : engine.cache)
    (w w1 : engine.world) (rows : list row) (r : result ()) :
  c !! select_key cmd w = Some rows →
  engine.select_branch cmd (c, w) = ((c1, w1), r) →
  c1 = c
  ∧ select_calls w1 = select_calls w
  ∧ (r = Ok () →
     ∃ columns,
       engine._columns_for_table (Some (tables_of w)) (table_of cmd) = Ok columns
       ∧ stdout w1 = stdout w ++ [shown columns rows]).
Proof.
  intros Hhit. rewrite select_branch_cached.
  unfold decorators.cache_result. rewrite Hhit.
  destruct (engine._columns_for_table _ _) as [columns|e];
    [|by intros [= <- <- <-]].
  destruct rows as [|r0 rows].
  - intros [= <- <- <-]. split_and!; [done..|]. intros _. by exists columns.
  - case_bool_decide; intros [= <- <- <-]; [|done].
    split_and!; [done..|]. intros _. by exists columns.
Qed.

Lemma select_branch_stored (cmd : parser.Command) (c c1 : engine.cache)
    (w w1 : engine.world) :
  engine.select_branch cmd (c, w) = ((c1, w1), Ok ()) →
  select_key cmd w1 = select_key cmd w
  ∧ tables_of w1 = tables_of w
  ∧ is_Some (c1 !! select_key cmd w)
  ∧ ∃ o, stdout w1 = stdout w ++ [o].
Proof.
  rewrite select_branch_cached. unfold decorators.cache_result.
  destruct (c !! select_key cmd w) as [rows|] eqn:Hkey.
  - destruct (engine._columns_for_table _ _) as [columns|e]; [|done].
    destruct rows as [|r rows]; [|case_bool_decide; [|done]];
      intros [= <- <-]; (split_and!; [done|done|by rewrite Hkey|by eexists]).
  - rewrite compute_result.
    destruct (core.select_records _ _ _) as [σ [rows|e]]; cbn [fst snd]; [|done].
    change (tables_of (count_select w).1) with (tables_of w).
    destruct (engine._columns_for_table _ _) as [columns|e]; [|done].
    destruct rows as [|r rows]; [|case_bool_decide; [|done]];
      intros [= <- <-];
      (split_and!; [done|done|by rewrite lookup_insert_eq|by eexists]).
Qed.

Lemma select_branch_again (cmd : parser.Command) (c c1 : engine.cache)
    (w w1 : engine.world) :
  engine.select_branch cmd (c, w) = ((c1, w1), Ok ()) →
  ∃ o, stdout w1 = stdout w ++ [o]
       ∧ engine.select_branch cmd (c1, w1) = ((c1, (print o w1).1), Ok ()).
Proof.
  intros Hrun.
  destruct (select_branch_stored _ _ _ _ _ Hrun)
    as (Hkey & Htables & [rows Hrows] & _).
  assert (∃ columns,
            engine._columns_for_table (Some (tables_of w)) (table_of cmd)
            = Ok columns
            ∧ stdout w1 = stdout w ++ [shown columns rows]
            ∧ (rows = [] ∨ NoDup columns)) as (columns & Hcols & Hout & Hshow).
  { revert Hrun Hrows. rewrite select_branch_cached.
    unfold decorators.cache_result.
    destruct (c !! select_key cmd w) as [rows0|] eqn:Hc.
    - destruct (engine._columns_for_table _ _) as [columns|e]; [|done].
      destruct rows0 as [|r rows0]; [|case_bool_decide; [|done]];
        intros [= <- <-]; rewrite Hc; intros [= <-]; exists columns; auto.
    - rewrite compute_result.
      destruct (core.select_records _ _ _) as [σ [rows0|e]]; cbn [fst snd]; [|done].
      change (tables_of (count_select w).1) with (tables_of w).
      destruct (engine._columns_for_table _ _) as [columns|e]; [|done].
      destruct rows0 as [|r rows0]; [|case_bool_decide; [|done]];
        intros [= <- <-]; rewrite lookup_insert_eq; intros [= <-];
        exists columns; auto. }
  exists (shown columns rows). split; [exact Hout|].
  rewrite select_branch_cached, Hkey. unfold decorators.cache_result.
  rewrite Hrows, Htables, Hcols.
  destruct rows as [|r rows]; [done|].
  destruct Hshow as [?|Hnodup]; [done|]. by rewrite bool_decide_eq_true_2.
Qed.

End SelectTwice.

(** C9: the first call of the cacher with a key invokes the compute
    function once and stores its result, and every later call with an
    equal key, whatever calls were made in between, returns the stored
    result without invoking its compute function (the state the function
    acts on is untouched).  The select branch of run asks the cacher
    under the key made of the table, the text of the predicate and the
    time stamp of the table document: a select that succeeds on a key
    that is not in the cache has called select_records once, on the
    documents of the table, has stored the rows it returned under the
    key and has shown them; a select on a key that is in the cache calls
    nothing, leaves the cache as it is and shows the stored rows; so
    after a select that succeeded the key is the same and is in the
    cache, and the identical select repeated right after it shows the
    same rows and computes nothing. *)
Theorem cache_result_memoizes :
  (∀ (K : Type) (EqK : EqDecision K) (CK : Countable K) (S V : Type)
     (key : K) (f : ST S V) (cache : gmap K V) (σ σ' : S) (v : V),
     cache !! key = None →
     f σ = (σ', Ok v) →
     decorators.cache_result key f (cache, σ) = ((<[key := v]> cache, σ'), Ok v)
     ∧ ∀ (calls : list (K * ST S V)) (g : ST S V),
         decorators.cache_result key g (cache_calls calls (<[key := v]> cache, σ'))
         = (cache_calls calls (<[key := v]> cache, σ'), Ok v))
  ∧ (∀ (B : PyBuiltins) (cmd : parser.Command) (c c1 : engine.cache)
       (w w1 : engine.world),
       (c !! select_key cmd w = None →
        engine.select_branch cmd (c, w) = ((c1, w1), Ok ()) →
        ∃ σ rows columns,
          core.select_records (table_of cmd) (parser.where_clause cmd)
            (store_of (table_of cmd) w) = (σ, Ok rows)
          ∧ c1 = <[select_key cmd w := rows]> c
          ∧ utils.select_calls w1 = S (utils.select_calls w)
          ∧ engine._columns_for_table (Some (tables_of w)) (table_of cmd)
            = Ok columns
          ∧ utils.stdout w1 = utils.stdout w ++ [shown columns rows])
       ∧ (∀ rows r,
            c !! select_key cmd w = Some rows →
            engine.select_branch cmd (c, w) = ((c1, w1), r) →
            c1 = c
            ∧ utils.select_calls w1 = utils.select_calls w
            ∧ (r = Ok () →
               ∃ columns,
                 engine._columns_for_table (Some (tables_of w)) (table_of cmd)
                 = Ok columns
                 ∧ utils.stdout w1 = utils.stdout w ++ [shown columns rows]))
       ∧ (engine.select_branch cmd (c, w) = ((c1, w1), Ok ()) →
          select_key cmd w1 = select_key cmd w
          ∧ is_Some (c1 !! select_key cmd w)
          ∧ ∃ o, utils.stdout w1 = utils.stdout w ++ [o]
                 ∧ engine.select_branch cmd (c1, w1)
                   = ((c1, (utils.print o w1).1), Ok ()))).
Proof.
  split.
  - intros K EqK CK S V key f cache σ σ' v Hmiss Hf. split.
    + by apply cache_result_miss.
    + intros calls g.
      destruct (cache_calls calls (<[key := v]> cache, σ')) as [cache' σ''] eqn:Hst.
      apply cache_result_hit.
      change cache' with (cache', σ'').1. rewrite <- Hst.
      apply cache_calls_keeps. apply lookup_insert_eq.
  - intros B cmd c c1 w w1. split_and!.
    + apply (select_branch_miss cmd c c1 w w1).
    + intros rows r. apply (select_branch_hit cmd c c1 w w1 rows r).
    + intros Hrun.
      destruct (select_branch_stored _ _ _ _ _ Hrun) as (Hkey & _ & Hin & _).
      split_and!; [exact Hkey|exact Hin|].
      exact (select_branch_again cmd c c1 w w1 Hrun).
Qed.

(** ** The token form of insert *)

Section InsertKvFacts.
Context `{PyBuiltins}.
Import utils.







Lemma insert_loop_dom (schema : gmap string string)
    (pairs : list (Column * value)) (record0 record : row) :
  core.insert_loop schema pairs record0 = Ok record →
  dom record = dom record0 ∪ list_to_set (map (λ p, name p.1) pairs).
Proof.
  revert record0. induction pairs as [|[col raw] pairs IH]; intros record0; simpl.
  - intros [= <-]. by rewrite (right_id_L ∅ (∪)).
  - destruct (schema !! name col) as [ty|]; [|done].
    destruct (core._coerce_value ty raw) as [v|]; simpl; [|done].
    intros Hrec. rewrite (IH _ Hrec), dom_insert_L.
    rewrite (comm_L (∪) {[name col]} (dom record0)). by rewrite (assoc_L (∪)).
Qed.




End InsertKvFacts.


(** ** The error boundary and the loop *)

Section BoundaryFacts.
Context `{PyBuiltins}.
Import utils.

(** A handler under [handle_db_errors] returns, whatever it raises. *)
Lemma handle_db_errors_returns {A} (func : ST engine.world A) (w : engine.world) :
  ∃ w' r, decorators.handle_db_errors func w = (w', Ok r).
Proof.
  unfold decorators.handle_db_errors.
  destruct (func w) as [w' [a|e]]; by eexists _, _.
Qed.

Lemma log_time_returns {A} (n : string) (func : ST engine.world A)
    (w : engine.world) :
  (∃ w' r, func w = (w', Ok r)) →
  ∃ w' r, decorators.log_time n func w = (w', Ok r).
Proof.
  intros (w' & r & Hf). unfold decorators.log_time, mbind, ST_bind.
  rewrite Hf. by eexists _, _.
Qed.

(** No handler puts lines back on the input. *)

Lemma keeps_bind {S A B} (size : S → nat) (m : ST S A) (k : A → ST S B) :
  keeps size m → (∀ a, keeps size (k a)) → keeps size (m ≫= k).
Proof.
  intros Hm Hk σ σ' r. unfold mbind, ST_bind.
  destruct (m σ) as [σ1 [a|e]] eqn:Hmσ.
  - intros Hka. specialize (Hm _ _ _ Hmσ). specialize (Hk a _ _ _ Hka). lia.
  - intros [= <- _]. exact (Hm _ _ _ Hmσ).
Qed.

Lemma keeps_pure {S A} (size : S → nat) (r : result A) :
  keeps size (λ σ, (σ, r)).
Proof. by intros σ σ' r' [= <- _]. Qed.

Lemma keeps_world {A} (m : ST engine.world A) :
  (∀ w, stdin (m w).1 = stdin w) → keeps lines_left m.
Proof.
  intros Hm w w' r Hw. unfold lines_left.
  specialize (Hm w). rewrite Hw in Hm. simpl in Hm. by rewrite Hm.
Qed.

Lemma keeps_read_line : keeps lines_left (read_line (Command := parser.Command)).
Proof.
  intros w w' r. unfold read_line, lines_left.
  destruct (stdin w) as [|l rest] eqn:Hin.
  - intros [= <- _]. by rewrite Hin.
  - intros [= <- _]. simpl. lia.
Qed.

Lemma keeps_call {A} (m : core.M A) (σ : core.store) :
  keeps lines_left (engine.call m σ).
Proof.
  intros w w' r. unfold engine.call.
  by destruct (m σ) as [σ' [a|e]]; intros [= <- _].
Qed.

Lemma keeps_handle_db_errors {A} (func : ST engine.world A) :
  keeps lines_left func → keeps lines_left (decorators.handle_db_errors func).
Proof.
  intros Hf w w' r. unfold decorators.handle_db_errors.
  destruct (func w) as [w1 [a|e]] eqn:Hw; intros [= <- _];
    exact (Hf _ _ _ Hw).
Qed.

Lemma keeps_on_world {A} (m : ST engine.world A) :
  keeps lines_left m → keeps lines_left_of (engine.on_world m).
Proof.
  intros Hm [c w] [c' w'] r. unfold engine.on_world, lines_left_of.
  destruct (m w) as [w1 r1] eqn:Hw. intros [= <- <- _]. exact (Hm _ _ _ Hw).
Qed.

Lemma keeps_cache_result (key : string * string * Z)
    (f : ST engine.world (list row)) :
  keeps lines_left f → keeps lines_left_of (decorators.cache_result key f).
Proof.
  intros Hf [c w] [c' w'] r. unfold decorators.cache_result, lines_left_of.
  destruct (c !! key) as [v|]; [by intros [= <- <- _]|].
  destruct (f w) as [w1 [v|e]] eqn:Hw; intros [= <- <- _]; exact (Hf _ _ _ Hw).
Qed.

Ltac keeps_step :=
  first
    [ assumption
    | progress unfold mret, ST_ret, lift, raise
    | apply keeps_bind; [|intros ?]
    | apply keeps_handle_db_errors
    | apply keeps_on_world
    | apply keeps_cache_result
    | apply keeps_call
    | apply keeps_read_line
    | apply keeps_pure
    | by apply keeps_world
    | case_match ].

Ltac keeps_all := repeat keeps_step.

Lemma keeps_print_tables (tables : list string) :
  keeps lines_left (engine.print_tables tables).
Proof. induction tables; simpl; keeps_all. Qed.

Lemma keeps_dispatch (cmd : parser.Command) :
  keeps lines_left_of (engine.dispatch cmd).
Proof.
  unfold engine.dispatch, engine.select_branch, engine.compute, engine.print_help,
    engine._handle_create_table, engine._handle_create_table_body,
    engine._handle_list_tables, engine._handle_list_tables_body,
    engine._handle_drop_table, engine._handle_drop_table_body,
    engine._handle_info, engine._handle_info_body,
    engine._handle_insert, engine._handle_insert_body,
    engine._handle_update, engine._handle_update_body,
    engine._handle_delete, engine._handle_delete_body,
    decorators.log_time, ask_string, lift, raise, mret, ST_ret.
  keeps_all; apply keeps_print_tables.
Qed.

Lemma turn_reads (st st' : engine.cache * engine.world) (n : engine.next) :
  engine.turn st = (st', Ok n) → (lines_left_of st' < lines_left_of st)%nat.
Proof.
  unfold engine.turn, mbind at 1, ST_bind. destruct st as [c w].
  unfold engine.on_world at 1, read_line.
  destruct (stdin w) as [|l rest] eqn:Hin; [done|].
  set (w1 := {| meta_file := meta_file w; data_files := data_files w;
                clock := clock w; stdin := rest; stdout := stdout w;
                select_calls := select_calls w |}).
  assert (lines_left_of (c, w) = S (lines_left_of (c, w1))) as ->.
  { unfold lines_left_of, lines_left. simpl. by rewrite Hin. }
  intros Hrest. apply Nat.lt_succ_r.
  assert (keeps lines_left_of
            match parsed l with
            | Ok cmd => engine.dispatch cmd
            | Raise _ =>
                if bool_decide (strip (text l) = "") then mret engine.Continue
                else engine.on_world
                       (print (OutNoFunction (first_word (strip (text l)))))
                     ≫= λ _, mret engine.Continue
            end) as Hkeeps.
  { destruct (parsed l); [apply keeps_dispatch|].
    unfold mret, ST_ret. keeps_all. }
  exact (Hkeeps _ _ _ Hrest).
Qed.

(** Fuel above the number of lines left is enough: more changes nothing. *)
Lemma loop_fuel (fuel fuel' : nat) (st : engine.cache * engine.world) :
  (lines_left_of st < fuel)%nat → (lines_left_of st < fuel')%nat →
  engine.loop fuel st = engine.loop fuel' st.
Proof.
  revert fuel' st. induction fuel as [|fuel IH]; intros [|fuel'] st Hf Hf';
    try lia.
  simpl. unfold mbind, ST_bind.
  destruct (engine.turn st) as [st' [[]|e]] eqn:Hturn; try done.
  apply turn_reads in Hturn. apply IH; lia.
Qed.

End BoundaryFacts.

(** ** Evaluations on ASCII text *)

Section Examples.
#[local] Existing Instance ascii_builtins.
Import examples.

Ltac by_compute := apply (bool_decide_unpack _); vm_compute; exact I.

(** [int()] skips blanks but none of the four separators, which
    [str.strip] removes. *)
Lemma int_of_str_separator :
  ascii_text.int_of_str (String "028" "5") = None
  ∧ ascii_text.strip (String "028" "5") = "5"
  ∧ ascii_text.int_of_str (String "009" " -1_0 ") = Some (-10).
Proof. split_and!; vm_compute; reflexivity. Qed.

(** A line that does not parse is reported by its first token, and a
    line of white space by nothing. *)
Lemma run_reports_first_token :
  utils.stdout
    (engine.run
       (session [{| utils.text := "  frobnicate the table ";
                    utils.parsed := Raise (InvalidValue (PText "frobnicate")
                                             UnknownVerb) |};
                 {| utils.text := "   ";
                    utils.parsed := Raise (InvalidValue (PText "") EmptyCommand) |};
                 typed "exit" exit_])).1
  = [OutHelp; OutNoFunction "frobnicate"].
Proof. vm_compute. reflexivity. Qed.

(** A table whose schema bears a column name twice can be created and
    filled, and a select that finds a row in it ends [run] with the
    ValueError of the table view: the line [exit] is never read. *)
Lemma run_select_repeated_name :
  (engine.run
     (session [typed "create_table t a:int a:str"
                 {| parser.name := "create_table"; parser.table := Some "t";
                    parser.columns := Some ["a:int"; "a:str"];
                    parser.values := None; parser.set_clause := None;
                    parser.where_clause := None |};
               typed "insert into t values (1, x)"
                 (insert_cmd "t" [VInt 1; VStr "x"]);
               typed "select from t" (command "select" "t");
               typed "exit" exit_])).2
  = Raise ValueError
  ∧ utils.stdin
      (engine.run
         (session [typed "create_table t a:int a:str"
                     {| parser.name := "create_table"; parser.table := Some "t";
                        parser.columns := Some ["a:int"; "a:str"];
                        parser.values := None; parser.set_clause := None;
                        parser.where_clause := None |};
                   typed "insert into t values (1, x)"
                     (insert_cmd "t" [VInt 1; VStr "x"]);
                   typed "select from t" (command "select" "t");
                   typed "exit" exit_])).1
    = [typed "exit" exit_].
Proof. split; vm_compute; reflexivity. Qed.

(** The same undeclared column in a delete goes through
    [handle_db_errors]: it is reported and the loop goes on to [exit]. *)
Lemma run_delete_error_reported :
  (engine.run delete_undeclared).2 = Ok ()
  ∧ utils.stdout (engine.run delete_undeclared).1
    = [OutHelp; OutCreated "t" "ID:int, a:int"; OutNotFound "nope";
       OutTiming "_handle_delete"].
Proof. split; vm_compute; reflexivity. Qed.

(** C1 (the code at the failing input): after [create_table t a:int], the
    line [select from t where nope = 1] makes [run] end with the KeyError
    of the undeclared column, and [select from t where a = abc] with the
    InvalidValue of the value that is no int: nothing is printed for the
    error and the line [exit] is never read. *)
Theorem run_select_error_escapes :
  (engine.run select_undeclared).2 = Raise (KeyError "nope")
  ∧ utils.stdin (engine.run select_undeclared).1 = [typed "exit" exit_]
  ∧ utils.stdout (engine.run select_undeclared).1
    = [OutHelp; OutCreated "t" "ID:int, a:int"]
  ∧ (engine.run select_uncoercible).2
    = Raise (InvalidValue (PValue (VStr "abc")) ExpectedInt)
  ∧ utils.stdin (engine.run select_uncoercible).1 = [typed "exit" exit_]
  ∧ utils.stdout (engine.run select_uncoercible).1
    = [OutHelp; OutCreated "t" "ID:int, a:int"].
Proof. split_and!; vm_compute; reflexivity. Qed.

(** C2 (the claim fails): create_table accepts two specs of the same
    name and stores both columns. *)
Lemma create_table_repeated_name :
  core.create_table "t" ["a:int"; "a:str"]
    {| core.metadata := None; core.table_data := [] |}
  = ({| core.metadata :=
          Some {["t" := [id_int; a_int; {| name := "a"; type_name := "str" |}]]};
        core.table_data := [] |}, Ok ())
  ∧ ¬ NoDup (map name [id_int; a_int; {| name := "a"; type_name := "str" |}]).
Proof. split; [vm_compute; reflexivity|by_compute]. Qed.

Lemma create_table_schema_witness :
  isidentifier "users" = true
  ∧ ∃ user_cols,
      Some ({["users" := [id_int; {| name := "name"; type_name := "str" |};
                          {| name := "age"; type_name := "int" |}]]}
              : gmap string (list Column))
      = Some (<["users" := id_int :: user_cols]> (default ∅ None))
      ∧ Forall2 (λ spec c, spec = name c +:+ ":" +:+ type_name c)
          ["name:str"; "age:int"] user_cols
      ∧ Forall (λ c, isidentifier (name c) = true ∧ name c ≠ ID_COLUMN
                     ∧ type_name c ∈ SUPPORTED_TYPES) user_cols
      ∧ (NoDup (map name (id_int :: user_cols)) ↔ NoDup (map name user_cols)).
Proof.
  apply (create_table_schema "users" ["name:str"; "age:int"]
           {| core.metadata := None; core.table_data := [] |}
           {| core.metadata :=
                Some {["users" := [id_int; {| name := "name"; type_name := "str" |};
                                   {| name := "age"; type_name := "int" |}]]};
              core.table_data := [] |}).
  vm_compute. reflexivity.
Defined.

(** C3 (the claim fails): a value list of the right length whose first
    value is no int is refused; with the only stored ID negative the new
    ID is 1, not 1 + that ID; and once the row with the largest ID, 3, is
    deleted, the next insert is given 3 again. *)
Lemma insert_reuses_largest_id :
  (core.insert_record "t" [VStr "abc"; VStr "no"] (store_t rows_t)).2
  = Raise (InvalidValue (PValue (VStr "abc")) ExpectedInt)
  ∧ (core.insert_record "t" [VInt 7; VStr "no"] (store_t [row_of (-5) 1 true])).2
    = Ok 1
  ∧ stored_ids [row_of (-5) 1 true] = [-5]
  ∧ stored_ids rows_t = [1; 2; 3]
  ∧ (core.delete_records "y" "t" [("ID", VInt 3)] (store_t rows_t)).2
    = Ok (Some ([row_of 1 10 true; row_of 2 20 false], [3]))
  ∧ (core.insert_record "t" [VInt 7; VStr "no"]
       (store_t [row_of 1 10 true; row_of 2 20 false])).2
    = Ok 3.
Proof. split_and!; vm_compute; reflexivity. Qed.

Lemma insert_record_ids_witness :
  tables_t !! "t" = Some [id_int; a_int; active_bool]
  ∧ core.insert_record "t" [VInt 7; VStr "no"] (store_t rows_t)
    = (store_t (rows_t ++ [row_of 4 7 false]), Ok 4).
Proof.
  assert (tables_t !! "t" = Some [id_int; a_int; active_bool]) as Ht
    by (vm_compute; reflexivity).
  split; [exact Ht|].
  destruct (insert_record_ids tables_t "t" _ Ht) as [Hinsert _].
  destruct (Hinsert [VInt 7; VStr "no"] rows_t
              (<["a" := VInt 7]> (<["active" := VBool false]> ∅))) as [Heq _].
  - reflexivity.
  - vm_compute. reflexivity.
  - etrans; [exact Heq|]. vm_compute. reflexivity.
Defined.

Lemma select_records_spec_witness :
  core.select_records "t" (Some [("a", VStr "10")]) (store_t rows_t)
  = (store_t rows_t, Ok [row_of 1 10 true; row_of 3 10 true]).
Proof.
  destruct select_records_spec as [Hgeneral _].
  destruct (Hgeneral ascii_builtins tables_t "t" [id_int; a_int; active_bool] rows_t)
    as [_ Hwhere]; [vm_compute; reflexivity|].
  etrans; [apply (Hwhere "a" "int" (VStr "10")); vm_compute; reflexivity|].
  vm_compute. reflexivity.
Defined.

Lemma delete_records_spec_witness :
  core.delete_records "Yes" "t" [("active", VStr "no")] (store_t rows_t)
  = (store_t rows_t, Ok (Some ([row_of 1 10 true; row_of 3 10 true], [2]))).
Proof.
  etrans.
  - apply (delete_records_spec tables_t "t" [id_int; a_int; active_bool] rows_t
             "active" "bool" "Yes" (VStr "no")); vm_compute; reflexivity.
  - vm_compute. reflexivity.
Defined.

(** C6 (the claim fails): on an unknown table an empty set-clause gives
    KeyError, not InvalidValue; and a set-clause that names the undeclared
    column zzz gives InvalidValue, not NotFound, when the where value, or
    a set value met before zzz, does not coerce. *)
Lemma update_error_precedence :
  (core.update_records "t" [] [("a", VInt 1)]
     {| core.metadata := None; core.table_data := [] |}).2
  = Raise (KeyError "t")
  ∧ core._schema_map [id_int; a_int; active_bool] !! "zzz" = None
  ∧ (core.update_records "t" [("zzz", VInt 1)] [("a", VStr "abc")]
       (store_t rows_t)).2
    = Raise (InvalidValue (PValue (VStr "abc")) ExpectedInt)
  ∧ (core.update_records "t" [("a", VStr "abc"); ("zzz", VInt 1)]
       [("a", VInt 10)] (store_t rows_t)).2
    = Raise (InvalidValue (PValue (VStr "abc")) ExpectedInt).
Proof. split_and!; vm_compute; reflexivity. Qed.

Lemma update_records_spec_witness :
  core.update_records "t" [("a", VStr "5")] [("active", VStr "yes")] (store_t rows_t)
  = (store_t [row_of 1 5 true; row_of 2 20 false; row_of 3 5 true], Ok [1; 3]).
Proof.
  destruct (update_records_spec tables_t "t" rows_t
              [("a", VStr "5")] [("active", VStr "yes")]) as [_ Hknown].
  destruct (Hknown [id_int; a_int; active_bool]) as [_ Hvalid];
    [vm_compute; reflexivity|].
  destruct Hvalid as [_ Hwhere]; [done|by_compute|].
  destruct (Hwhere "active" (VStr "yes") eq_refl) as [_ Hdeclared].
  destruct (Hdeclared "bool") as [_ Hcoerced]; [vm_compute; reflexivity|].
  destruct (Hcoerced (VBool true)) as (_ & _ & Hok); [vm_compute; reflexivity|].
  etrans; [apply (Hok [("a", VInt 5)]); vm_compute; reflexivity|].
  vm_compute. reflexivity.
Defined.

(** C7 (the claim fails): " yes " is in neither token set, even
    lower-cased, and coercion to bool maps it to true. *)
Lemma coerce_bool_padded_token :
  (lower " yes " ∉ core.TRUTHY)
  ∧ (lower " yes " ∉ core.FALSY)
  ∧ core._coerce_value "bool" (VStr " yes ") = Ok (VBool true).
Proof. split_and!; [by_compute|by_compute|vm_compute; reflexivity]. Qed.

Lemma coerce_value_spec_witness :
  core._coerce_value "int" (VStr "42") = Ok (VInt 42)
  ∧ core._coerce_value "float" (VInt 1)
    = Raise (InvalidValue (PText "float") UnsupportedType).
Proof.
  destruct (@coerce_value_spec ascii_builtins)
    as (_ & Hint & _ & _ & _ & _ & Hunsupported & _).
  split.
  - etrans; [apply (Hint (VStr "42")); discriminate|]. vm_compute. reflexivity.
  - apply (Hunsupported "float" (VInt 1)). by_compute.
Defined.

(** C8 (the claim fails): create_table raises on a bad table name and
    leaves a "tables" entry in a metadata dictionary that had none. *)
Lemma failing_create_adds_tables :
  core.create_table "1bad" [] {| core.metadata := None; core.table_data := [] |}
  = ({| core.metadata := Some ∅; core.table_data := [] |},
     Raise (InvalidValue (PText "1bad") BadTableName))
  ∧ {| core.metadata := Some ∅; core.table_data := [] |}
    ≠ {| core.metadata := None; core.table_data := [] |}.
Proof. split; [vm_compute; reflexivity|discriminate]. Qed.

Lemma failing_call_keeps_state_witness :
  core.insert_record "t" [VInt 1] (store_t rows_t)
  = (store_t rows_t, Raise (InvalidValue (PValues [VInt 1]) WrongValueCount))
  ∧ store_t rows_t = normalized (store_t rows_t).
Proof.
  assert (core.insert_record "t" [VInt 1] (store_t rows_t)
          = (store_t rows_t, Raise (InvalidValue (PValues [VInt 1]) WrongValueCount)))
    as Hraise by (vm_compute; reflexivity).
  split; [exact Hraise|].
  destruct (failing_call_keeps_state (store_t rows_t) (store_t rows_t)
              (InvalidValue (PValues [VInt 1]) WrongValueCount)) as [Hinsert _].
  exact (Hinsert "t" [VInt 1] Hraise).
Defined.

(** A compute function that counts its calls in the state; and the
    select [where a = 10] on the table [t], first with an empty cache. *)
Lemma cache_result_memoizes_witness :
  (decorators.cache_result "k" (λ n : nat, (S n, Ok 42)) ((∅ : gmap string Z), O)
   = (({["k" := 42]}, 1%nat), Ok 42)
   ∧ decorators.cache_result "k" (λ n : nat, (S n, Ok 42))
       (cache_calls [("j", λ n : nat, (S n, Ok 7))] (({["k" := 42]} : gmap string Z), 1%nat))
     = (cache_calls [("j", λ n : nat, (S n, Ok 7))] (({["k" := 42]} : gmap string Z), 1%nat),
        Ok 42))
  ∧ (∅ : engine.cache) !! select_key (where_ "select" "t" "a" (VInt 10)) world_t
    = None
  ∧ (engine.select_branch (where_ "select" "t" "a" (VInt 10)) (∅, world_t)).2
    = Ok ()
  ∧ (∃ σ rows columns,
       core.select_records "t" (Some [("a", VInt 10)]) (store_of "t" world_t)
       = (σ, Ok rows)
       ∧ (engine.select_branch (where_ "select" "t" "a" (VInt 10))
            (∅, world_t)).1.1
         = <[select_key (where_ "select" "t" "a" (VInt 10)) world_t := rows]> ∅
       ∧ utils.select_calls
           (engine.select_branch (where_ "select" "t" "a" (VInt 10))
              (∅, world_t)).1.2
         = 1%nat
       ∧ engine._columns_for_table (Some (tables_of world_t)) "t" = Ok columns
       ∧ utils.stdout
           (engine.select_branch (where_ "select" "t" "a" (VInt 10))
              (∅, world_t)).1.2
         = [shown columns rows])
  ∧ (∃ o,
       utils.stdout
         (engine.select_branch (where_ "select" "t" "a" (VInt 10))
            (∅, world_t)).1.2
       = [o]
       ∧ engine.select_branch (where_ "select" "t" "a" (VInt 10))
           (engine.select_branch (where_ "select" "t" "a" (VInt 10))
              (∅, world_t)).1
         = (((engine.select_branch (where_ "select" "t" "a" (VInt 10))
                (∅, world_t)).1.1,
             (utils.print o
                (engine.select_branch (where_ "select" "t" "a" (VInt 10))
                   (∅, world_t)).1.2).1),
            Ok ())).
Proof.
  destruct cache_result_memoizes as [Hcache Hselect].
  split.
  { destruct (Hcache string _ _ nat Z "k" (λ n : nat, (S n, Ok 42)) ∅ O 1%nat 42)
      as [Hfirst Hlater]; [reflexivity|reflexivity|].
    split; [exact Hfirst|].
    exact (Hlater [("j", λ n : nat, (S n, Ok 7))] (λ n : nat, (S n, Ok 42))). }
  set (cmd := where_ "select" "t" "a" (VInt 10)).
  assert ((∅ : engine.cache) !! select_key cmd world_t = None) as Hmiss
    by apply lookup_empty.
  assert ((engine.select_branch cmd (∅, world_t)).2 = Ok ()) as Hok
    by (vm_compute; reflexivity).
  assert (engine.select_branch cmd (∅, world_t)
          = (((engine.select_branch cmd (∅, world_t)).1.1,
              (engine.select_branch cmd (∅, world_t)).1.2), Ok ())) as Hrun.
  { rewrite <- Hok. by destruct (engine.select_branch cmd (∅, world_t)) as [[??]?]. }
  destruct (Hselect ascii_builtins cmd ∅
              (engine.select_branch cmd (∅, world_t)).1.1 world_t
              (engine.select_branch cmd (∅, world_t)).1.2)
    as (Hfirst & _ & Hagain).
  split_and!; [exact Hmiss|exact Hok| |].
  - exact (Hfirst Hmiss Hrun).
  - destruct (Hagain Hrun) as (_ & _ & o & Hout & Hrepeat).
    exists o. split; [exact Hout|].
    by destruct (engine.select_branch cmd (∅, world_t)) as [[??]?].
Defined.



End Examples.

(** * Further properties *)

(** ** Column specifications and table lifecycle *)

Section LifecycleFacts.
Context `{PyBuiltins}.

Lemma has_char_cons (sep c : ascii) (s : string) :
  ascii_text.has_char sep (String c s) = false ↔
  c ≠ sep ∧ ascii_text.has_char sep s = false.
Proof.
  unfold ascii_text.has_char. simpl.
  rewrite !negb_false_iff, andb_true_iff, negb_true_iff, bool_decide_eq_false.
  done.
Qed.

Lemma split_once_prefix (sep : ascii) (s a b : string) :
  split_once sep s = Some (a, b) → ascii_text.has_char sep a = false.
Proof.
  revert a. induction s as [|c s IH]; intros a; simpl; [done|].
  case_bool_decide as Hc.
  - by intros [= <- <-].
  - destruct (split_once sep s) as [[a' b']|]; [|done].
    intros [= <- <-]. apply has_char_cons. split; [done|]. by apply IH.
Qed.

Lemma split_once_join (sep : ascii) (a b : string) :
  ascii_text.has_char sep a = false →
  split_once sep (a +:+ String sep b) = Some (a, b).
Proof.
  induction a as [|c a IH]; intros Ha.
  - change (split_once sep (String sep b) = Some (EmptyString, b)).
    simpl. by rewrite bool_decide_eq_true_2.
  - apply has_char_cons in Ha as [Hc Ha].
    change (split_once sep (String c (a +:+ String sep b)) = Some (String c a, b)).
    simpl. rewrite bool_decide_eq_false_2 by done. by rewrite (IH Ha).
Qed.

Lemma comprehension_ok_iff {A B} (f : A → result B) (l : list A) :
  (∃ ys, comprehension f l = Ok ys) ↔ Forall (λ x, ∃ y, f x = Ok y) l.
Proof.
  induction l as [|x l IH]; simpl.
  - split; [constructor|by exists []].
  - rewrite Forall_cons, <- IH. split.
    + intros [ys Hys]. destruct (f x) as [y|]; simpl in Hys; [|done].
      destruct (comprehension f l) as [ys'|]; simpl in Hys; [|done].
      split; by eexists.
    + intros [[y ->] [ys ->]]. simpl. by eexists.
Qed.

Lemma comprehension_first_error {A B} (f : A → result B) (pre post : list A)
    (x : A) (e : exn) :
  Forall (λ x, ∃ y, f x = Ok y) pre →
  f x = Raise e →
  comprehension f (pre ++ x :: post) = Raise e.
Proof.
  intros Hpre Hx. induction Hpre as [|x' pre [y Hy] _ IH]; simpl.
  - by rewrite Hx.
  - by rewrite Hy, IH.
Qed.

Lemma schema_map_snoc (cols : list Column) (c : Column) :
  core._schema_map (cols ++ [c])
  = <[name c := type_name c]> (core._schema_map cols).
Proof. unfold core._schema_map. by rewrite foldl_app. Qed.

Lemma table_info_known (tables : gmap string (list Column)) (t : string)
    (cols : list Column) (rows : list row) :
  tables !! t = Some cols →
  core.table_info t {| core.metadata := Some tables; core.table_data := rows |}
  = ({| core.metadata := Some tables; core.table_data := rows |},
     Ok {| core.info_table := t;
           core.info_columns :=
             String.concat ", " (map (λ c, name c +:+ ":" +:+ type_name c) cols);
           core.info_count := length rows |}).
Proof.
  intros Ht. unfold core.table_info, mbind at 1, ST_bind.
  by rewrite (schema_columns_known _ _ _ _ Ht).
Qed.

End LifecycleFacts.

(** X1: a column specification parses to a column exactly when it is the
    column's name, a colon and its type, with a name that is an
    identifier without a colon and other than ID, and a supported type:
    writing a column as name:type and parsing it gives the column back. *)
Theorem column_spec_round_trip `{PyBuiltins} (spec : string) (c : Column) :
  core._parse_column_spec spec = Ok c ↔
  spec = name c +:+ ":" +:+ type_name c
  ∧ ascii_text.has_char ":" (name c) = false
  ∧ isidentifier (name c) = true
  ∧ name c ≠ ID_COLUMN
  ∧ type_name c ∈ SUPPORTED_TYPES.
Proof.
  split.
  - intros Hc. destruct (parse_column_spec_ok spec c Hc) as (Hspec & Hid & Hne & Hty).
    split_and!; try done.
    unfold core._parse_column_spec in Hc.
    destruct (split_once ":" spec) as [[n ty]|] eqn:Hsplit; [|done].
    apply split_once_prefix in Hsplit.
    destruct (isidentifier n); simpl in Hc; [|done].
    case_bool_decide; [done|]. case_bool_decide; simpl in Hc; [|done].
    by injection Hc as <-.
  - intros (-> & Hcolon & Hid & Hne & Hty).
    unfold core._parse_column_spec.
    change (":" +:+ type_name c) with (String ":" (type_name c)).
    rewrite (split_once_join _ _ _ Hcolon).
    rewrite Hid. simpl. rewrite bool_decide_eq_false_2 by done.
    rewrite bool_decide_eq_true_2 by done. simpl. by destruct c.
Qed.

(** X2: create_table checks the table name first, then that the table
    does not exist, then the specs from left to right: a name that is no
    identifier gives InvalidValue, an existing table gives the
    already-exists error whatever the specs are and keeps its schema,
    the first spec that does not parse gives its error; in each case the
    table map is as it was.  It succeeds exactly when none of these
    applies. *)
Theorem create_table_outcome `{PyBuiltins} (tables : gmap string (list Column))
    (t : string) (specs : list string) (rows : list row) :
  let σ := {| core.metadata := Some tables; core.table_data := rows |} in
  (isidentifier t = false →
   core.create_table t specs σ = (σ, Raise (InvalidValue (PText t) BadTableName)))
  ∧ (isidentifier t = true → is_Some (tables !! t) →
     core.create_table t specs σ = (σ, Raise (DBError (TableExists t))))
  ∧ (isidentifier t = true → tables !! t = None →
     ∀ pre spec post e,
       specs = pre ++ spec :: post →
       Forall (λ s, ∃ c, core._parse_column_spec s = Ok c) pre →
       core._parse_column_spec spec = Raise e →
       core.create_table t specs σ = (σ, Raise e))
  ∧ ((∃ σ', core.create_table t specs σ = (σ', Ok ())) ↔
     isidentifier t = true ∧ tables !! t = None
     ∧ Forall (λ s, ∃ c, core._parse_column_spec s = Ok c) specs).
Proof.
  intros σ. subst σ.
  unfold core.create_table, mbind, ST_bind, core._normalize_meta, raise, lift,
    core.set_tables. simpl.
  split_and!.
  - by intros ->.
  - intros -> Hin. simpl. by rewrite bool_decide_eq_true_2.
  - intros -> Hnone pre spec post e -> Hpre Hspec. simpl.
    rewrite bool_decide_eq_false_2 by (rewrite Hnone; by intros [? [=]]).
    by rewrite (comprehension_first_error _ pre post spec e Hpre Hspec).
  - rewrite <- comprehension_ok_iff. split.
    + intros [σ' Hσ']. destruct (isidentifier t); simpl in Hσ'; [|done].
      case_bool_decide as Hin; simpl in Hσ'; [done|].
      destruct (comprehension _ specs) as [ys|]; [|done].
      split_and!; [done| |by eexists]. by apply eq_None_not_Some.
    + intros (-> & Hnone & [ys ->]). simpl.
      rewrite bool_decide_eq_false_2 by (rewrite Hnone; by intros [? [=]]).
      by eexists.
Qed.

(** X3: once confirmed, drop_table removes the table and nothing else:
    the other tables keep their schemas and the rows are untouched; on a
    table that does not exist it raises the does-not-exist error; when
    the answer is not affirmative it does nothing and returns None, and
    that also holds for a table that does not exist. *)
Theorem drop_table_outcome `{PyBuiltins} (tables : gmap string (list Column))
    (answer t : string) (rows : list row) :
  let σ := {| core.metadata := Some tables; core.table_data := rows |} in
  (decorators.confirmed answer = false → core.drop_table answer t σ = (σ, Ok None))
  ∧ (decorators.confirmed answer = true → tables !! t = None →
     core.drop_table answer t σ = (σ, Raise (DBError (TableMissing t))))
  ∧ (decorators.confirmed answer = true → is_Some (tables !! t) →
     ∃ tables',
       core.drop_table answer t σ
       = ({| core.metadata := Some tables'; core.table_data := rows |}, Ok (Some ()))
       ∧ tables' !! t = None
       ∧ ∀ t', t' ≠ t → tables' !! t' = tables !! t').
Proof.
  intros σ. subst σ. unfold core.drop_table, decorators.confirm_action.
  split_and!.
  - by intros ->.
  - intros -> Hnone.
    unfold core.drop_table_body, mbind, ST_bind, core._normalize_meta, raise. simpl.
    by rewrite bool_decide_eq_false_2 by (rewrite Hnone; by intros [? [=]]).
  - intros -> Hin. exists (delete t tables).
    unfold core.drop_table_body, mbind, ST_bind, core._normalize_meta,
      core.set_tables. simpl.
    rewrite bool_decide_eq_true_2 by done. simpl. split_and!; [done| |].
    + apply lookup_delete_eq.
    + intros t' Hne. by apply lookup_delete_ne.
Qed.

(** X4: creating a table and then dropping it, confirmed, gives back the
    table map there was before. *)
Theorem create_then_drop `{PyBuiltins} (answer t : string) (specs : list string)
    (σ σ1 : core.store) :
  core.create_table t specs σ = (σ1, Ok ()) →
  decorators.confirmed answer = true →
  core.drop_table answer t σ1 = (normalized σ, Ok (Some ())).
Proof.
  intros Hcreate Hyes.
  apply create_table_ok in Hcreate as (_ & Hnone & user_cols & _ & ->).
  unfold core.drop_table, decorators.confirm_action. rewrite Hyes.
  unfold core.drop_table_body, mbind, ST_bind, core._normalize_meta,
    core.set_tables, normalized. simpl.
  rewrite bool_decide_eq_true_2 by (rewrite lookup_insert_eq; by eexists).
  simpl. by rewrite delete_insert_id.
Qed.

(** X5: in the name-to-type map of a schema a name has the type of the
    last column that bears it; so when the names are pairwise distinct
    every column is found with its own type, and a name that no column
    bears is not found. *)
Theorem schema_map_last `{PyBuiltins} (cols : list Column) (n : string) :
  core._schema_map cols !! n
  = type_name <$> last (filter (λ c, name c = n) cols).
Proof.
  induction cols as [|c cols IH] using rev_ind; [done|].
  rewrite schema_map_snoc, filter_app, lookup_insert.
  rewrite filter_cons, filter_nil. case_decide as Hn.
  - by rewrite last_snoc.
  - by rewrite (right_id_L [] (++)).
Qed.

(** X6: the table that create_table has made is described by table_info
    with the column summary ID:int followed by the specs as they were
    given, joined by a comma and a space, and with the number of rows. *)
Theorem create_table_info `{PyBuiltins} (t : string) (specs : list string)
    (σ σ1 : core.store) :
  core.create_table t specs σ = (σ1, Ok ()) →
  core.table_info t σ1
  = (σ1, Ok {| core.info_table := t;
               core.info_columns := String.concat ", " ("ID:int" :: specs);
               core.info_count := length (core.table_data σ) |}).
Proof.
  intros Hcreate.
  apply create_table_ok in Hcreate as (_ & _ & user_cols & Hcols & ->).
  rewrite (table_info_known _ t (schema_of user_cols)) by apply lookup_insert_eq.
  do 3 f_equal. simpl.
  assert (map (λ c, name c +:+ ":" +:+ type_name c) user_cols = specs) as ->; [|done].
  apply comprehension_Forall2 in Hcols.
  induction Hcols as [|spec c specs cs Hspec _ IH]; [done|].
  simpl. rewrite IH. f_equal. by destruct (parse_column_spec_ok _ _ Hspec) as [-> _].
Qed.

(** ** Rows, types and identifiers *)

Section RowFacts.
Context `{PyBuiltins}.

Lemma coerce_typed (ty : string) (raw v : value) :
  core._coerce_value ty raw = Ok v →
  type_of v = ty ∧ core._coerce_value ty v = Ok v.
Proof.
  unfold core._coerce_value.
  case_bool_decide as Hty; simpl; [|done].
  case_bool_decide as Hstr; [subst ty; by intros [= <-]|].
  case_bool_decide as Hint.
  { subst ty. destruct raw as [n|s|b]; simpl; [by intros [= <-]| |done].
    destruct (int_of_str s); by intros [= <-]. }
  case_bool_decide as Hbool; [|done].
  subst ty. destruct raw as [n|s|b]; [done| |by intros [= <-]].
  repeat case_bool_decide; by intros [= <-].
Qed.

Lemma schema_map_dom (cols : list Column) :
  dom (core._schema_map cols) = list_to_set (name <$> cols).
Proof.
  induction cols as [|c cols IH] using rev_ind.
  - unfold core._schema_map. simpl. by rewrite dom_empty_L.
  - rewrite schema_map_snoc, dom_insert_L, IH, fmap_app, list_to_set_app_L.
    simpl. rewrite (right_id_L ∅ (∪)). by rewrite (comm_L (∪)).
Qed.

Lemma user_columns_names (cols : list Column) :
  (list_to_set (name <$> cols) : gset string)
  ∖ {[ID_COLUMN]} = list_to_set (name <$> core.user_columns cols).
Proof.
  unfold core.user_columns. apply set_eq. intros k.
  rewrite elem_of_difference, !elem_of_list_to_set, !list_elem_of_fmap,
    elem_of_singleton.
  setoid_rewrite list_elem_of_filter. split.
  - intros [(c & -> & Hc) Hk]. by exists c.
  - intros (c & -> & Hk & Hc). split; [by exists c|done].
Qed.

Lemma insert_loop_typed (schema : gmap string string)
    (pairs : list (Column * value)) (record0 record : row) :
  core.insert_loop schema pairs record0 = Ok record →
  (∀ k v, record0 !! k = Some v → schema !! k = Some (type_of v)) →
  ∀ k v, record !! k = Some v → schema !! k = Some (type_of v).
Proof.
  revert record0. induction pairs as [|[col raw] pairs IH]; intros record0; simpl.
  - by intros [= <-].
  - destruct (schema !! name col) as [ty|] eqn:Hty; [|done].
    destruct (core._coerce_value ty raw) as [v'|] eqn:Hv'; simpl; [|done].
    intros Hrec H0. apply (IH _ Hrec). intros k v.
    rewrite lookup_insert. case_decide as Hk.
    + intros [= <-]. subst k. by destruct (coerce_typed _ _ _ Hv') as [-> _].
    + apply H0.
Qed.

Lemma coerce_set_typed (schema : gmap string string) (set_clause cs : clause) :
  core.coerce_set schema set_clause = Ok cs →
  Forall (λ kv, schema !! kv.1 = Some (type_of kv.2)) cs.
Proof.
  revert cs. induction set_clause as [|[k v] rest IH]; intros cs; simpl.
  - intros [= <-]. constructor.
  - destruct (schema !! k) as [ty|] eqn:Hty; [|done].
    destruct (core._coerce_value ty v) as [v'|] eqn:Hv'; simpl; [|done].
    destruct (core.coerce_set schema rest) as [rest'|]; simpl; [|done].
    intros [= <-]. constructor; [|by apply IH].
    simpl. by destruct (coerce_typed _ _ _ Hv') as [-> _].
Qed.

Lemma dict_update_conforms (cols : list Column) (r : row) (cs : clause) :
  Forall (λ kv, core._schema_map cols !! kv.1 = Some (type_of kv.2)) cs →
  conforms cols r → conforms cols (core.dict_update r cs).
Proof.
  unfold core.dict_update. intros Hcs. revert r.
  induction Hcs as [|[k v] cs Hkv _ IH]; intros r Hr; [done|].
  simpl. apply IH. destruct Hr as [Hdom Hty]. split.
  - rewrite dom_insert_L, Hdom. apply (anti_symm (⊆)).
    + apply union_least; [|done]. apply singleton_subseteq_l, elem_of_dom.
      simpl in Hkv. by rewrite Hkv.
    + apply union_subseteq_r.
  - intros k' v'. rewrite lookup_insert. case_decide as Hk.
    + intros [= <-]. by subst k'.
    + apply Hty.
Qed.

(** What a call that returns says about its arguments. *)

Lemma insert_record_inv (tables : gmap string (list Column)) (t : string)
    (cols : list Column) (values : list value) (rows : list row)
    (σ' : core.store) (i : Z) :
  tables !! t = Some cols →
  core.insert_record t values
    {| core.metadata := Some tables; core.table_data := rows |} = (σ', Ok i) →
  ∃ record,
    length values = length (core.user_columns cols)
    ∧ core.insert_loop (core._schema_map cols)
        (zip (core.user_columns cols) values) ∅ = Ok record
    ∧ i = 1 + max0 (stored_ids rows)
    ∧ σ' = {| core.metadata := Some tables;
              core.table_data := rows ++ [<[ID_COLUMN := VInt i]> record] |}.
Proof.
  intros Ht.
  destruct (decide (length values = length (core.user_columns cols))) as [Hlen|Hlen].
  - destruct (core.insert_loop (core._schema_map cols)
                (zip (core.user_columns cols) values) ∅) as [record|e] eqn:Hrec.
    + rewrite (insert_record_known _ _ _ _ _ _ Ht Hlen Hrec).
      intros [= <- <-]. by exists record.
    + unfold core.insert_record, mbind at 1, ST_bind.
      rewrite (schema_columns_known _ _ _ _ Ht).
      rewrite bool_decide_eq_true_2 by done. simpl.
      unfold mbind, ST_bind, lift. by rewrite Hrec.
  - by rewrite (insert_record_arity _ _ _ _ _ Ht Hlen).
Qed.

Lemma update_records_inv (tables : gmap string (list Column)) (t : string)
    (cols : list Column) (rows : list row) (set_clause where_clause : clause)
    (σ' : core.store) (ids : list Z) :
  tables !! t = Some cols →
  core.update_records t set_clause where_clause
    {| core.metadata := Some tables; core.table_data := rows |} = (σ', Ok ids) →
  ∃ w_col w_raw ty w_val cs,
    where_clause = [(w_col, w_raw)]
    ∧ set_clause ≠ [] ∧ (ID_COLUMN ∉ set_clause.*1)
    ∧ core._schema_map cols !! w_col = Some ty
    ∧ core._coerce_value ty w_raw = Ok w_val
    ∧ core.coerce_set (core._schema_map cols) set_clause = Ok cs
    ∧ ids = omap core.row_id (filter (λ r, get_eq r w_col w_val) rows)
    ∧ σ' = {| core.metadata := Some tables;
              core.table_data :=
                map (λ r, if get_eq r w_col w_val
                          then core.dict_update r cs else r) rows |}.
Proof.
  intros Ht. rewrite (update_records_known _ _ _ _ _ _ Ht).
  case_bool_decide as Hset; [done|]. case_bool_decide as Hid; [done|].
  destruct where_clause as [|[w_col w_raw] [|]]; try done.
  destruct (core._schema_map cols !! w_col) as [ty|] eqn:Hty; [|done].
  destruct (core._coerce_value ty w_raw) as [w_val|] eqn:Hval; [|done].
  destruct (core.coerce_set _ set_clause) as [cs|] eqn:Hcs; [|done].
  intros [= <- <-]. by exists w_col, w_raw, ty, w_val, cs.
Qed.

Lemma delete_records_inv (tables : gmap string (list Column)) (answer t : string)
    (cols : list Column) (rows kept : list row) (where_clause : clause)
    (σ' : core.store) (ids : list Z) :
  tables !! t = Some cols →
  core.delete_records answer t where_clause
    {| core.metadata := Some tables; core.table_data := rows |}
  = (σ', Ok (Some (kept, ids))) →
  ∃ w_col w_raw ty w_val,
    where_clause = [(w_col, w_raw)]
    ∧ decorators.confirmed answer = true
    ∧ core._schema_map cols !! w_col = Some ty
    ∧ core._coerce_value ty w_raw = Ok w_val
    ∧ kept = filter (λ r, ¬ get_eq r w_col w_val) rows
    ∧ ids = omap core.row_id (filter (λ r, get_eq r w_col w_val) rows)
    ∧ σ' = {| core.metadata := Some tables; core.table_data := rows |}.
Proof.
  intros Ht.
  destruct where_clause as [|[w_col w_raw] [|]].
  1, 3: unfold core.delete_records, decorators.confirm_action;
        destruct (decorators.confirmed answer); [|done];
        unfold core.delete_records_body, mbind, ST_bind;
        by rewrite (schema_columns_known _ _ _ _ Ht).
  destruct (core._schema_map cols !! w_col) as [ty|] eqn:Hty.
  - rewrite (delete_records_where _ _ _ _ _ _ _ _ Ht Hty).
    destruct (decorators.confirmed answer); [|done].
    destruct (core._coerce_value ty w_raw) as [w_val|] eqn:Hval; [|done].
    intros [= <- <- <-]. by exists w_col, w_raw, ty, w_val.
  - unfold core.delete_records, decorators.confirm_action.
    destruct (decorators.confirmed answer); [|done].
    unfold core.delete_records_body, mbind, ST_bind.
    by rewrite (schema_columns_known _ _ _ _ Ht), Hty.
Qed.

Lemma select_records_inv (tables : gmap string (list Column)) (t : string)
    (cols : list Column) (rows found : list row) (where_clause : option clause)
    (σ' : core.store) :
  tables !! t = Some cols →
  core.select_records t where_clause
    {| core.metadata := Some tables; core.table_data := rows |} = (σ', Ok found) →
  σ' = {| core.metadata := Some tables; core.table_data := rows |}
  ∧ (found = rows
     ∨ ∃ col raw ty val,
         where_clause = Some [(col, raw)]
         ∧ core._schema_map cols !! col = Some ty
         ∧ core._coerce_value ty raw = Ok val
         ∧ found = filter (λ r, get_eq r col val) rows).
Proof.
  intros Ht. destruct where_clause as [[|[col raw] [|]]|].
  - unfold core.select_records, mbind, ST_bind.
    rewrite (schema_columns_known _ _ _ _ Ht). intros [= <- <-]. auto.
  - destruct (core._schema_map cols !! col) as [ty|] eqn:Hty.
    + rewrite (select_records_where _ _ _ _ _ _ _ Ht Hty).
      unfold mbind, result_bind.
      destruct (core._coerce_value ty raw) as [val|] eqn:Hval; [|done].
      intros [= <- <-]. split; [done|]. right. by exists col, raw, ty, val.
    + unfold core.select_records, mbind at 1, ST_bind.
      rewrite (schema_columns_known _ _ _ _ Ht).
      unfold mbind at 1, ST_bind. rewrite (schema_columns_known _ _ _ _ Ht).
      by rewrite Hty.
  - unfold core.select_records, mbind at 1, ST_bind.
    rewrite (schema_columns_known _ _ _ _ Ht).
    unfold mbind at 1, ST_bind. by rewrite (schema_columns_known _ _ _ _ Ht).
  - rewrite (select_records_all _ _ _ _ Ht). intros [= <- <-]. auto.
Qed.

Lemma stored_ids_update (w_col : string) (w_val : value) (cs : clause)
    (rows : list row) :
  ID_COLUMN ∉ cs.*1 →
  stored_ids (map (λ r, if get_eq r w_col w_val
                        then core.dict_update r cs else r) rows)
  = stored_ids rows.
Proof.
  intros Hid. unfold stored_ids. induction rows as [|r rows IH]; [done|].
  rewrite map_cons.
  change (omap ?f (?x :: ?l))
    with (match f x with Some y => y :: omap f l | None => omap f l end).
  rewrite IH. destruct (get_eq r w_col w_val); [|done].
  by rewrite (dict_update_lookup_ne r cs ID_COLUMN Hid).
Qed.

Lemma omap_sublist {A B} (f : A → option B) (l1 l2 : list A) :
  l1 `sublist_of` l2 → omap f l1 `sublist_of` omap f l2.
Proof.
  induction 1 as [|x l1 l2 _ IH|x l1 l2 _ IH]; [done| |].
  - change (omap f (x :: l1))
      with (match f x with Some y => y :: omap f l1 | None => omap f l1 end).
    change (omap f (x :: l2))
      with (match f x with Some y => y :: omap f l2 | None => omap f l2 end).
    destruct (f x); [by constructor|done].
  - change (omap f (x :: l2))
      with (match f x with Some y => y :: omap f l2 | None => omap f l2 end).
    destruct (f x); [by constructor|done].
Qed.

Lemma stored_ids_filter (P : row → Prop) `{∀ r, Decision (P r)} (rows : list row) :
  stored_ids (filter P rows) `sublist_of` stored_ids rows.
Proof. apply omap_sublist, sublist_filter. Qed.

End RowFacts.

(** X7: a value that coercion returns has the type it was coerced to,
    and coercing it again to that type gives the same value. *)
Theorem coerce_value_typed `{PyBuiltins} (ty : string) (raw v : value) :
  core._coerce_value ty raw = Ok v →
  type_of v = ty ∧ core._coerce_value ty v = Ok v.
Proof. apply coerce_typed. Qed.

(** X8: on a known table whose schema gives ID the type int, rows whose
    keys are the column names and whose values have the declared types
    stay so: insert_record appends such a row, update_records turns such
    rows into such rows, and the rows that delete_records keeps and
    select_records returns are such rows. *)
Theorem rows_stay_conforming `{PyBuiltins} (tables : gmap string (list Column))
    (t : string) (cols : list Column) (rows : list row) :
  tables !! t = Some cols →
  Forall (conforms cols) rows →
  let σ := {| core.metadata := Some tables; core.table_data := rows |} in
  (core._schema_map cols !! ID_COLUMN = Some "int" →
   ∀ values σ' i,
     core.insert_record t values σ = (σ', Ok i) →
     Forall (conforms cols) (core.table_data σ'))
  ∧ (∀ set_clause where_clause σ' ids,
       core.update_records t set_clause where_clause σ = (σ', Ok ids) →
       Forall (conforms cols) (core.table_data σ'))
  ∧ (∀ answer where_clause σ' kept ids,
       core.delete_records answer t where_clause σ = (σ', Ok (Some (kept, ids))) →
       Forall (conforms cols) kept)
  ∧ (∀ where_clause σ' found,
       core.select_records t where_clause σ = (σ', Ok found) →
       Forall (conforms cols) found).
Proof.
  intros Ht Hrows σ. subst σ. split_and!.
  - intros Hid values σ' i Hins.
    apply (insert_record_inv _ _ _ _ _ _ _ Ht) in Hins
      as (record & Hlen & Hrec & _ & ->).
    simpl. apply Forall_app. split; [done|]. constructor; [|constructor].
    split.
    + rewrite dom_insert_L, (insert_loop_dom _ _ _ _ Hrec), dom_empty_L.
      rewrite (left_id_L ∅ (∪)), schema_map_dom.
      assert (map (λ p : Column * value, name p.1) (zip (core.user_columns cols) values)
              = name <$> core.user_columns cols) as ->.
      { rewrite <- (fst_zip (core.user_columns cols) values) at 2 by lia.
        by rewrite <- list_fmap_compose. }
      rewrite <- user_columns_names.
      assert (ID_COLUMN ∈ (list_to_set (name <$> cols) : gset string)) as Hin.
      { rewrite <- schema_map_dom. apply elem_of_dom. by rewrite Hid. }
      apply set_eq. intros k. rewrite elem_of_union, elem_of_difference,
        elem_of_singleton.
      destruct (decide (k = ID_COLUMN)) as [->|]; naive_solver.
    + intros k v. rewrite lookup_insert. case_decide as Hk.
      * intros [= <-]. by subst k.
      * apply (insert_loop_typed _ _ _ _ Hrec). by intros k' v' ?%lookup_empty_Some.
  - intros set_clause where_clause σ' ids Hupd.
    apply (update_records_inv _ _ _ _ _ _ _ _ Ht) in Hupd
      as (w_col & w_raw & ty & w_val & cs & _ & _ & _ & _ & _ & Hcs & _ & ->).
    simpl. apply Forall_fmap. eapply Forall_impl; [exact Hrows|].
    intros r Hr. simpl. destruct (get_eq r w_col w_val); [|done].
    apply dict_update_conforms; [|done]. by apply coerce_set_typed with set_clause.
  - intros answer where_clause σ' kept ids Hdel.
    apply (delete_records_inv _ _ _ _ _ _ _ _ _ Ht) in Hdel
      as (w_col & w_raw & ty & w_val & _ & _ & _ & _ & -> & _ & _).
    apply Forall_forall. intros r [_ Hr]%list_elem_of_filter.
    by apply (proj1 (Forall_forall _ _) Hrows).
  - intros where_clause σ' found Hsel.
    apply (select_records_inv _ _ _ _ _ _ _ Ht) in Hsel
      as [_ [->|(col & raw & ty & val & _ & _ & _ & ->)]]; [done|].
    apply Forall_forall. intros r [_ Hr]%list_elem_of_filter.
    by apply (proj1 (Forall_forall _ _) Hrows).
Qed.

(** X9: pairwise distinct IDs stay pairwise distinct: after insert_record
    the IDs are the old ones and a new one; update_records changes the ID
    of no row, nor the number of rows; the rows that delete_records keeps
    are rows of the table in their order, hence with distinct IDs. *)
Theorem ids_stay_distinct `{PyBuiltins} (tables : gmap string (list Column))
    (t : string) (cols : list Column) (rows : list row) :
  tables !! t = Some cols →
  let σ := {| core.metadata := Some tables; core.table_data := rows |} in
  (∀ values σ' i,
     core.insert_record t values σ = (σ', Ok i) →
     stored_ids (core.table_data σ') = stored_ids rows ++ [i]
     ∧ (i ∉ stored_ids rows)
     ∧ (NoDup (stored_ids rows) → NoDup (stored_ids (core.table_data σ'))))
  ∧ (∀ set_clause where_clause σ' ids,
       core.update_records t set_clause where_clause σ = (σ', Ok ids) →
       stored_ids (core.table_data σ') = stored_ids rows
       ∧ length (core.table_data σ') = length rows)
  ∧ (∀ answer where_clause σ' kept ids,
       core.delete_records answer t where_clause σ = (σ', Ok (Some (kept, ids))) →
       kept `sublist_of` rows
       ∧ (NoDup (stored_ids rows) → NoDup (stored_ids kept))).
Proof.
  intros Ht σ. subst σ. split_and!.
  - intros values σ' i Hins.
    apply (insert_record_inv _ _ _ _ _ _ _ Ht) in Hins
      as (record & _ & _ & Hi & ->).
    simpl. rewrite stored_ids_snoc.
    assert (i ∉ stored_ids rows) as Hnew.
    { intros Hin%max0_ge. lia. }
    split_and!; [done|done|]. intros Hnd. apply NoDup_app. split_and!; [done| |].
    + intros x Hx ->%list_elem_of_singleton. done.
    + apply NoDup_singleton.
  - intros set_clause where_clause σ' ids Hupd.
    apply (update_records_inv _ _ _ _ _ _ _ _ Ht) in Hupd
      as (w_col & w_raw & ty & w_val & cs & _ & _ & Hid & _ & _ & Hcs & _ & ->).
    simpl. split; [|by rewrite length_map].
    apply stored_ids_update. by rewrite (coerce_set_keys _ _ _ Hcs).
  - intros answer where_clause σ' kept ids Hdel.
    apply (delete_records_inv _ _ _ _ _ _ _ _ _ Ht) in Hdel
      as (w_col & w_raw & ty & w_val & _ & _ & _ & _ & -> & _ & _).
    split; [apply sublist_filter|].
    intros Hnd. eapply sublist_NoDup; [exact Hnd|]. apply stored_ids_filter.
Qed.

(** ** How the operations compose *)

Section CompositionFacts.
Context `{PyBuiltins}.

Lemma py_eq_refl (v : value) : py_eq v v = true.
Proof. destruct v; simpl; by rewrite bool_decide_eq_true_2. Qed.

Lemma get_eq_stored_id (r : row) (i : Z) :
  get_eq r ID_COLUMN (VInt i) = true → i ∈ stored_ids [r].
Proof.
  unfold get_eq, stored_ids. simpl.
  destruct (r !! ID_COLUMN) as [[n|s|b]|]; simpl; try done.
  - intros ->%bool_decide_eq_true. apply list_elem_of_here.
  - intros <-%bool_decide_eq_true. apply list_elem_of_here.
Qed.

Lemma stored_ids_elem (rows : list row) (r : row) (i : Z) :
  r ∈ rows → i ∈ stored_ids [r] → i ∈ stored_ids rows.
Proof.
  unfold stored_ids. intros Hr. rewrite !list_elem_of_omap.
  intros (r' & ->%list_elem_of_singleton & Hi). by exists r.
Qed.

Lemma filter_none {A} (P : A → Prop) `{∀ x, Decision (P x)} (l : list A) :
  (∀ x, x ∈ l → ¬ P x) → filter P l = [].
Proof.
  induction l as [|x l IH]; intros Hl; [done|].
  rewrite filter_cons_False by (apply Hl, list_elem_of_here).
  apply IH. intros y Hy. apply Hl. by apply list_elem_of_further.
Qed.

Lemma filter_all {A} (P : A → Prop) `{∀ x, Decision (P x)} (l : list A) :
  (∀ x, x ∈ l → P x) → filter P l = l.
Proof.
  induction l as [|x l IH]; intros Hl; [done|].
  rewrite filter_cons_True by (apply Hl, list_elem_of_here).
  f_equal. apply IH. intros y Hy. apply Hl. by apply list_elem_of_further.
Qed.

End CompositionFacts.

(** X10: on a known table whose schema gives ID the type int, selecting
    by the ID that insert_record has just returned finds the inserted
    row and no other, whatever rows the table held. *)
Theorem insert_then_select_by_id `{PyBuiltins} (tables : gmap string (list Column))
    (t : string) (cols : list Column) (values : list value) (rows : list row)
    (σ' : core.store) (i : Z) :
  tables !! t = Some cols →
  core._schema_map cols !! ID_COLUMN = Some "int" →
  core.insert_record t values
    {| core.metadata := Some tables; core.table_data := rows |} = (σ', Ok i) →
  ∃ new_row,
    core.table_data σ' = rows ++ [new_row]
    ∧ core.select_records t (Some [(ID_COLUMN, VInt i)]) σ' = (σ', Ok [new_row]).
Proof.
  intros Ht Hid Hins.
  apply (insert_record_inv _ _ _ _ _ _ _ Ht) in Hins as (record & _ & _ & Hi & ->).
  eexists. split; [done|].
  rewrite (select_records_where _ _ _ _ _ _ _ Ht Hid).
  unfold mbind, result_bind. simpl. do 2 f_equal.
  rewrite filter_app, filter_cons_True, filter_nil.
  - rewrite filter_none; [done|].
    intros r Hr Heq. apply Is_true_true in Heq.
    apply get_eq_stored_id, (stored_ids_elem rows r i Hr), max0_ge in Heq. lia.
  - unfold get_eq. rewrite lookup_insert_eq. apply Is_true_true, py_eq_refl.
Qed.

(** X11: what delete_records keeps holds no row that matches the
    predicate: selecting with the same predicate among the kept rows
    finds nothing, deleting again deletes nothing, and the kept rows and
    the rows the select found before are together as many as the rows
    were.  The row list passed to delete_records is not changed. *)
Theorem delete_then_select_empty `{PyBuiltins} (tables : gmap string (list Column))
    (answer t : string) (cols : list Column) (rows kept : list row)
    (where_clause : clause) (σ' : core.store) (ids : list Z) :
  tables !! t = Some cols →
  core.delete_records answer t where_clause
    {| core.metadata := Some tables; core.table_data := rows |}
  = (σ', Ok (Some (kept, ids))) →
  let σ := {| core.metadata := Some tables; core.table_data := rows |} in
  let σk := {| core.metadata := Some tables; core.table_data := kept |} in
  σ' = σ
  ∧ core.select_records t (Some where_clause) σk = (σk, Ok [])
  ∧ core.delete_records answer t where_clause σk = (σk, Ok (Some (kept, [])))
  ∧ ∃ found,
      core.select_records t (Some where_clause) σ = (σ, Ok found)
      ∧ (length found + length kept = length rows)%nat.
Proof.
  intros Ht Hdel σ σk. subst σ σk.
  apply (delete_records_inv _ _ _ _ _ _ _ _ _ Ht) in Hdel
    as (w_col & w_raw & ty & w_val & -> & Hyes & Hty & Hval & -> & _ & ->).
  split_and!; [done| | |].
  - rewrite (select_records_where _ _ _ _ _ _ _ Ht Hty), Hval.
    unfold mbind, result_bind. do 2 f_equal. apply filter_none.
    by intros r [Hr _]%list_elem_of_filter.
  - rewrite (delete_records_where _ _ _ _ _ _ _ _ Ht Hty), Hyes, Hval.
    unfold mbind, result_bind. do 4 f_equal.
    + apply filter_all. by intros r [Hr _]%list_elem_of_filter.
    + rewrite filter_none; [done|]. by intros r [Hr _]%list_elem_of_filter.
  - eexists. split.
    + by rewrite (select_records_where _ _ _ _ _ _ _ Ht Hty), Hval.
    + rewrite <- length_app. apply Permutation_length, filter_app_complement.
Qed.

(** X12: update_records succeeds only on a where-clause of one
    condition, on a declared column whose value coerces to the column's
    type; taking a row to match when its value in that column equals the
    coerced value, it changes no row that does not match, and in a row
    that matches it leaves every column outside the set-clause, the ID
    among them, as it was, and gives a column of the set-clause its
    coerced value; the rows keep their number and order. *)
Theorem update_touches_set_columns `{PyBuiltins}
    (tables : gmap string (list Column)) (t : string) (cols : list Column)
    (rows : list row) (set_clause where_clause : clause) (σ' : core.store)
    (ids : list Z) :
  tables !! t = Some cols →
  core.update_records t set_clause where_clause
    {| core.metadata := Some tables; core.table_data := rows |} = (σ', Ok ids) →
  ∃ w_col w_raw ty w_val cs,
    where_clause = [(w_col, w_raw)]
    ∧ core._schema_map cols !! w_col = Some ty
    ∧ core._coerce_value ty w_raw = Ok w_val
    ∧ core.coerce_set (core._schema_map cols) set_clause = Ok cs
    ∧ Forall2 (λ r r',
         (get_eq r w_col w_val = false → r' = r)
         ∧ r' !! ID_COLUMN = r !! ID_COLUMN
         ∧ (∀ k, k ∉ set_clause.*1 → r' !! k = r !! k)
         ∧ (get_eq r w_col w_val = true →
            ∀ k v, NoDup set_clause.*1 → (k, v) ∈ cs → r' !! k = Some v))
       rows (core.table_data σ').
Proof.
  intros Ht Hupd.
  apply (update_records_inv _ _ _ _ _ _ _ _ Ht) in Hupd
    as (w_col & w_raw & ty & w_val & cs & Hwhere & _ & Hid & Hty & Hval & Hcs
        & _ & ->).
  exists w_col, w_raw, ty, w_val, cs. split_and!; [done..|]. simpl.
  pose proof (coerce_set_keys _ _ _ Hcs) as Hkeys.
  apply Forall2_fmap_r, Forall_Forall2_diag, Forall_forall. intros r _.
  unfold compose. cbv beta.
  destruct (get_eq r w_col w_val); split_and!; try done.
  - apply dict_update_lookup_ne. by rewrite Hkeys.
  - intros k Hk. apply dict_update_lookup_ne. by rewrite Hkeys.
  - intros _ k v Hnd Hkv. rewrite <- Hkeys in Hnd. clear -Hnd Hkv.
    unfold core.dict_update. revert r.
    induction cs as [|[k' v'] cs IH]; intros r; [by apply elem_of_nil in Hkv|].
    simpl in *. apply NoDup_cons in Hnd as [Hk' Hnd].
    apply elem_of_cons in Hkv as [[= <- <-]|Hkv].
    + fold (core.dict_update (<[k:=v]> r) cs).
      rewrite (dict_update_lookup_ne _ cs k Hk'). apply lookup_insert_eq.
    + by apply IH.
Qed.

(** X13: on a table that is not in the metadata every operation on rows,
    and table_info, raises KeyError naming the table before it looks at
    its other arguments, and the rows are untouched. *)
Theorem unknown_table_not_found `{PyBuiltins} (tables : gmap string (list Column))
    (t : string) (rows : list row) :
  tables !! t = None →
  let σ := {| core.metadata := Some tables; core.table_data := rows |} in
  (∀ values, core.insert_record t values σ = (σ, Raise (KeyError t)))
  ∧ (∀ where_clause, core.select_records t where_clause σ = (σ, Raise (KeyError t)))
  ∧ (∀ set_clause where_clause,
       core.update_records t set_clause where_clause σ = (σ, Raise (KeyError t)))
  ∧ (∀ answer where_clause,
       decorators.confirmed answer = true →
       core.delete_records answer t where_clause σ = (σ, Raise (KeyError t)))
  ∧ core.table_info t σ = (σ, Raise (KeyError t)).
Proof.
  intros Ht σ.
  assert (core._schema_columns t σ = (σ, Raise (KeyError t))) as Hcols.
  { by rewrite (schema_columns_unknown t σ Ht). }
  split_and!.
  - intros values. unfold core.insert_record, mbind at 1, ST_bind. by rewrite Hcols.
  - intros where_clause. unfold core.select_records, mbind at 1, ST_bind.
    by rewrite Hcols.
  - intros set_clause where_clause.
    unfold core.update_records, mbind at 1, ST_bind. by rewrite Hcols.
  - intros answer where_clause Hyes.
    unfold core.delete_records, decorators.confirm_action. rewrite Hyes.
    unfold core.delete_records_body, mbind at 1 2, ST_bind. by rewrite Hcols.
  - unfold core.table_info, mbind at 1, ST_bind. by rewrite Hcols.
Qed.

(** X14: a single condition on a column that the table does not declare
    fails alike in the three operations that take a predicate: each
    raises KeyError naming the column and leaves the rows as they were
    (update_records when its set-clause is not empty and does not name
    ID, delete_records once confirmed). *)
Theorem undeclared_where_column `{PyBuiltins} (tables : gmap string (list Column))
    (t : string) (cols : list Column) (rows : list row) (col : string)
    (raw : value) :
  tables !! t = Some cols →
  core._schema_map cols !! col = None →
  let σ := {| core.metadata := Some tables; core.table_data := rows |} in
  core.select_records t (Some [(col, raw)]) σ = (σ, Raise (KeyError col))
  ∧ (∀ set_clause,
       set_clause ≠ [] → ID_COLUMN ∉ set_clause.*1 →
       core.update_records t set_clause [(col, raw)] σ = (σ, Raise (KeyError col)))
  ∧ (∀ answer,
       decorators.confirmed answer = true →
       core.delete_records answer t [(col, raw)] σ = (σ, Raise (KeyError col))).
Proof.
  intros Ht Hcol σ. subst σ. split_and!.
  - unfold core.select_records, mbind at 1, ST_bind.
    rewrite (schema_columns_known _ _ _ _ Ht).
    unfold mbind at 1, ST_bind. rewrite (schema_columns_known _ _ _ _ Ht).
    by rewrite Hcol.
  - intros set_clause Hset Hid.
    rewrite (update_records_known _ _ _ _ _ _ Ht).
    by rewrite (bool_decide_eq_false_2 _ Hset), (bool_decide_eq_false_2 _ Hid), Hcol.
  - intros answer Hyes.
    unfold core.delete_records, decorators.confirm_action. rewrite Hyes.
    unfold core.delete_records_body, mbind at 1 2, ST_bind.
    by rewrite (schema_columns_known _ _ _ _ Ht), Hcol.
Qed.

(** ** Listing the tables *)

Lemma str_le_total : Total core.str_le.
Proof.
  intros a b. unfold core.str_le.
  destruct (String.leb_total a b) as [->| ->]; [by left|by right].
Qed.

(** X15: list_tables returns the names of the tables, each once, in
    ascending order of their text. *)
Theorem list_tables_sorted `{PyBuiltins} (tables : gmap string (list Column))
    (rows : list row) :
  ∃ names,
    core.list_tables {| core.metadata := Some tables; core.table_data := rows |}
    = ({| core.metadata := Some tables; core.table_data := rows |}, Ok names)
    ∧ Sorted core.str_le names
    ∧ NoDup names
    ∧ ∀ t, t ∈ names ↔ is_Some (tables !! t).
Proof.
  eexists. split; [reflexivity|]. simpl. split_and!.
  - pose proof str_le_total as Htotal. apply (Sorted_merge_sort core.str_le).
  - rewrite merge_sort_Permutation. apply NoDup_fst_map_to_list.
  - intros t. rewrite merge_sort_Permutation, list_elem_of_fmap. split.
    + intros ([t' cols] & -> & Hin%elem_of_map_to_list). by exists cols.
    + intros [cols Hcols]. exists (t, cols). split; [done|].
      by apply elem_of_map_to_list.
Qed.

(** ** The cache and what raises *)

(** X16: the cacher stores nothing for a compute function that raises:
    the exception goes to the caller and the next call with that key
    computes again; and no call removes or replaces an entry. *)
Theorem cache_result_raise `{Countable K} {S V : Type} (key : K) (f : ST S V)
    (cache : gmap K V) (σ : S) :
  (∀ σ' e, cache !! key = None → f σ = (σ', Raise e) →
     decorators.cache_result key f (cache, σ) = ((cache, σ'), Raise e))
  ∧ cache ⊆ (decorators.cache_result key f (cache, σ)).1.1.
Proof.
  unfold decorators.cache_result. split.
  - intros σ' e -> ->. done.
  - destruct (cache !! key) as [v|] eqn:Hkey; [done|].
    destruct (f σ) as [σ' [v|e]]; simpl; [|done].
    by apply insert_subseteq.
Qed.

(** ** The handlers and the loop *)

Section HandlerFacts.
Context `{PyBuiltins}.
Import utils.

Lemma on_world_returns {A} (m : ST engine.world A) (c : engine.cache)
    (w : engine.world) :
  (∃ w' r, m w = (w', Ok r)) →
  ∃ w' r, engine.on_world m (c, w) = ((c, w'), Ok r).
Proof. intros (w' & r & Hm). unfold engine.on_world. rewrite Hm. by eexists _, _. Qed.

Lemma then_continue {A} (m : ST engine.world A) (c : engine.cache)
    (w : engine.world) :
  (∃ w' r, m w = (w', Ok r)) →
  ∃ st', (engine.on_world m ≫= λ _, mret engine.Continue) (c, w)
         = (st', Ok engine.Continue).
Proof.
  intros Hm. destruct (on_world_returns m c w Hm) as (w' & r & Hw).
  unfold mbind, ST_bind. rewrite Hw. by eexists.
Qed.

Lemma dispatch_cases (cmd : parser.Command) (st : engine.cache * engine.world) :
  parser.name cmd ≠ "select" →
  ∃ st' n, engine.dispatch cmd st = (st', Ok n)
           ∧ (n = engine.Return ↔ parser.name cmd = "exit").
Proof.
  intros Hsel. destruct st as [c w]. unfold engine.dispatch.
  assert (∀ A (m : ST engine.world A),
            parser.name cmd ≠ "exit" →
            (∃ w' r, m w = (w', Ok r)) →
            ∃ st' n,
              (engine.on_world m ≫= λ _, mret engine.Continue) (c, w)
              = (st', Ok n)
              ∧ (n = engine.Return ↔ parser.name cmd = "exit")) as Hgo.
  { intros A m Hne Hm. destruct (then_continue m c w Hm) as [st' Hst'].
    exists st', engine.Continue. split; [done|]. by split. }
  case_bool_decide as Hhelp.
  { apply Hgo; [by rewrite Hhelp|]. by eexists _, _. }
  case_bool_decide as Hexit.
  { exists (c, w), engine.Return. by split. }
  repeat (case_bool_decide;
          [apply Hgo; [done|];
           first [ apply handle_db_errors_returns
                 | apply log_time_returns, handle_db_errors_returns ]|]).
  rewrite bool_decide_eq_false_2 by done. apply Hgo; [done|]. by eexists _, _.
Qed.

(** Only lines at the front of the input are taken. *)

Lemma trims_bind {S A B} (input : S → list (line parser.Command))
    (m : ST S A) (k : A → ST S B) :
  trims input m → (∀ a, trims input (k a)) → trims input (m ≫= k).
Proof.
  intros Hm Hk σ σ' r. unfold mbind, ST_bind.
  destruct (m σ) as [σ1 [a|e]] eqn:Hmσ.
  - intros Hka. etrans; [exact (Hk a _ _ _ Hka)|exact (Hm _ _ _ Hmσ)].
  - intros [= <- _]. exact (Hm _ _ _ Hmσ).
Qed.

Lemma trims_pure {S A} (input : S → list (line parser.Command)) (r : result A) :
  trims input (λ σ, (σ, r)).
Proof. by intros σ σ' r' [= <- _]. Qed.

Lemma trims_world {A} (m : ST engine.world A) :
  (∀ w, stdin (m w).1 = stdin w) → trims stdin m.
Proof.
  intros Hm w w' r Hw. specialize (Hm w). rewrite Hw in Hm. simpl in Hm.
  by rewrite Hm.
Qed.

Lemma trims_read_line : trims stdin (read_line (Command := parser.Command)).
Proof.
  intros w w' r. unfold read_line.
  destruct (stdin w) as [|l rest] eqn:Hin.
  - intros [= <- _]. by rewrite Hin.
  - intros [= <- _]. simpl. by apply suffix_cons_r.
Qed.

Lemma trims_call {A} (m : core.M A) (σ : core.store) :
  trims stdin (engine.call m σ).
Proof.
  intros w w' r. unfold engine.call.
  by destruct (m σ) as [σ' [a|e]]; intros [= <- _].
Qed.

Lemma trims_handle_db_errors {A} (func : ST engine.world A) :
  trims stdin func → trims stdin (decorators.handle_db_errors func).
Proof.
  intros Hf w w' r. unfold decorators.handle_db_errors.
  destruct (func w) as [w1 [a|e]] eqn:Hw; intros [= <- _];
    exact (Hf _ _ _ Hw).
Qed.

Lemma trims_on_world {A} (m : ST engine.world A) :
  trims stdin m → trims input_of (engine.on_world m).
Proof.
  intros Hm [c w] [c' w'] r. unfold engine.on_world, input_of.
  destruct (m w) as [w1 r1] eqn:Hw. intros [= <- <- _]. exact (Hm _ _ _ Hw).
Qed.

Lemma trims_cache_result (key : string * string * Z)
    (f : ST engine.world (list row)) :
  trims stdin f → trims input_of (decorators.cache_result key f).
Proof.
  intros Hf [c w] [c' w'] r. unfold decorators.cache_result, input_of.
  destruct (c !! key) as [v|]; [by intros [= <- <- _]|].
  destruct (f w) as [w1 [v|e]] eqn:Hw; intros [= <- <- _]; exact (Hf _ _ _ Hw).
Qed.

Ltac trims_step :=
  first
    [ assumption
    | progress unfold mret, ST_ret, lift, raise
    | apply trims_bind; [|intros ?]
    | apply trims_handle_db_errors
    | apply trims_on_world
    | apply trims_cache_result
    | apply trims_call
    | apply trims_read_line
    | apply trims_pure
    | by apply trims_world
    | case_match ].

Ltac trims_all := repeat trims_step.

Lemma trims_print_tables (tables : list string) :
  trims stdin (engine.print_tables tables).
Proof. induction tables; simpl; trims_all. Qed.

Lemma trims_dispatch (cmd : parser.Command) :
  trims input_of (engine.dispatch cmd).
Proof.
  unfold engine.dispatch, engine.select_branch, engine.compute, engine.print_help,
    engine._handle_create_table, engine._handle_create_table_body,
    engine._handle_list_tables, engine._handle_list_tables_body,
    engine._handle_drop_table, engine._handle_drop_table_body,
    engine._handle_info, engine._handle_info_body,
    engine._handle_insert, engine._handle_insert_body,
    engine._handle_update, engine._handle_update_body,
    engine._handle_delete, engine._handle_delete_body,
    decorators.log_time, ask_string, lift, raise, mret, ST_ret.
  trims_all; apply trims_print_tables.
Qed.

Lemma loop_step (fuel : nat) (st : engine.cache * engine.world) :
  engine.loop (S fuel) st
  = match engine.turn st with
    | (st', Ok engine.Continue) => engine.loop fuel st'
    | (st', Ok engine.Return) => (st', Ok ())
    | (st', Raise e) => (st', Raise e)
    end.
Proof.
  simpl. unfold mbind, ST_bind. by destruct (engine.turn st) as [st' [[]|e]].
Qed.

Lemma turn_step (c : engine.cache) (w : engine.world) :
  engine.turn (c, w)
  = match stdin w with
    | [] => ((c, w), Raise EOFError)
    | l :: rest =>
        let w1 := {| meta_file := meta_file w; data_files := data_files w;
                     clock := clock w; stdin := rest; stdout := stdout w;
                     select_calls := select_calls w |} in
        match parsed l with
        | Ok cmd => engine.dispatch cmd (c, w1)
        | Raise _ =>
            if bool_decide (strip (text l) = "") then ((c, w1), Ok engine.Continue)
            else ((c, (print (OutNoFunction (first_word (strip (text l)))) w1).1),
                  Ok engine.Continue)
        end
    end.
Proof.
  unfold engine.turn, mbind at 1, ST_bind, engine.on_world at 1, read_line.
  destruct (stdin w) as [|l rest]; [done|].
  destruct (parsed l); [done|]. by case_bool_decide.
Qed.

Lemma loop_without_select (fuel : nat) (st : engine.cache * engine.world) :
  Forall not_select (input_of st) →
  (length (input_of st) < fuel)%nat →
  ∃ st',
    engine.loop fuel st = (st', Ok ())
    ∨ (engine.loop fuel st = (st', Raise EOFError) ∧ input_of st' = []).
Proof.
  unfold input_of. revert st.
  induction fuel as [|fuel IH]; intros [c w] Hall Hfuel; [lia|].
  simpl in Hall, Hfuel. rewrite loop_step, turn_step.
  destruct (stdin w) as [|l rest] eqn:Hin.
  - exists (c, w). right. by split.
  - cbv zeta.
    set (w1 := {| meta_file := meta_file w; data_files := data_files w;
                  clock := clock w; stdin := rest; stdout := stdout w;
                  select_calls := select_calls w |}).
    apply Forall_cons in Hall as [Hl Hrest]. simpl in Hfuel.
    assert (∀ st1 : engine.cache * engine.world,
              stdin st1.2 `suffix_of` rest →
              ∃ st', engine.loop fuel st1 = (st', Ok ())
                     ∨ (engine.loop fuel st1 = (st', Raise EOFError)
                        ∧ stdin st'.2 = [])) as Hnext.
    { intros st1 Hsuffix. apply IH.
      - destruct Hsuffix as [k ->]. by apply Forall_app in Hrest as [_ ?].
      - apply suffix_length in Hsuffix. lia. }
    unfold not_select in Hl. destruct (parsed l) as [cmd|e].
    + destruct (dispatch_cases cmd (c, w1) Hl) as (st1 & n & Hd & Hn).
      rewrite Hd. pose proof (trims_dispatch cmd _ _ _ Hd) as Hsuffix.
      destruct n; [by apply Hnext|]. exists st1. by left.
    + case_bool_decide; by apply Hnext.
Qed.

(** What a handler that raises has done to the documents. *)



Lemma call_raise {A} (m : core.M A) (σ : core.store) (w w' : engine.world)
    (e : exn) :
  engine.call m σ w = (w', Raise e) → w' = w.
Proof.
  unfold engine.call. by destruct (m σ) as [σ' [a|e']]; intros [= <-].
Qed.






Lemma compute_documents (cmd : parser.Command) (t : string)
    (w w' : engine.world) (r : result (list row)) :
  engine.compute cmd t w = (w', r) →
  documents w' = documents w ∧ clock w' = clock w ∧ stdin w' = stdin w.
Proof.
  intros Hc. pose proof (compute_world cmd t w) as Hw. rewrite Hc in Hw.
  simpl in Hw. by subst w'.
Qed.

End HandlerFacts.

(** X17: every command but select is handled without an exception
    leaving the dispatch, whatever the documents and the input hold, and
    the loop is told to return exactly for exit. *)
Theorem dispatch_returns `{PyBuiltins} (cmd : parser.Command)
    (st : engine.cache * engine.world) :
  parser.name cmd ≠ "select" →
  ∃ st' n, engine.dispatch cmd st = (st', Ok n)
           ∧ (n = engine.Return ↔ parser.name cmd = "exit").
Proof. apply dispatch_cases. Qed.

(** X18: when no line of the input parses to a select, run either
    returns, at an exit line, or reads the whole input and ends with the
    EOFError of the prompt: no other exception leaves the loop. *)
Theorem run_without_select `{PyBuiltins} (w : engine.world) :
  Forall not_select (utils.stdin w) →
  (engine.run w).2 = Ok ()
  ∨ ((engine.run w).2 = Raise EOFError ∧ utils.stdin (engine.run w).1 = []).
Proof.
  intros Hall. unfold engine.run, engine.print_help, utils.print.
  cbv beta iota zeta.
  destruct (loop_without_select (S (length (utils.stdin w)))
              (∅, {| utils.meta_file := utils.meta_file w;
                     utils.data_files := utils.data_files w;
                     utils.clock := utils.clock w;
                     utils.stdin := utils.stdin w;
                     utils.stdout := utils.stdout w ++ [OutHelp];
                     utils.select_calls := utils.select_calls w |}))
    as ([c' w'] & [Hloop|[Hloop Hin]]);
    [done|unfold input_of; simpl; lia| |];
    cbn [utils.stdin]; rewrite Hloop; [by left|by right].
Qed.



(** X21: the select branch of the loop writes nothing and reads no line,
    whether it shows rows or raises: the documents, the clock and the
    input are as they were, and the cache has lost no entry. *)
Theorem select_reads_only `{PyBuiltins} (cmd : parser.Command)
    (c c' : engine.cache) (w w' : engine.world) (r : result ()) :
  engine.select_branch cmd (c, w) = ((c', w'), r) →
  documents w' = documents w
  ∧ utils.clock w' = utils.clock w
  ∧ utils.stdin w' = utils.stdin w
  ∧ c ⊆ c'.
Proof.
  rewrite select_branch_cached. unfold decorators.cache_result.
  destruct (c !! select_key cmd w) as [rows|] eqn:Hkey.
  - destruct (engine._columns_for_table _ _) as [columns|e];
      [|by intros [= <- <- _]].
    destruct rows as [|r0 rows]; [|case_bool_decide]; by intros [= <- <- _].
  - rewrite compute_result.
    assert (c ⊆ c) as Hrefl by done.
    destruct (core.select_records _ _ _) as [σ [rows|e]]; cbn [fst snd];
      [|by intros [= <- <- _]].
    assert (c ⊆ <[select_key cmd w := rows]> c) as Hsub
      by (by apply insert_subseteq).
    destruct (engine._columns_for_table _ _) as [columns|e];
      [|by intros [= <- <- _]].
    destruct rows as [|r0 rows]; [|case_bool_decide]; by intros [= <- <- _].
Qed.

(** ** The token grammar *)

Section TokenFacts.
Context `{PyBuiltins}.

Lemma dict_get_set (d : clause) (k k' : string) (v : value) :
  dict_get (dict_set d k v) k'
  = if decide (k = k') then Some v else dict_get d k'.
Proof.
  induction d as [|[k0 v0] d IH]; simpl.
  - case_bool_decide; by case_decide.
  - case_bool_decide as Hk0; simpl.
    + subst k0. case_bool_decide; by case_decide.
    + rewrite IH. case_bool_decide as Hk'; [|done].
      subst k'. by rewrite decide_False by congruence.
Qed.

Lemma dict_set_keys (d : clause) (k : string) (v : value) :
  (dict_set d k v).*1 = if decide (k ∈ d.*1) then d.*1 else d.*1 ++ [k].
Proof.
  induction d as [|[k0 v0] d IH].
  - destruct (decide (k ∈ ([] : clause).*1)) as [Hin|]; [|done].
    by apply elem_of_nil in Hin.
  - change (((k0, v0) :: d).*1) with (k0 :: d.*1).
    change (dict_set ((k0, v0) :: d) k v)
      with (if bool_decide (k0 = k) then (k, v) :: d
            else (k0, v0) :: dict_set d k v).
    case_bool_decide as Hk0.
    + subst k0. destruct (decide (k ∈ k :: d.*1)) as [|Hout]; [done|].
      destruct Hout. apply list_elem_of_here.
    + change (((k0, v0) :: dict_set d k v).*1)
        with (k0 :: (dict_set d k v).*1).
      rewrite IH. destruct (decide (k ∈ d.*1)) as [Hin|Hin].
      * destruct (decide (k ∈ k0 :: d.*1)) as [|Hout]; [done|].
        destruct Hout. by apply list_elem_of_further.
      * destruct (decide (k ∈ k0 :: d.*1)) as [Hin'|]; [|done].
        apply elem_of_cons in Hin' as [-> | ?]; done.
Qed.

Lemma dict_set_NoDup (d : clause) (k : string) (v : value) :
  NoDup d.*1 → NoDup (dict_set d k v).*1.
Proof.
  intros Hd. rewrite dict_set_keys. case_decide as Hin; [done|].
  apply NoDup_app. split_and!; [done| |apply NoDup_singleton].
  by intros x Hx ->%list_elem_of_singleton.
Qed.

Lemma insert_pairs_app (pre post : list string) (d : clause) :
  parser.insert_pairs (pre ++ post) d
  = match parser.insert_pairs pre d with
    | Ok d' => parser.insert_pairs post d'
    | Raise e => Raise e
    end.
Proof.
  revert d. induction pre as [|p pre IH]; intros d; simpl; [done|].
  destruct (split_once "=" p) as [[k raw]|]; [|done].
  destruct (parser._parse_literal raw) as [x|]; simpl; [|done]. apply IH.
Qed.

Lemma insert_pairs_NoDup (pairs : list string) (d kv : clause) :
  parser.insert_pairs pairs d = Ok kv → NoDup d.*1 → NoDup kv.*1.
Proof.
  revert d. induction pairs as [|p pairs IH]; intros d; simpl.
  - by intros [= <-].
  - destruct (split_once "=" p) as [[k raw]|]; [|done].
    destruct (parser._parse_literal raw) as [x|]; simpl; [|done].
    intros Hkv Hd. apply (IH _ Hkv). by apply dict_set_NoDup.
Qed.

Lemma insert_pairs_other (pairs : list string) (d kv : clause) (k : string) :
  parser.insert_pairs pairs d = Ok kv →
  Forall (λ q, ∀ raw, split_once "=" q ≠ Some (k, raw)) pairs →
  dict_get kv k = dict_get d k.
Proof.
  revert d. induction pairs as [|p pairs IH]; intros d; simpl.
  - by intros [= <-].
  - destruct (split_once "=" p) as [[k' raw]|] eqn:Hp; [|done].
    destruct (parser._parse_literal raw) as [x|]; simpl; [|done].
    intros Hkv [Hq Hrest]%Forall_cons. rewrite (IH _ Hkv Hrest), dict_get_set.
    rewrite decide_False; [done|]. intros ->. by apply (Hq raw).
Qed.

Lemma insert_pairs_keys (pairs : list string) (d kv : clause) (k : string) :
  parser.insert_pairs pairs d = Ok kv →
  k ∈ kv.*1 →
  k ∈ d.*1 ∨ ∃ p raw, p ∈ pairs ∧ split_once "=" p = Some (k, raw).
Proof.
  revert d. induction pairs as [|p pairs IH]; intros d; simpl.
  - intros [= <-]. by left.
  - destruct (split_once "=" p) as [[k' raw]|] eqn:Hp; [|done].
    destruct (parser._parse_literal raw) as [x|]; simpl; [|done].
    intros Hkv Hk. destruct (IH _ Hkv Hk) as [Hin|(q & raw' & Hq & Hsplit)].
    + rewrite dict_set_keys in Hin. case_decide; [by left|].
      apply elem_of_app in Hin as [?| ->%list_elem_of_singleton]; [by left|].
      right. exists p, raw. split; [apply list_elem_of_here|done].
    + right. exists q, raw'. split; [by apply list_elem_of_further|done].
Qed.

End TokenFacts.

(** X22: the pairs of the token forms of insert and update make a
    dictionary: every key is the text before the first equals sign of a
    pair and holds no equals sign, no key is there twice, and a key given
    by several pairs has the literal of the last of them. *)
Theorem token_pairs_last_wins `{PyBuiltins} (pairs : list string) (kv : clause) :
  parser.insert_pairs pairs [] = Ok kv →
  NoDup kv.*1
  ∧ (∀ k, k ∈ kv.*1 →
       ascii_text.has_char "=" k = false
       ∧ ∃ p raw, p ∈ pairs ∧ p = k +:+ "=" +:+ raw)
  ∧ (∀ pre p post k raw,
       pairs = pre ++ p :: post →
       split_once "=" p = Some (k, raw) →
       Forall (λ q, ∀ raw', split_once "=" q ≠ Some (k, raw')) post →
       ∃ x, parser._parse_literal raw = Ok x ∧ dict_get kv k = Some x).
Proof.
  intros Hkv. split_and!.
  - apply (insert_pairs_NoDup _ _ _ Hkv). constructor.
  - intros k Hk.
    destruct (insert_pairs_keys _ _ _ _ Hkv Hk) as [Hin|(p & raw & Hp & Hsplit)];
      [by apply elem_of_nil in Hin|].
    split; [by apply split_once_prefix in Hsplit|].
    exists p, raw. split; [done|]. by apply split_once_app in Hsplit.
  - intros pre p post k raw -> Hsplit Hpost.
    rewrite insert_pairs_app in Hkv.
    destruct (parser.insert_pairs pre []) as [d|]; [|done].
    simpl in Hkv. rewrite Hsplit in Hkv.
    destruct (parser._parse_literal raw) as [x|]; simpl in Hkv; [|done].
    exists x. split; [done|].
    rewrite (insert_pairs_other _ _ _ _ Hkv Hpost), dict_get_set.
    by rewrite decide_True.
Qed.

(** X23: a command that the token grammar returns names one of the verbs
    that the loop dispatches on, carries no positional values, and has
    the fields of its verb: none for exit, help and list_tables, whatever
    follows them; the table for info and drop_table, which take one
    argument; the table and at least one column spec for create_table;
    the table and the dictionary of at least one pair for the token form
    of insert; the table and no predicate or a single condition for
    select; the table and a single condition for update and delete, and a
    set-clause for update. *)
Theorem parse_tokens_shape `{PyBuiltins} `{PyRegex} (line head : string)
    (args : list string) (cmd : parser.Command) :
  token_grammar.parse_tokens line head args = token_grammar.Parsed cmd →
  parser.name cmd ∈ KNOWN_VERBS
  ∧ parser.values cmd = None
  ∧ (parser.name cmd ∈ ["exit"; "help"; "list_tables"] →
     cmd = token_grammar.command (lower head) None None None None)
  ∧ (parser.name cmd ∈ ["info"; "drop_table"] →
     ∃ t, args = [t]
          ∧ cmd = token_grammar.command (lower head) (Some t) None None None)
  ∧ (parser.name cmd = "create_table" →
     ∃ t spec specs,
       args = t :: spec :: specs
       ∧ cmd = token_grammar.command "create_table" (Some t)
                 (Some (spec :: specs)) None None)
  ∧ (parser.name cmd = "insert_kv" →
     ∃ t p pairs kv,
       args = t :: p :: pairs
       ∧ parser.insert_pairs (p :: pairs) [] = Ok kv
       ∧ cmd = insert_kv_cmd t kv)
  ∧ (parser.name cmd = "select" →
     ∃ t, parser.table cmd = Some t
          ∧ parser.columns cmd = None ∧ parser.set_clause cmd = None
          ∧ ((args = [t] ∧ parser.where_clause cmd = None)
             ∨ ∃ col v, parser.where_clause cmd = Some [(col, v)]))
  ∧ (parser.name cmd ∈ ["update"; "delete"] →
     ∃ t col v, parser.table cmd = Some t
                ∧ parser.columns cmd = None
                ∧ parser.where_clause cmd = Some [(col, v)])
  ∧ (parser.name cmd = "update" → is_Some (parser.set_clause cmd))
  ∧ (parser.name cmd = "delete" → parser.set_clause cmd = None).
Proof.
  assert (∀ n t sc cond c,
            token_grammar.with_condition n t sc cond = token_grammar.Parsed c →
            ∃ col v, c = token_grammar.command n (Some t) None sc (Some [(col, v)]))
    as Hcond.
  { intros n t sc cond c. unfold token_grammar.with_condition,
      token_grammar._parse_condition.
    destruct (match_condition _) as [[col val]|]; [|done].
    destruct (parser._parse_literal val) as [v|]; [|done].
    intros [= <-]. by exists col, v. }
  unfold token_grammar.parse_tokens.
  set (known := λ n : string, bool_decide_unpack (n ∈ KNOWN_VERBS)).
  case_bool_decide as Hnone.
  { intros [= <-]. unfold KNOWN_VERBS. simpl.
    repeat apply elem_of_cons in Hnone as [Hnone|Hnone];
      [..|by apply elem_of_nil in Hnone];
      rewrite Hnone; split_and!; try done; try (by apply known);
      try (intros Hbad; by apply (bool_decide_pack _) in Hbad). }
  case_bool_decide as Hinfo.
  { destruct args as [|t [|]]; try done. intros [= <-]. rewrite Hinfo. simpl.
    split_and!; try done; try (by apply known);
      try (intros Hbad; by apply (bool_decide_pack _) in Hbad).
    intros _. by exists t. }
  case_bool_decide as Hcreate.
  { destruct args as [|t [|spec specs]]; try done. intros [= <-]. simpl.
    split_and!; try done; try (by apply known);
      try (intros Hbad; by apply (bool_decide_pack _) in Hbad).
    intros _. by exists t, spec, specs. }
  case_bool_decide as Hdrop.
  { destruct args as [|t [|]]; try done. intros [= <-]. rewrite Hdrop. simpl.
    split_and!; try done; try (by apply known);
      try (intros Hbad; by apply (bool_decide_pack _) in Hbad).
    intros _. by exists t. }
  case_bool_decide as Hinsert.
  { unfold parser.parse_command_insert.
    destruct args as [|t [|p pairs]]; try done.
    destruct (parser.insert_pairs (p :: pairs) []) as [kv|] eqn:Hkv; [|done].
    intros [= <-]. simpl.
    split_and!; try done; try (by apply known);
      try (intros Hbad; by apply (bool_decide_pack _) in Hbad).
    intros _. by exists t, p, pairs, kv. }
  case_bool_decide as Hselect.
  { destruct args as [|t [|kw rest]]; try done.
    - intros [= <-]. simpl.
      split_and!; try done; try (by apply known);
        try (intros Hbad; by apply (bool_decide_pack _) in Hbad).
      intros _. exists t. split_and!; try done. by left.
    - case_bool_decide; [|done].
      intros (col & v & ->)%Hcond. simpl.
      split_and!; try done; try (by apply known);
        try (intros Hbad; by apply (bool_decide_pack _) in Hbad).
      intros _. exists t. split_and!; try done. right. by exists col, v. }
  case_bool_decide as Hupdate.
  { destruct args as [|t [|kw [|a rest]]]; try done.
    destruct (bool_decide (lower kw = "set")); cbn [negb]; [|done].
    cbv zeta. destruct (token_grammar.index_of _ _) as [idx|]; [|done].
    destruct (parser.insert_pairs _ _) as [sc|]; [|done].
    intros (col & v & ->)%Hcond. simpl.
    split_and!; try done; try (by apply known);
      try (intros Hbad; by apply (bool_decide_pack _) in Hbad).
    intros _. by exists t, col, v. }
  case_bool_decide as Hdelete; [|done].
  destruct args as [|t [|kw [|a rest]]]; try done.
  destruct (bool_decide (lower kw = "where")); cbn [negb]; [|done].
  intros (col & v & ->)%Hcond. simpl.
  split_and!; try done; try (by apply known);
    try (intros Hbad; by apply (bool_decide_pack _) in Hbad).
  intros _. by exists t, col, v.
Qed.

(** ** What the handlers write *)

Section DocumentFacts.
Context `{PyBuiltins}.
Import utils.

Lemma handle_db_errors_documents {A} (Q : engine.world → Prop)
    (func : ST engine.world A) (w w' : engine.world) (r : result (option A)) :
  (∀ w1 w2, documents w2 = documents w1 → Q w1 → Q w2) →
  (∀ w1 r1, func w = (w1, r1) → Q w1) →
  decorators.handle_db_errors func w = (w', r) → Q w'.
Proof.
  intros Hdoc Hfunc. unfold decorators.handle_db_errors.
  destruct (func w) as [w1 [a|e]]; intros [= <- _].
  - by apply (Hfunc _ _ eq_refl).
  - apply (Hdoc w1); [done|]. by apply (Hfunc _ _ eq_refl).
Qed.

Lemma log_time_documents {A} (Q : engine.world → Prop) (n : string)
    (func : ST engine.world A) (w w' : engine.world) (r : result A) :
  (∀ w1 w2, documents w2 = documents w1 → Q w1 → Q w2) →
  (∀ w1 r1, func w = (w1, r1) → Q w1) →
  decorators.log_time n func w = (w', r) → Q w'.
Proof.
  intros Hdoc Hfunc. unfold decorators.log_time, mbind, ST_bind.
  destruct (func w) as [w1 [a|e]]; intros [= <- _].
  - apply (Hdoc w1); [done|]. by apply (Hfunc _ _ eq_refl).
  - by apply (Hfunc _ _ eq_refl).
Qed.

Lemma effect_documents (t : string) (w w1 w2 : engine.world) :
  documents w2 = documents w1 → effect t w w1 → effect t w w2.
Proof. unfold effect, creates, drops, stores. by intros ->. Qed.

Lemma insert_record_ok_known (t : string) (values : list value)
    (σ σ' : core.store) (i : Z) :
  core.insert_record t values σ = (σ', Ok i) →
  is_Some (default ∅ (core.metadata σ) !! t).
Proof.
  destruct (default ∅ (core.metadata σ) !! t) as [cols|] eqn:Ht; [by eexists|].
  unfold core.insert_record, mbind at 1, ST_bind.
  by rewrite (schema_columns_unknown t σ Ht).
Qed.

Lemma update_records_ok_known (t : string) (set_clause where_clause : clause)
    (σ σ' : core.store) (ids : list Z) :
  core.update_records t set_clause where_clause σ = (σ', Ok ids) →
  is_Some (default ∅ (core.metadata σ) !! t).
Proof.
  destruct (default ∅ (core.metadata σ) !! t) as [cols|] eqn:Ht; [by eexists|].
  unfold core.update_records, mbind at 1, ST_bind.
  by rewrite (schema_columns_unknown t σ Ht).
Qed.

Lemma delete_records_ok_known (answer t : string) (where_clause : clause)
    (σ σ' : core.store) (found : list row * list Z) :
  core.delete_records answer t where_clause σ = (σ', Ok (Some found)) →
  is_Some (default ∅ (core.metadata σ) !! t).
Proof.
  destruct (default ∅ (core.metadata σ) !! t) as [cols|] eqn:Ht; [by eexists|].
  unfold core.delete_records, decorators.confirm_action.
  destruct (decorators.confirmed answer); [|done].
  unfold core.delete_records_body, mbind at 1 2, ST_bind.
  by rewrite (schema_columns_unknown t σ Ht).
Qed.

Lemma drop_table_ok (answer t : string) (σ σ' : core.store) (u : ()) :
  core.drop_table answer t σ = (σ', Ok (Some u)) →
  is_Some (default ∅ (core.metadata σ) !! t)
  ∧ core.metadata σ' = Some (delete t (default ∅ (core.metadata σ))).
Proof.
  unfold core.drop_table, decorators.confirm_action.
  destruct (decorators.confirmed answer); [|done].
  unfold core.drop_table_body, mbind, ST_bind, core._normalize_meta,
    core.set_tables, raise. simpl.
  case_bool_decide as Hin; simpl; [|done]. by intros [= <-].
Qed.

Lemma create_body_effect (cmd : parser.Command) (w w' : engine.world)
    (r : result ()) :
  engine._handle_create_table_body cmd w = (w', r) →
  documents w' = documents w ∨ creates (table_of cmd) w w'.
Proof.
  unfold engine._handle_create_table_body, mbind, ST_bind, load_metadata,
    engine.call.
  destruct (core.create_table _ _ _) as [σ1 [[]|e1]] eqn:Hcreate;
    [|intros [= <- _]; by left].
  apply create_table_ok in Hcreate as (_ & Hnone & user_cols & _ & ->).
  simpl. rewrite lookup_insert_eq. intros [= <- _]. right.
  split; [exact Hnone|]. by exists user_cols.
Qed.

Lemma drop_body_effect (cmd : parser.Command) (w w' : engine.world)
    (r : result ()) :
  engine._handle_drop_table_body cmd w = (w', r) →
  documents w' = documents w ∨ drops (table_of cmd) w w'.
Proof.
  unfold engine._handle_drop_table_body, mbind, ST_bind, load_metadata,
    ask_string, read_line, engine.call.
  unfold mbind, ST_bind. destruct (stdin w) as [|l rest]; [intros [= <- _]; by left|].
  simpl.
  destruct (core.drop_table _ _ _) as [σ1 [[[]|]|e1]] eqn:Hdrop;
    [|intros [= <- _]; by left..].
  apply drop_table_ok in Hdrop as [Hin Hmeta]. simpl in Hin, Hmeta.
  intros [= <- _]. right. split; [exact Hin|].
  unfold documents. simpl. by rewrite Hmeta.
Qed.

Lemma insert_body_effect (cmd : parser.Command) (w w' : engine.world)
    (r : result ()) :
  engine._handle_insert_body cmd w = (w', r) →
  documents w' = documents w ∨ stores (table_of cmd) w w'.
Proof.
  unfold engine._handle_insert_body, mbind, ST_bind, load_metadata,
    load_table_data, lift, engine.call.
  destruct (if bool_decide (parser.name cmd = "insert_kv") then _ else _)
    as [values|e1]; [|intros [= <- _]; by left].
  destruct (core.insert_record _ _ _) as [σ1 [i|e1]] eqn:Hins;
    [|intros [= <- _]; by left].
  apply insert_record_ok_known in Hins. simpl. intros [= <- _]. right.
  split; [exact Hins|]. by eexists.
Qed.

Lemma update_body_effect (cmd : parser.Command) (w w' : engine.world)
    (r : result ()) :
  engine._handle_update_body cmd w = (w', r) →
  documents w' = documents w ∨ stores (table_of cmd) w w'.
Proof.
  unfold engine._handle_update_body, mbind, ST_bind, load_metadata,
    load_table_data, engine.call.
  destruct (core.update_records _ _ _ _) as [σ1 [ids|e1]] eqn:Hupd;
    [|intros [= <- _]; by left].
  apply update_records_ok_known in Hupd. simpl.
  intros Hw'. right. split; [exact Hupd|]. exists (core.table_data σ1).
  by destruct ids as [|i [|]]; injection Hw' as <- _.
Qed.

Lemma delete_body_effect (cmd : parser.Command) (w w' : engine.world)
    (r : result ()) :
  engine._handle_delete_body cmd w = (w', r) →
  documents w' = documents w ∨ stores (table_of cmd) w w'.
Proof.
  unfold engine._handle_delete_body, mbind, ST_bind, load_metadata,
    load_table_data, ask_string, read_line, engine.call.
  unfold mbind, ST_bind. destruct (stdin w) as [|l rest]; [intros [= <- _]; by left|].
  simpl.
  destruct (core.delete_records _ _ _ _) as [σ1 [[[kept ids]|]|e1]] eqn:Hdel;
    [|intros [= <- _]; by left..].
  apply delete_records_ok_known in Hdel. simpl.
  intros Hw'. right. split; [exact Hdel|]. exists kept.
  by destruct ids as [|i [|]]; injection Hw' as <- _.
Qed.

Lemma print_tables_documents (tables : list string) (w : engine.world) :
  documents (engine.print_tables tables w).1 = documents w.
Proof.
  revert w. induction tables as [|t tables IH]; intros w; [done|].
  simpl. unfold mbind, ST_bind. simpl. by rewrite IH.
Qed.

Lemma list_body_documents (w w' : engine.world) (r : result ()) :
  engine._handle_list_tables_body w = (w', r) → documents w' = documents w.
Proof.
  unfold engine._handle_list_tables_body, mbind, ST_bind, load_metadata,
    engine.call.
  destruct (core.list_tables _) as [σ1 [tables|e1]]; [|by intros [= <- _]].
  simpl. destruct tables as [|t tables]; [by intros [= <- _]|].
  intros Hw'. pose proof (print_tables_documents (t :: tables) w) as Hdoc.
  by rewrite Hw' in Hdoc.
Qed.

Lemma info_body_documents (cmd : parser.Command) (w w' : engine.world)
    (r : result ()) :
  engine._handle_info_body cmd w = (w', r) → documents w' = documents w.
Proof.
  unfold engine._handle_info_body, mbind, ST_bind, load_metadata,
    load_table_data, engine.call.
  by destruct (core.table_info _ _) as [σ1 [i|e1]]; intros [= <- _].
Qed.

Lemma select_branch_documents (cmd : parser.Command)
    (c : engine.cache) (w : engine.world)
    (st' : engine.cache * engine.world) (r : result ()) :
  engine.select_branch cmd (c, w) = (st', r) → documents st'.2 = documents w.
Proof.
  rewrite select_branch_cached. unfold decorators.cache_result.
  destruct (c !! select_key cmd w) as [rows|] eqn:Hkey.
  - destruct (engine._columns_for_table _ _) as [columns|e];
      [|by intros [= <- _]].
    destruct rows as [|r0 rows]; [|case_bool_decide]; by intros [= <- _].
  - rewrite compute_result.
    destruct (core.select_records _ _ _) as [σ [rows|e]]; cbn [fst snd];
      [|by intros [= <- _]].
    destruct (engine._columns_for_table _ _) as [columns|e];
      [|by intros [= <- _]].
    destruct rows as [|r0 rows]; [|case_bool_decide]; by intros [= <- _].
Qed.

Lemma then_continue_documents {A} (Q : engine.world → Prop)
    (m : ST engine.world A) (c : engine.cache) (w : engine.world)
    (st' : engine.cache * engine.world) (r : result engine.next) :
  (∀ w1 r1, m w = (w1, r1) → Q w1) →
  (engine.on_world m ≫= λ _, mret engine.Continue) (c, w) = (st', r) →
  Q st'.2.
Proof.
  intros Hm. unfold mbind, ST_bind, engine.on_world.
  destruct (m w) as [w1 [a|e]]; intros [= <- _]; by apply (Hm _ _ eq_refl).
Qed.

Lemma dispatch_effect (cmd : parser.Command) (c : engine.cache)
    (w : engine.world) (st' : engine.cache * engine.world)
    (r : result engine.next) :
  engine.dispatch cmd (c, w) = (st', r) → effect (table_of cmd) w st'.2.
Proof.
  pose proof (effect_documents (table_of cmd) w) as Hdoc.
  unfold engine.dispatch.
  case_bool_decide.
  { apply then_continue_documents. intros w1 r1 [= <- _]. by left. }
  case_bool_decide.
  { intros [= <- _]. by left. }
  case_bool_decide.
  { apply then_continue_documents. intros w1 r1.
    apply handle_db_errors_documents; [exact Hdoc|].
    intros w2 r2 [?|?]%create_body_effect; [by left|by right; left]. }
  case_bool_decide.
  { apply then_continue_documents. intros w1 r1.
    apply handle_db_errors_documents; [exact Hdoc|].
    intros w2 r2 ?%list_body_documents. by left. }
  case_bool_decide.
  { apply then_continue_documents. intros w1 r1.
    apply handle_db_errors_documents; [exact Hdoc|].
    intros w2 r2 [?|?]%drop_body_effect; [by left|by right; right; left]. }
  case_bool_decide.
  { apply then_continue_documents. intros w1 r1.
    apply handle_db_errors_documents; [exact Hdoc|].
    intros w2 r2 ?%info_body_documents. by left. }
  case_bool_decide.
  { apply then_continue_documents. intros w1 r1.
    apply log_time_documents; [exact Hdoc|]. intros w2 r2.
    apply handle_db_errors_documents; [exact Hdoc|].
    intros w3 r3 [?|?]%insert_body_effect; [by left|by right; right; right]. }
  case_bool_decide.
  { apply then_continue_documents. intros w1 r1.
    apply log_time_documents; [exact Hdoc|]. intros w2 r2.
    apply handle_db_errors_documents; [exact Hdoc|].
    intros w3 r3 [?|?]%update_body_effect; [by left|by right; right; right]. }
  case_bool_decide.
  { apply then_continue_documents. intros w1 r1.
    apply log_time_documents; [exact Hdoc|]. intros w2 r2.
    apply handle_db_errors_documents; [exact Hdoc|].
    intros w3 r3 [?|?]%delete_body_effect; [by left|by right; right; right]. }
  case_bool_decide.
  { unfold mbind, ST_bind.
    destruct (engine.select_branch cmd (c, w)) as [st1 [[]|e]] eqn:Hsel;
      intros [= <- _]; left; by apply (select_branch_documents _ _ _ _ _ Hsel). }
  apply then_continue_documents. intros w1 r1 [= <- _]. by left.
Qed.

Lemma effect_tables (t : string) (w w' : engine.world) :
  effect t w w' →
  (tables_of w' = tables_of w ∨ tables_of w' = delete t (tables_of w)
   ∨ ∃ cols, tables_of w' = <[t := cols]> (tables_of w))
  ∧ (data_files w' = data_files w ∨ data_files w' = delete t (data_files w)
     ∨ ∃ f, data_files w' = <[t := f]> (data_files w))
  ∧ (no_orphans w → no_orphans w')
  ∧ (all_stored w → all_stored w').
Proof.
  unfold effect, creates, drops, stores, documents, no_orphans, all_stored,
    tables_of.
  intros [[= -> ->]|[(Hnone & cols & [= -> ->])
                    |[(Hin & [= -> ->])|(Hin & rows & [= -> ->])]]]; simpl.
  - split_and!; try done; by left.
  - split_and!.
    + right. right. by eexists.
    + right. right. by eexists.
    + rewrite !dom_insert. set_solver.
    + rewrite !dom_insert. set_solver.
  - split_and!.
    + right. by left.
    + right. by left.
    + rewrite !dom_delete. set_solver.
    + rewrite !dom_delete. set_solver.
  - apply elem_of_dom in Hin. split_and!.
    + by left.
    + right. right. by eexists.
    + rewrite dom_insert. set_solver.
    + rewrite dom_insert. set_solver.
Qed.


End DocumentFacts.


(** X25: a command touches no table but its own: whatever the dispatch
    of the loop does with a command, select included, and whether it
    raises or not, every other table has the declaration and the
    document, rows and time stamp, that it had. *)
Theorem dispatch_frame `{PyBuiltins} (cmd : parser.Command)
    (st st' : engine.cache * engine.world) (r : result engine.next)
    (t' : string) :
  engine.dispatch cmd st = (st', r) →
  t' ≠ table_of cmd →
  tables_of st'.2 !! t' = tables_of st.2 !! t'
  ∧ utils.data_files st'.2 !! t' = utils.data_files st.2 !! t'.
Proof.
  destruct st as [c w]. intros Hd Hne.
  apply dispatch_effect, effect_tables in Hd as (Htables & Hfiles & _).
  simpl. split.
  - destruct Htables as [->|[->|[cols ->]]]; [done| |].
    + by apply lookup_delete_ne.
    + by apply lookup_insert_ne.
  - destruct Hfiles as [->|[->|[f ->]]]; [done| |].
    + by apply lookup_delete_ne.
    + by apply lookup_insert_ne.
Qed.



(** ** What update and delete report *)

Section ReportFacts.
Context `{PyBuiltins}.

Lemma conforms_id (cols : list Column) (r : row) :
  core._schema_map cols !! ID_COLUMN = Some "int" →
  conforms cols r → ∃ n, r !! ID_COLUMN = Some (VInt n).
Proof.
  intros Hid [Hdom Htyped].
  assert (is_Some (r !! ID_COLUMN)) as [v Hv].
  { apply elem_of_dom. rewrite Hdom. apply elem_of_dom. by eexists. }
  specialize (Htyped _ _ Hv). rewrite Hid in Htyped.
  destruct v as [n|s|b]; try done. by exists n.
Qed.

Lemma conforming_ids (cols : list Column) (l : list row) :
  core._schema_map cols !! ID_COLUMN = Some "int" →
  Forall (conforms cols) l →
  omap core.row_id l = stored_ids l ∧ length (stored_ids l) = length l.
Proof.
  intros Hid. unfold stored_ids.
  induction 1 as [|r l Hr _ [IH1 IH2]]; [done|].
  destruct (conforms_id _ _ Hid Hr) as [n Hn].
  change (omap core.row_id (r :: l))
    with (match core.row_id r with
          | Some y => y :: omap core.row_id l
          | None => omap core.row_id l
          end).
  change (omap ?f (r :: l))
    with (match f r with Some y => y :: omap f l | None => omap f l end).
  unfold core.row_id at 1. rewrite Hn. simpl. rewrite IH1. split; [done|].
  simpl. by rewrite IH2.
Qed.

Lemma conforming_filter (cols : list Column) (P : row → Prop)
    `{∀ r, Decision (P r)} (l : list row) :
  Forall (conforms cols) l → Forall (conforms cols) (filter P l).
Proof.
  rewrite !Forall_forall. intros Hl r [_ Hr]%list_elem_of_filter. by apply Hl.
Qed.

End ReportFacts.

(** X27: on a known table whose rows conform to a schema that gives ID
    the type int, the IDs that update_records and delete_records return
    are the IDs of the rows that select_records returns for the same
    predicate on the same rows, one per row and in their order; and the
    rows that delete_records keeps and the IDs it returns are together
    as many as the rows were. *)
Theorem reported_ids_are_selected_ids `{PyBuiltins}
    (tables : gmap string (list Column)) (t : string) (cols : list Column)
    (rows : list row) :
  tables !! t = Some cols →
  core._schema_map cols !! ID_COLUMN = Some "int" →
  Forall (conforms cols) rows →
  let σ := {| core.metadata := Some tables; core.table_data := rows |} in
  (∀ set_clause where_clause σ' ids,
     core.update_records t set_clause where_clause σ = (σ', Ok ids) →
     ∃ found,
       core.select_records t (Some where_clause) σ = (σ, Ok found)
       ∧ ids = stored_ids found ∧ length ids = length found)
  ∧ (∀ answer where_clause σ' kept ids,
       core.delete_records answer t where_clause σ = (σ', Ok (Some (kept, ids))) →
       ∃ found,
         core.select_records t (Some where_clause) σ = (σ, Ok found)
         ∧ ids = stored_ids found ∧ length ids = length found
         ∧ (length kept + length ids = length rows)%nat).
Proof.
  intros Ht Hid Hrows σ. subst σ. split.
  - intros set_clause where_clause σ' ids Hupd.
    apply (update_records_inv _ _ _ _ _ _ _ _ Ht) in Hupd
      as (w_col & w_raw & ty & w_val & cs & -> & _ & _ & Hty & Hval & _ & -> & _).
    exists (filter (λ r, get_eq r w_col w_val) rows).
    destruct (conforming_ids cols (filter (λ r, get_eq r w_col w_val) rows) Hid)
      as [Hids Hlen]; [by apply conforming_filter|].
    split_and!.
    + by rewrite (select_records_where _ _ _ _ _ _ _ Ht Hty), Hval.
    + exact Hids.
    + by rewrite Hids.
  - intros answer where_clause σ' kept ids Hdel.
    apply (delete_records_inv _ _ _ _ _ _ _ _ _ Ht) in Hdel
      as (w_col & w_raw & ty & w_val & -> & _ & Hty & Hval & -> & -> & _).
    exists (filter (λ r, get_eq r w_col w_val) rows).
    destruct (conforming_ids cols (filter (λ r, get_eq r w_col w_val) rows) Hid)
      as [Hids Hlen]; [by apply conforming_filter|].
    split_and!.
    + by rewrite (select_records_where _ _ _ _ _ _ _ Ht Hty), Hval.
    + exact Hids.
    + by rewrite Hids.
    + rewrite Hids, Hlen, Nat.add_comm, <- length_app.
      apply Permutation_length, filter_app_complement.
Qed.


(** ** The further properties at concrete inputs *)

Section FurtherExamples.
#[local] Existing Instance ascii_builtins.
#[local] Existing Instance ascii_regex_engine.
Import examples.

Ltac by_compute := apply (bool_decide_unpack _); vm_compute; exact I.

Lemma column_spec_round_trip_witness :
  core._parse_column_spec "active:bool" = Ok active_bool.
Proof.
  apply (column_spec_round_trip "active:bool" active_bool).
  split_and!; [reflexivity|vm_compute; reflexivity|vm_compute; reflexivity
              |by_compute|by_compute].
Defined.

Lemma create_table_outcome_witness :
  core.create_table "t" ["b:str"] (store_t rows_t)
  = (store_t rows_t, Raise (DBError (TableExists "t")))
  ∧ core.create_table "u" ["b:str"; "c"; "ID:int"] (store_t rows_t)
    = (store_t rows_t, Raise (InvalidValue (PText "c") ExpectedColumnType)).
Proof.
  split.
  - destruct (create_table_outcome tables_t "t" ["b:str"] rows_t)
      as (_ & Hexists & _).
    apply Hexists; [vm_compute; reflexivity|by_compute].
  - destruct (create_table_outcome tables_t "u" ["b:str"; "c"; "ID:int"] rows_t)
      as (_ & _ & Hspec & _).
    apply (Hspec eq_refl eq_refl ["b:str"] "c" ["ID:int"]); [reflexivity| |reflexivity].
    constructor; [|constructor].
    exists {| name := "b"; type_name := "str" |}. vm_compute. reflexivity.
Defined.

Lemma drop_table_outcome_witness :
  core.drop_table "n" "t" (store_t rows_t) = (store_t rows_t, Ok None)
  ∧ core.drop_table "y" "u" (store_t rows_t)
    = (store_t rows_t, Raise (DBError (TableMissing "u")))
  ∧ ∃ tables',
      core.drop_table "y" "t" (store_t rows_t)
      = ({| core.metadata := Some tables'; core.table_data := rows_t |},
         Ok (Some ()))
      ∧ tables' !! "t" = None.
Proof.
  split_and!.
  - destruct (drop_table_outcome tables_t "n" "t" rows_t) as (Hno & _).
    apply Hno. vm_compute. reflexivity.
  - destruct (drop_table_outcome tables_t "y" "u" rows_t) as (_ & Hmissing & _).
    apply Hmissing; vm_compute; reflexivity.
  - destruct (drop_table_outcome tables_t "y" "t" rows_t) as (_ & _ & Hdrop).
    destruct Hdrop as (tables' & Heq & Hnone & _);
      [vm_compute; reflexivity|by_compute|].
    by exists tables'.
Defined.

Lemma create_then_drop_witness :
  core.create_table "u" ["b:str"] (store_t rows_t)
  = ({| core.metadata :=
          Some (<["u" := [id_int; {| name := "b"; type_name := "str" |}]]> tables_t);
        core.table_data := rows_t |}, Ok ())
  ∧ decorators.confirmed "y" = true
  ∧ core.drop_table "y" "u"
      {| core.metadata :=
           Some (<["u" := [id_int; {| name := "b"; type_name := "str" |}]]> tables_t);
         core.table_data := rows_t |}
    = (store_t rows_t, Ok (Some ())).
Proof.
  assert (core.create_table "u" ["b:str"] (store_t rows_t)
          = ({| core.metadata :=
                  Some (<["u" := [id_int; {| name := "b"; type_name := "str" |}]]>
                          tables_t);
                core.table_data := rows_t |}, Ok ())) as Hcreate
    by (vm_compute; reflexivity).
  assert (decorators.confirmed "y" = true) as Hyes by (vm_compute; reflexivity).
  split_and!; [exact Hcreate|exact Hyes|].
  exact (create_then_drop "y" "u" ["b:str"] (store_t rows_t) _ Hcreate Hyes).
Defined.

Lemma create_table_info_witness :
  core.create_table "u" ["b:str"; "c:bool"] (store_t rows_t)
  = ({| core.metadata :=
          Some (<["u" := [id_int; {| name := "b"; type_name := "str" |};
                          {| name := "c"; type_name := "bool" |}]]> tables_t);
        core.table_data := rows_t |}, Ok ())
  ∧ (core.table_info "u"
       {| core.metadata :=
            Some (<["u" := [id_int; {| name := "b"; type_name := "str" |};
                            {| name := "c"; type_name := "bool" |}]]> tables_t);
          core.table_data := rows_t |}).2
    = Ok {| core.info_table := "u";
            core.info_columns := "ID:int, b:str, c:bool";
            core.info_count := 3 |}.
Proof.
  assert (core.create_table "u" ["b:str"; "c:bool"] (store_t rows_t)
          = ({| core.metadata :=
                  Some (<["u" := [id_int; {| name := "b"; type_name := "str" |};
                                  {| name := "c"; type_name := "bool" |}]]> tables_t);
                core.table_data := rows_t |}, Ok ())) as Hcreate
    by (vm_compute; reflexivity).
  split; [exact Hcreate|].
  by rewrite (create_table_info "u" ["b:str"; "c:bool"] (store_t rows_t) _ Hcreate).
Defined.

Lemma coerce_value_typed_witness :
  core._coerce_value "bool" (VStr "Yes") = Ok (VBool true)
  ∧ type_of (VBool true) = "bool"
  ∧ core._coerce_value "bool" (VBool true) = Ok (VBool true).
Proof.
  assert (core._coerce_value "bool" (VStr "Yes") = Ok (VBool true)) as Hc
    by (vm_compute; reflexivity).
  split; [exact Hc|]. exact (coerce_value_typed "bool" (VStr "Yes") (VBool true) Hc).
Defined.

Lemma rows_t_conform : Forall (conforms [id_int; a_int; active_bool]) rows_t.
Proof.
  repeat constructor; try (vm_compute; reflexivity);
    apply (bool_decide_unpack
             (map_Forall (λ k v, core._schema_map [id_int; a_int; active_bool] !! k
                                 = Some (type_of v)) _));
    vm_compute; exact I.
Qed.

Lemma rows_stay_conforming_witness :
  tables_t !! "t" = Some [id_int; a_int; active_bool]
  ∧ Forall (conforms [id_int; a_int; active_bool]) rows_t
  ∧ Forall (conforms [id_int; a_int; active_bool])
      (core.table_data
         (core.update_records "t" [("a", VStr "5")] [("active", VStr "yes")]
            (store_t rows_t)).1).
Proof.
  assert (tables_t !! "t" = Some [id_int; a_int; active_bool]) as Ht
    by (vm_compute; reflexivity).
  split_and!; [exact Ht|exact rows_t_conform|].
  destruct (rows_stay_conforming tables_t "t" _ rows_t Ht rows_t_conform)
    as (_ & Hupdate & _).
  apply (Hupdate [("a", VStr "5")] [("active", VStr "yes")] _ [1; 3]).
  vm_compute. reflexivity.
Defined.

Lemma ids_stay_distinct_witness :
  tables_t !! "t" = Some [id_int; a_int; active_bool]
  ∧ stored_ids
      (core.table_data (core.insert_record "t" [VInt 7; VStr "no"] (store_t rows_t)).1)
    = stored_ids rows_t ++ [4]
  ∧ (4 ∉ stored_ids rows_t).
Proof.
  assert (tables_t !! "t" = Some [id_int; a_int; active_bool]) as Ht
    by (vm_compute; reflexivity).
  split; [exact Ht|].
  destruct (ids_stay_distinct tables_t "t" _ rows_t Ht) as (Hinsert & _).
  destruct (Hinsert [VInt 7; VStr "no"]
              (core.insert_record "t" [VInt 7; VStr "no"] (store_t rows_t)).1 4)
    as (Hids & Hnew & _); [vm_compute; reflexivity|].
  by split.
Defined.

Lemma insert_then_select_by_id_witness :
  tables_t !! "t" = Some [id_int; a_int; active_bool]
  ∧ core._schema_map [id_int; a_int; active_bool] !! ID_COLUMN = Some "int"
  ∧ core.insert_record "t" [VInt 7; VStr "no"] (store_t rows_t)
    = (store_t (rows_t ++ [row_of 4 7 false]), Ok 4)
  ∧ ∃ new_row,
      rows_t ++ [row_of 4 7 false] = rows_t ++ [new_row]
      ∧ core.select_records "t" (Some [(ID_COLUMN, VInt 4)])
          (store_t (rows_t ++ [row_of 4 7 false]))
        = (store_t (rows_t ++ [row_of 4 7 false]), Ok [new_row]).
Proof.
  assert (tables_t !! "t" = Some [id_int; a_int; active_bool]) as Ht
    by (vm_compute; reflexivity).
  assert (core._schema_map [id_int; a_int; active_bool] !! ID_COLUMN = Some "int")
    as Hid by (vm_compute; reflexivity).
  assert (core.insert_record "t" [VInt 7; VStr "no"] (store_t rows_t)
          = (store_t (rows_t ++ [row_of 4 7 false]), Ok 4)) as Hins
    by (vm_compute; reflexivity).
  split_and!; [exact Ht|exact Hid|exact Hins|].
  exact (insert_then_select_by_id tables_t "t" _ [VInt 7; VStr "no"] rows_t _ 4
           Ht Hid Hins).
Defined.

Lemma delete_then_select_empty_witness :
  tables_t !! "t" = Some [id_int; a_int; active_bool]
  ∧ core.delete_records "y" "t" [("a", VInt 10)] (store_t rows_t)
    = (store_t rows_t, Ok (Some ([row_of 2 20 false], [1; 3])))
  ∧ core.select_records "t" (Some [("a", VInt 10)]) (store_t [row_of 2 20 false])
    = (store_t [row_of 2 20 false], Ok []).
Proof.
  assert (tables_t !! "t" = Some [id_int; a_int; active_bool]) as Ht
    by (vm_compute; reflexivity).
  assert (core.delete_records "y" "t" [("a", VInt 10)] (store_t rows_t)
          = (store_t rows_t, Ok (Some ([row_of 2 20 false], [1; 3])))) as Hdel
    by (vm_compute; reflexivity).
  split_and!; [exact Ht|exact Hdel|].
  destruct (delete_then_select_empty tables_t "y" "t" _ rows_t _ _ _ _ Ht Hdel)
    as (_ & Hselect & _).
  exact Hselect.
Defined.

Lemma update_touches_set_columns_witness :
  tables_t !! "t" = Some [id_int; a_int; active_bool]
  ∧ core.update_records "t" [("a", VStr "5")] [("active", VStr "yes")]
      (store_t rows_t)
    = (store_t [row_of 1 5 true; row_of 2 20 false; row_of 3 5 true], Ok [1; 3])
  ∧ Forall2 (λ r r',
       (get_eq r "active" (VBool true) = false → r' = r)
       ∧ r' !! ID_COLUMN = r !! ID_COLUMN
       ∧ (∀ k, k ∉ [("a", VStr "5")].*1 → r' !! k = r !! k)
       ∧ (get_eq r "active" (VBool true) = true →
          ∀ k v, NoDup [("a", VStr "5")].*1 → (k, v) ∈ [("a", VInt 5)] →
                 r' !! k = Some v))
      rows_t [row_of 1 5 true; row_of 2 20 false; row_of 3 5 true].
Proof.
  assert (tables_t !! "t" = Some [id_int; a_int; active_bool]) as Ht
    by (vm_compute; reflexivity).
  assert (core.update_records "t" [("a", VStr "5")] [("active", VStr "yes")]
            (store_t rows_t)
          = (store_t [row_of 1 5 true; row_of 2 20 false; row_of 3 5 true],
             Ok [1; 3])) as Hupd by (vm_compute; reflexivity).
  split_and!; [exact Ht|exact Hupd|].
  destruct (update_touches_set_columns tables_t "t" _ rows_t _ _ _ _ Ht Hupd)
    as (w_col & w_raw & ty & w_val & cs & Hwhere & Hty & Hval & Hcs & Hrows).
  injection Hwhere as <- <-.
  vm_compute in Hty. injection Hty as <-.
  vm_compute in Hval. injection Hval as <-.
  vm_compute in Hcs. injection Hcs as <-.
  exact Hrows.
Defined.

Lemma unknown_table_not_found_witness :
  tables_t !! "u" = None
  ∧ core.select_records "u" None (store_t rows_t)
    = (store_t rows_t, Raise (KeyError "u")).
Proof.
  assert (tables_t !! "u" = None) as Hu by (vm_compute; reflexivity).
  split; [exact Hu|].
  destruct (unknown_table_not_found tables_t "u" rows_t Hu) as (_ & Hselect & _).
  apply Hselect.
Defined.

Lemma undeclared_where_column_witness :
  tables_t !! "t" = Some [id_int; a_int; active_bool]
  ∧ core._schema_map [id_int; a_int; active_bool] !! "nope" = None
  ∧ core.update_records "t" [("a", VInt 5)] [("nope", VInt 1)] (store_t rows_t)
    = (store_t rows_t, Raise (KeyError "nope")).
Proof.
  assert (tables_t !! "t" = Some [id_int; a_int; active_bool]) as Ht
    by (vm_compute; reflexivity).
  assert (core._schema_map [id_int; a_int; active_bool] !! "nope" = None) as Hn
    by (vm_compute; reflexivity).
  split_and!; [exact Ht|exact Hn|].
  destruct (undeclared_where_column tables_t "t" _ rows_t "nope" (VInt 1) Ht Hn)
    as (_ & Hupdate & _).
  apply Hupdate; [done|by_compute].
Defined.

Lemma cache_result_raise_witness :
  decorators.cache_result "k" (λ σ : Z, (σ + 1, Raise EOFError : result Z))
    ((∅ : gmap string Z), 0)
  = ((∅, 1), Raise EOFError).
Proof.
  destruct (cache_result_raise "k" (λ σ : Z, (σ + 1, Raise EOFError : result Z))
              (∅ : gmap string Z) 0) as [Hraise _].
  apply (Hraise 1 EOFError); reflexivity.
Defined.

Lemma dispatch_returns_witness :
  parser.name (command "drop_table" "u") ≠ "select"
  ∧ ∃ st' n,
      engine.dispatch (command "drop_table" "u") (∅, world_t) = (st', Ok n)
      ∧ (n = engine.Return ↔ parser.name (command "drop_table" "u") = "exit").
Proof.
  assert (parser.name (command "drop_table" "u") ≠ "select") as Hn by by_compute.
  split; [exact Hn|].
  exact (dispatch_returns (command "drop_table" "u") (∅, world_t) Hn).
Defined.

Lemma run_without_select_witness :
  Forall not_select (utils.stdin delete_undeclared)
  ∧ ((engine.run delete_undeclared).2 = Ok ()
     ∨ ((engine.run delete_undeclared).2 = Raise EOFError
        ∧ utils.stdin (engine.run delete_undeclared).1 = [])).
Proof.
  assert (Forall not_select (utils.stdin delete_undeclared)) as Hall
    by (repeat constructor; by_compute).
  split; [exact Hall|].
  exact (run_without_select delete_undeclared Hall).
Defined.



Lemma select_reads_only_witness :
  documents (engine.select_branch (where_ "select" "t" "a" (VInt 10))
               (∅, world_t)).1.2
  = documents world_t
  ∧ utils.clock (engine.select_branch (where_ "select" "t" "a" (VInt 10))
                   (∅, world_t)).1.2
    = 6.
Proof.
  destruct (select_reads_only (where_ "select" "t" "a" (VInt 10)) ∅
              (engine.select_branch (where_ "select" "t" "a" (VInt 10))
                 (∅, world_t)).1.1
              world_t
              (engine.select_branch (where_ "select" "t" "a" (VInt 10))
                 (∅, world_t)).1.2
              (engine.select_branch (where_ "select" "t" "a" (VInt 10))
                 (∅, world_t)).2) as (Hdocs & Hclock & _).
  - by destruct (engine.select_branch _ _) as [[??]?].
  - by split.
Defined.

Lemma token_pairs_last_wins_witness :
  parser.insert_pairs ["a=1"; "b=x"; "a=2"] [] = Ok [("a", VInt 2); ("b", VStr "x")]
  ∧ NoDup [("a", VInt 2); ("b", VStr "x")].*1
  ∧ ∃ x, parser._parse_literal "2" = Ok x
         ∧ dict_get [("a", VInt 2); ("b", VStr "x")] "a" = Some x.
Proof.
  assert (parser.insert_pairs ["a=1"; "b=x"; "a=2"] []
          = Ok [("a", VInt 2); ("b", VStr "x")]) as Hkv by (vm_compute; reflexivity).
  split; [exact Hkv|].
  destruct (token_pairs_last_wins _ _ Hkv) as (Hnodup & _ & Hlast).
  split; [exact Hnodup|].
  apply (Hlast ["a=1"; "b=x"] "a=2" [] "a" "2"); [reflexivity|reflexivity|constructor].
Defined.

Lemma parse_tokens_shape_witness :
  token_grammar.parse_tokens "delete t where b = 2" "delete"
    ["t"; "where"; "b"; "="; "2"]
  = token_grammar.Parsed
      (token_grammar.command "delete" (Some "t") None None (Some [("b", VInt 2)]))
  ∧ parser.name
      (token_grammar.command "delete" (Some "t") None None (Some [("b", VInt 2)]))
    ∈ KNOWN_VERBS
  ∧ ∃ t col v,
      parser.table
        (token_grammar.command "delete" (Some "t") None None
           (Some [("b", VInt 2)])) = Some t
      ∧ parser.columns
          (token_grammar.command "delete" (Some "t") None None
             (Some [("b", VInt 2)])) = None
      ∧ parser.where_clause
          (token_grammar.command "delete" (Some "t") None None
             (Some [("b", VInt 2)])) = Some [(col, v)].
Proof.
  assert (token_grammar.parse_tokens "delete t where b = 2" "delete"
            ["t"; "where"; "b"; "="; "2"]
          = token_grammar.Parsed
              (token_grammar.command "delete" (Some "t") None None
                 (Some [("b", VInt 2)]))) as Hparse by (vm_compute; reflexivity).
  split; [exact Hparse|].
  destruct (parse_tokens_shape _ _ _ _ Hparse)
    as (Hverb & _ & _ & _ & _ & _ & _ & Hwhere & _).
  split; [exact Hverb|]. apply Hwhere. by_compute.
Defined.


Lemma dispatch_frame_witness :
  "u" ≠ table_of (insert_cmd "t" [VInt 7; VStr "no"])
  ∧ tables_of (engine.dispatch (insert_cmd "t" [VInt 7; VStr "no"])
                 (∅, world_t)).1.2 !! "u"
    = tables_of world_t !! "u"
  ∧ utils.data_files (engine.dispatch (insert_cmd "t" [VInt 7; VStr "no"])
                        (∅, world_t)).1.2 !! "u"
    = utils.data_files world_t !! "u".
Proof.
  assert ("u" ≠ table_of (insert_cmd "t" [VInt 7; VStr "no"])) as Hne
    by by_compute.
  split; [exact Hne|].
  apply (dispatch_frame (insert_cmd "t" [VInt 7; VStr "no"]) (∅, world_t)
           (engine.dispatch (insert_cmd "t" [VInt 7; VStr "no"]) (∅, world_t)).1
           (engine.dispatch (insert_cmd "t" [VInt 7; VStr "no"]) (∅, world_t)).2
           "u"); [apply surjective_pairing|exact Hne].
Defined.


Lemma reported_ids_are_selected_ids_witness :
  tables_t !! "t" = Some [id_int; a_int; active_bool]
  ∧ core._schema_map [id_int; a_int; active_bool] !! ID_COLUMN = Some "int"
  ∧ Forall (conforms [id_int; a_int; active_bool]) rows_t
  ∧ ∃ found,
      core.select_records "t" (Some [("a", VInt 10)]) (store_t rows_t)
      = (store_t rows_t, Ok found)
      ∧ [1; 3] = stored_ids found ∧ length [1; 3] = length found
      ∧ (length [row_of 2 20 false] + length [1; 3] = length rows_t)%nat.
Proof.
  assert (tables_t !! "t" = Some [id_int; a_int; active_bool]) as Ht
    by (vm_compute; reflexivity).
  assert (core._schema_map [id_int; a_int; active_bool] !! ID_COLUMN = Some "int")
    as Hid by (vm_compute; reflexivity).
  split_and!; [exact Ht|exact Hid|exact rows_t_conform|].
  destruct (reported_ids_are_selected_ids tables_t "t" _ rows_t Ht Hid
              rows_t_conform) as [_ Hdelete].
  apply (Hdelete "y" [("a", VInt 10)] (store_t rows_t)).
  vm_compute. reflexivity.
Defined.


End FurtherExamples.
